(** * DataExtractor: the extraction job lifecycle of the Web Data Extractor

    A shallow embedding of the [DataExtractor] React component.  The
    revision that polls the webhook for the status of a job is modelled
    whole: [pollJobStatus], [waitForCompletion], [handleExtract] and the
    results display of the render function.  The [handleExtract] of
    [src/components/DataExtractor.tsx], which sends one request and shows
    its answer, is in the module [SingleRequest].

    The component talks to its environment (the webhook, the URL parser of
    the platform, timers, React state setters, toasts) and its polling loop
    is a [while (true)].  The handlers are therefore interaction trees over
    one event type, [effectE]; an executable interpreter, [run], gives the
    events their meaning in a [World] that scripts the answers of the
    platform and records every action in order.

    TypeScript types are erased when the component runs, so a response is
    whatever JSON value the webhook sent: the fields of [ExtractResponse]
    are read from it as JavaScript reads properties.  [JSON.stringify] and
    [JSON.parse] are modelled on JSON values whose strings hold code units
    below 256 and whose numbers are kept as text.

    Not modelled: [console.log] / [console.error] diagnostics (they are
    visible neither to the user interface nor to the network), styling and
    layout, and [handleCopy]. *)

From Stdlib Require Import String Ascii List ZArith Bool Lia DecimalString.
From ITree Require Import ITree.
Import ListNotations.
Import ITreeNotations.

Local Open Scope list_scope.
Local Open Scope itree_scope.
Local Open Scope string_scope.

Set Implicit Arguments.

(* ===================================================================== *)
(** * JavaScript values                                                   *)
(* ===================================================================== *)

(** What [response.json()] can produce.  A number is kept as the decimal
    text [Number.prototype.toString] gives it (the text [JSON.stringify]
    emits for it), so no floating-point arithmetic is involved; the text of
    zero, of either sign, is ["0"].  An object is the list of its own
    properties in enumeration order. *)
Unset Elimination Schemes.
Inductive JSON : Type :=
| JNull
| JBool (b : bool)
| JNumber (lit : string)
| JString (s : string)
| JArray (items : list JSON)
| JObject (props : list (string * JSON)).
Set Elimination Schemes.

(** A value of type [any]: [None] is [undefined]. *)
Definition JsValue : Type := option JSON.

Definition undefined : JsValue := None.
Definition null : JsValue := Some JNull.

(** A thrown value.  Everything thrown here ([new Error(..)], the
    [TypeError] of [fetch], of [new URL] and of a property read on [null],
    the [SyntaxError] of [response.json()]) is an instance of [Error]. *)
Record JsError : Type := Error { message : string }.

(** [ToBoolean]. *)
Definition truthy (v : JsValue) : bool :=
  match v with
  | None => false
  | Some JNull => false
  | Some (JBool b) => b
  | Some (JNumber lit) => negb (lit =? "0")
  | Some (JString s) => negb (s =? EmptyString)
  | Some (JArray _) => true
  | Some (JObject _) => true
  end.

(** [a || b]. *)
Definition js_or (a b : JsValue) : JsValue := if truthy a then a else b.

(** [v === 'text']. *)
Definition strict_eq_string (v : JsValue) (text : string) : bool :=
  match v with
  | Some (JString s) => s =? text
  | _ => false
  end.

Infix "===" := strict_eq_string (at level 70, no associativity).

Fixpoint lookup (name : string) (props : list (string * JSON)) : JsValue :=
  match props with
  | [] => None
  | (k, v) :: rest => if k =? name then Some v else lookup name rest
  end.

(** The message of the [TypeError] raised by a property read on [null]
    (the wording is the engine's). *)
Definition null_read_message (name : string) : string :=
  "Cannot read properties of null (reading '" ++ name ++ "')".

(** [v.name] for the property names the component reads ([success],
    [status], [data], [extract_id]): a read on [null] throws, an object
    answers with its own property, and a primitive or an array has no such
    property. *)
Definition get (v : JSON) (name : string) : JsError + JsValue :=
  match v with
  | JNull => inl (Error (null_read_message name))
  | JObject props => inr (lookup name props)
  | _ => inr None
  end.

(* ===================================================================== *)
(** * JSON.stringify                                                      *)
(* ===================================================================== *)

Definition dquote : ascii := "034"%char.
Definition backslash : ascii := "092"%char.
Definition newline : ascii := "010"%char.

Definition hex_digit (n : nat) : ascii :=
  match n with
  | 0 => "0" | 1 => "1" | 2 => "2" | 3 => "3" | 4 => "4" | 5 => "5"
  | 6 => "6" | 7 => "7" | 8 => "8" | 9 => "9" | 10 => "a" | 11 => "b"
  | 12 => "c" | 13 => "d" | 14 => "e" | _ => "f"
  end%char.

(** One code unit of [QuoteJSONString]. *)
Definition quote_char (c : ascii) : string :=
  let n := nat_of_ascii c in
  if (n =? 8)%nat then String backslash "b"
  else if (n =? 9)%nat then String backslash "t"
  else if (n =? 10)%nat then String backslash "n"
  else if (n =? 12)%nat then String backslash "f"
  else if (n =? 13)%nat then String backslash "r"
  else if (n =? 34)%nat then String backslash (String dquote EmptyString)
  else if (n =? 92)%nat then String backslash (String backslash EmptyString)
  else if (n <? 32)%nat then
    String backslash
      (String "u" (String "0" (String "0"
        (String (hex_digit (n / 16)) (String (hex_digit (n mod 16)) EmptyString)))))
  else String c EmptyString.

Fixpoint quote_chars (s : string) : string :=
  match s with
  | EmptyString => EmptyString
  | String c rest => quote_char c ++ quote_chars rest
  end.

Definition quote (s : string) : string :=
  String dquote (quote_chars s ++ String dquote EmptyString).

Fixpoint join (sep : string) (parts : list string) : string :=
  match parts with
  | [] => EmptyString
  | [p] => p
  | p :: rest => p ++ sep ++ join sep rest
  end.

(** [SerializeJSONArray] and [SerializeJSONObject] share the layout of
    their brackets. *)
Definition bracketed (gap indent : string) (opening closing : string)
    (partial : list string) : string :=
  match partial with
  | [] => opening ++ closing
  | _ =>
    if gap =? EmptyString then opening ++ join "," partial ++ closing
    else
      let inner := indent ++ gap in
      opening ++ String newline inner
        ++ join ("," ++ String newline inner) partial
        ++ String newline indent ++ closing
  end.

(** [SerializeJSONProperty] with the [gap] of the call and the current
    [indent]. *)
Fixpoint serialize (gap indent : string) (v : JSON) : string :=
  match v with
  | JNull => "null"
  | JBool true => "true"
  | JBool false => "false"
  | JNumber lit => lit
  | JString s => quote s
  | JArray items =>
    bracketed gap indent "[" "]" (map (serialize gap (indent ++ gap)) items)
  | JObject props =>
    bracketed gap indent "{" "}"
      (map (fun kv : string * JSON =>
              quote (fst kv) ++ ":"
                ++ (if gap =? EmptyString then EmptyString else " ")
                ++ serialize gap (indent ++ gap) (snd kv))
           props)
  end.

(** [JSON.stringify(v)]. *)
Definition JSON_stringify (v : JSON) : string :=
  serialize EmptyString EmptyString v.

(** [JSON.stringify(v, null, 2)]. *)
Definition JSON_stringify_2 (v : JSON) : string :=
  serialize "  " EmptyString v.

(** An object literal [{ k1: v1, ... }] as [JSON.stringify] sees it: a
    property whose value is [undefined] is left out. *)
Fixpoint object_literal (props : list (string * JsValue)) : list (string * JSON) :=
  match props with
  | [] => []
  | (k, Some v) :: rest => (k, v) :: object_literal rest
  | (_, None) :: rest => object_literal rest
  end.

(* ===================================================================== *)
(** * JSON.parse                                                          *)
(* ===================================================================== *)

(** JSON whitespace: space, tab, line feed, carriage return. *)
Definition is_ws (c : ascii) : bool :=
  let n := nat_of_ascii c in
  (n =? 32)%nat || (n =? 9)%nat || (n =? 10)%nat || (n =? 13)%nat.

Fixpoint skip_ws (s : string) : string :=
  match s with
  | EmptyString => EmptyString
  | String c rest => if is_ws c then skip_ws rest else s
  end.

Definition is_digit (c : ascii) : bool :=
  let n := nat_of_ascii c in (48 <=? n)%nat && (n <=? 57)%nat.

(** The characters a number token is made of. *)
Definition is_number_char (c : ascii) : bool :=
  is_digit c
  || (c =? "-")%char || (c =? "+")%char || (c =? ".")%char
  || (c =? "e")%char || (c =? "E")%char.

(** The longest prefix of number characters, and what follows it. *)
Fixpoint span_number (s : string) : string * string :=
  match s with
  | EmptyString => (EmptyString, EmptyString)
  | String c rest =>
    if is_number_char c
    then let (token, after) := span_number rest in (String c token, after)
    else (EmptyString, s)
  end.

Fixpoint skip_digits (s : string) : string :=
  match s with
  | EmptyString => EmptyString
  | String c rest => if is_digit c then skip_digits rest else s
  end.

(** One digit or more; what follows them. *)
Definition digits1 (s : string) : option string :=
  match s with
  | EmptyString => None
  | String c rest => if is_digit c then Some (skip_digits rest) else None
  end.

(** The exponent part of a number, or nothing. *)
Definition valid_exponent (s : string) : bool :=
  match s with
  | EmptyString => true
  | String c rest =>
    if (c =? "e")%char || (c =? "E")%char then
      let digits :=
        match rest with
        | String sign rest' =>
          if (sign =? "+")%char || (sign =? "-")%char then rest' else rest
        | EmptyString => rest
        end in
      match digits1 digits with
      | Some EmptyString => true
      | _ => false
      end
    else false
  end.

(** The fraction part of a number, or nothing, and then the exponent. *)
Definition valid_fraction (s : string) : bool :=
  match s with
  | String c rest =>
    if (c =? ".")%char then
      match digits1 rest with
      | Some after => valid_exponent after
      | None => false
      end
    else valid_exponent s
  | EmptyString => true
  end.

(** The grammar of a JSON number: an optional minus sign; then a zero, or
    a digit other than zero and any digits; then, optionally, a point and
    one digit or more; then, optionally, an [e] or [E], an optional sign
    and one digit or more. *)
Definition valid_number (token : string) : bool :=
  let unsigned :=
    match token with
    | String c rest => if (c =? "-")%char then rest else token
    | EmptyString => token
    end in
  match unsigned with
  | EmptyString => false
  | String c rest =>
    if (c =? "0")%char then valid_fraction rest
    else if is_digit c then valid_fraction (skip_digits rest)
    else false
  end.

Definition hex_value (c : ascii) : option nat :=
  let n := nat_of_ascii c in
  if (48 <=? n)%nat && (n <=? 57)%nat then Some (n - 48)
  else if (97 <=? n)%nat && (n <=? 102)%nat then Some (n - 87)
  else if (65 <=? n)%nat && (n <=? 70)%nat then Some (n - 55)
  else None.

(** The code unit [\uXXXX] stands for; a string here holds code units
    below 256 only, and an escape of a higher one is not read. *)
Definition unicode_escape (h1 h2 h3 h4 : ascii) : option ascii :=
  match hex_value h1, hex_value h2, hex_value h3, hex_value h4 with
  | Some a, Some b, Some c, Some d =>
    if ((a =? 0) && (b =? 0))%nat then Some (ascii_of_nat (16 * c + d)) else None
  | _, _, _, _ => None
  end.

(** The character a one-letter escape stands for. *)
Definition simple_escape (c : ascii) : option ascii :=
  if (c =? dquote)%char then Some dquote
  else if (c =? backslash)%char then Some backslash
  else if (c =? "/")%char then Some "/"%char
  else if (c =? "b")%char then Some "008"%char
  else if (c =? "f")%char then Some "012"%char
  else if (c =? "n")%char then Some "010"%char
  else if (c =? "r")%char then Some "013"%char
  else if (c =? "t")%char then Some "009"%char
  else None.

(** The characters of a string after its opening quote, up to the closing
    quote, and what follows it. *)
Fixpoint parse_chars (s : string) : option (string * string) :=
  match s with
  | EmptyString => None
  | String c rest =>
    if (c =? dquote)%char then Some (EmptyString, rest)
    else if (c =? backslash)%char then
      match rest with
      | EmptyString => None
      | String e rest1 =>
        if (e =? "u")%char then
          match rest1 with
          | String h1 (String h2 (String h3 (String h4 rest2))) =>
            match unicode_escape h1 h2 h3 h4, parse_chars rest2 with
            | Some u, Some (chars, after) => Some (String u chars, after)
            | _, _ => None
            end
          | _ => None
          end
        else
          match simple_escape e, parse_chars rest1 with
          | Some u, Some (chars, after) => Some (String u chars, after)
          | _, _ => None
          end
      end
    else if (nat_of_ascii c <? 32)%nat then None
    else
      match parse_chars rest with
      | Some (chars, after) => Some (String c chars, after)
      | None => None
      end
  end.

(** [s] without the prefix [p]. *)
Fixpoint strip_prefix (p s : string) : option string :=
  match p with
  | EmptyString => Some s
  | String a p' =>
    match s with
    | EmptyString => None
    | String b s' => if (a =? b)%char then strip_prefix p' s' else None
    end
  end.

(** Defining a property on an object under construction: a key that is
    there keeps its place and takes the new value. *)
Fixpoint set_prop (key : string) (v : JSON) (props : list (string * JSON))
  : list (string * JSON) :=
  match props with
  | [] => [(key, v)]
  | (k, x) :: rest =>
    if k =? key then (k, v) :: rest else (k, x) :: set_prop key v rest
  end.

(** A value at the head of [s], and what follows it.  [fuel] bounds the
    number of values read.  A number is kept as the token read (for a token
    [JSON.stringify] wrote, that is the text of the number it wrote); the
    properties of an object are kept in the order of the text. *)
Fixpoint parse_value (fuel : nat) (s : string) : option (JSON * string) :=
  match fuel with
  | O => None
  | S fuel' =>
    match skip_ws s with
    | EmptyString => None
    | String c rest =>
      if (c =? dquote)%char then
        match parse_chars rest with
        | Some (chars, after) => Some (JString chars, after)
        | None => None
        end
      else if (c =? "[")%char then
        match skip_ws rest with
        | EmptyString => None
        | String c' rest' =>
          if (c' =? "]")%char then Some (JArray [], rest')
          else
            match parse_items fuel' rest with
            | Some (items, after) => Some (JArray items, after)
            | None => None
            end
        end
      else if (c =? "{")%char then
        match skip_ws rest with
        | EmptyString => None
        | String c' rest' =>
          if (c' =? "}")%char then Some (JObject [], rest')
          else
            match parse_members fuel' rest [] with
            | Some (props, after) => Some (JObject props, after)
            | None => None
            end
        end
      else if (c =? "n")%char then
        match strip_prefix "ull" rest with
        | Some after => Some (JNull, after)
        | None => None
        end
      else if (c =? "t")%char then
        match strip_prefix "rue" rest with
        | Some after => Some (JBool true, after)
        | None => None
        end
      else if (c =? "f")%char then
        match strip_prefix "alse" rest with
        | Some after => Some (JBool false, after)
        | None => None
        end
      else if is_number_char c then
        let (token, after) := span_number (String c rest) in
        if valid_number token then Some (JNumber token, after) else None
      else None
    end
  end

with parse_items (fuel : nat) (s : string) : option (list JSON * string) :=
  match fuel with
  | O => None
  | S fuel' =>
    match parse_value fuel' s with
    | None => None
    | Some (v, rest) =>
      match skip_ws rest with
      | EmptyString => None
      | String c rest' =>
        if (c =? ",")%char then
          match parse_items fuel' rest' with
          | Some (items, after) => Some (v :: items, after)
          | None => None
          end
        else if (c =? "]")%char then Some ([v], rest')
        else None
      end
    end
  end

with parse_members (fuel : nat) (s : string) (props : list (string * JSON))
  : option (list (string * JSON) * string) :=
  match fuel with
  | O => None
  | S fuel' =>
    match skip_ws s with
    | EmptyString => None
    | String q rest =>
      if (q =? dquote)%char then
        match parse_chars rest with
        | None => None
        | Some (key, rest1) =>
          match skip_ws rest1 with
          | EmptyString => None
          | String colon rest2 =>
            if (colon =? ":")%char then
              match parse_value fuel' rest2 with
              | None => None
              | Some (v, rest3) =>
                match skip_ws rest3 with
                | EmptyString => None
                | String c rest4 =>
                  if (c =? ",")%char
                  then parse_members fuel' rest4 (set_prop key v props)
                  else if (c =? "}")%char then Some (set_prop key v props, rest4)
                  else None
                end
              end
            else None
          end
        end
      else None
    end
  end.

(** [JSON.parse(text)]; [None] is a [SyntaxError]. *)
Definition JSON_parse (text : string) : option JSON :=
  match parse_value (String.length text) text with
  | Some (v, rest) =>
    match skip_ws rest with
    | EmptyString => Some v
    | String _ _ => None
    end
  | None => None
  end.

(** A genuine JSON value: its numbers are number tokens and the keys of
    each of its objects are distinct. *)
Fixpoint wf_json (v : JSON) : Prop :=
  match v with
  | JNumber lit => valid_number lit = true
  | JArray items => fold_right (fun x acc => wf_json x /\ acc) True items
  | JObject props =>
    NoDup (map fst props)
    /\ fold_right (fun kv acc => wf_json (snd kv) /\ acc) True props
  | _ => True
  end.

(** ** Reading back a text *)

(** Only whitespace. *)
Fixpoint all_ws (s : string) : bool :=
  match s with
  | EmptyString => true
  | String c rest => is_ws c && all_ws rest
  end.

(** Only number characters. *)
Fixpoint all_number_chars (s : string) : bool :=
  match s with
  | EmptyString => true
  | String c rest => is_number_char c && all_number_chars rest
  end.

(** What may follow a value in a text: nothing, or a character that does
    not prolong a number. *)
Definition delimited (s : string) : Prop :=
  match s with
  | EmptyString => True
  | String c _ => is_number_char c = false
  end.

(** The first character of the text of a value. *)
Definition starts_value (c : ascii) : bool :=
  (c =? dquote)%char || (c =? "[")%char || (c =? "{")%char || (c =? "n")%char
  || (c =? "t")%char || (c =? "f")%char || (c =? "-")%char || is_digit c.

(** The number of values the parser reads for [v], at most. *)
Fixpoint size (v : JSON) : nat :=
  match v with
  | JArray items => S (fold_right (fun x acc => S (size x + acc)) 0 items)
  | JObject props => S (fold_right (fun kv acc => S (size (snd kv) + acc)) 0 props)
  | _ => 1
  end.

(** What reading back asks of a value: whatever the gap, the indentation
    and the text that follows, with steps enough. *)
Definition reads_back (v : JSON) : Prop :=
  forall (gap indent rest : string) (fuel : nat),
    all_ws gap = true -> all_ws indent = true -> delimited rest ->
    size v <= fuel ->
    parse_value fuel (serialize gap indent v ++ rest) = Some (v, rest).

(** The text of a property of an object. *)
Definition member_text (gap indent : string) (kv : string * JSON) : string :=
  quote (fst kv) ++ ":"
    ++ (if gap =? EmptyString then EmptyString else " ")
    ++ serialize gap indent (snd kv).

(** The properties read, one after the other, into [props]. *)
Definition set_props (props more : list (string * JSON)) : list (string * JSON) :=
  fold_left (fun acc kv => set_prop (fst kv) (snd kv) acc) more props.

(* ===================================================================== *)
(** * The platform: events of the component                               *)
(* ===================================================================== *)

(** The second argument of [fetch]. *)
Record RequestInit : Type := {
  method : string;
  headers : list (string * string);
  body : string
}.

(** What a resolved [fetch] gives: [response.ok], [response.status] and
    the outcome of [await response.json()] (a rejection when the body is
    not JSON). *)
Record Response : Type := {
  ok : bool;
  status : Z;
  json : JsError + JSON
}.

(** The argument of [toast]. *)
Record Toast : Type := {
  title : string;
  description : string;
  variant : option string
}.

Variant effectE : Type -> Type :=
| PreventDefault : effectE unit
| SetIsLoading (b : bool) : effectE unit
| SetError (msg : string) : effectE unit
| SetExtractedData (v : JsValue) : effectE unit
| SetJobStatus (v : JsValue) : effectE unit
| ScrollIntoView : effectE unit
| ShowToast (t : Toast) : effectE unit
| NewURL (url : string) : effectE (JsError + unit)
| Fetch (url : string) (init : RequestInit) : effectE (JsError + Response)
| SetTimeout (ms : Z) : effectE unit.

(** A computation that may throw. *)
Definition js (R : Type) : Type := itree effectE (JsError + R).

Definition throw {R : Type} (e : JsError) : js R := Ret (inl e).
Definition ret {R : Type} (r : R) : js R := Ret (inr r).

Definition bind_js {A B : Type} (t : js A) (k : A -> js B) : js B :=
  ITree.bind t (fun r => match r with inl e => Ret (inl e) | inr a => k a end).

(** An effect that does not throw, in a throwing context. *)
Definition perform {R : Type} (e : effectE R) : js R :=
  ITree.bind (ITree.trigger e) (fun r => Ret (inr r)).

(** A pure step that may throw (a property read). *)
Definition eval {R : Type} (r : JsError + R) : js R := Ret r.

Definition try_catch {R : Type} (body : js R) (handler : JsError -> js R) : js R :=
  ITree.bind body (fun r => match r with inl e => handler e | inr a => Ret (inr a) end).

Notation "x <-! t ;;; k" := (bind_js t (fun x => k))
  (at level 62, t at next level, right associativity).
Notation "t ;;; k" := (bind_js t (fun _ => k))
  (at level 62, right associativity).

(** The outcome of one pass through the body of [while (true)]. *)
Variant LoopStep (R : Type) : Type :=
| Continue
| Return (r : R).
Arguments Continue {R}.

(** [while (true) { body }]: the loop ends when the body returns or
    throws. *)
Definition while_true {R : Type} (body : js (LoopStep R)) : js R :=
  ITree.iter
    (fun _ : unit =>
       ITree.bind body (fun r =>
         match r with
         | inl e => Ret (inr (inl e))
         | inr Continue => Ret (inl tt)
         | inr (Return v) => Ret (inr (inr v))
         end))
    tt.

(* ===================================================================== *)
(** * The component                                                       *)
(* ===================================================================== *)

Definition webhookUrl : string :=
  "http://localhost:5678/webhook-test/1e77976c-81bd-4cd2-97cf-215e9bfc898a".

Definition json_headers : list (string * string) :=
  [("Content-Type", "application/json")].

(** [`HTTP error! status: ${response.status}`] *)
Definition http_error (response : Response) : JsError :=
  Error ("HTTP error! status: " ++ NilZero.string_of_int (Z.to_int (status response))).

(** The body of a status check.  [extractId] is declared a [string]; at
    run time it is whatever truthy value the webhook sent as
    [extract_id]. *)
Definition status_check_request (extractId : JsValue) : RequestInit :=
  {| method := "POST";
     headers := json_headers;
     body := JSON_stringify
               (JObject (object_literal
                  [("action", Some (JString "status_check"));
                   ("extract_id", extractId)])) |}.

Definition pollJobStatus (extractId : JsValue) : js JSON :=
  response <-! ITree.trigger (Fetch webhookUrl (status_check_request extractId)) ;;;
  if negb (ok response) then throw (http_error response)
  else eval (json response).

Definition JobFailedError : JsError := Error "Extraction job failed".
Definition JobCancelledError : JsError := Error "Extraction job was cancelled".

(** One pass through the body of the [while (true)] of
    [waitForCompletion]: the [try] block and its [catch], which throws the
    error again. *)
Definition waitForCompletion_pass (extractId : JsValue) : js (LoopStep JsValue) :=
  try_catch
    (statusResponse <-! pollJobStatus extractId ;;;
     status <-! eval (get statusResponse "status") ;;;
     perform (SetJobStatus status) ;;;
     if status === "completed" then
       data <-! eval (get statusResponse "data") ;;;
       ret (Return data)
     else if status === "failed" then throw JobFailedError
     else if status === "cancelled" then throw JobCancelledError
     else
       perform (SetTimeout 2000) ;;;
       ret Continue)
    (fun error => throw error).

Definition waitForCompletion (extractId : JsValue) : js JsValue :=
  while_true (waitForCompletion_pass extractId).

Definition destructive : option string := Some "destructive".

Definition toast_missing_information : Toast :=
  {| title := "Missing Information";
     description := "Please provide both a URL and extraction prompt";
     variant := destructive |}.

Definition toast_invalid_url : Toast :=
  {| title := "Invalid URL";
     description := "Please enter a valid website URL";
     variant := destructive |}.

Definition toast_extraction_complete : Toast :=
  {| title := "Extraction Complete";
     description := "Data has been successfully extracted from the website";
     variant := None |}.

Definition toast_extraction_failed (errorMessage : string) : Toast :=
  {| title := "Extraction Failed";
     description := errorMessage;
     variant := destructive |}.

Definition submit_request (url prompt : string) : RequestInit :=
  {| method := "POST";
     headers := json_headers;
     body := JSON_stringify
               (JObject (object_literal
                  [("urls", Some (JArray [JString url]));
                   ("prompt", Some (JString prompt))])) |}.

Definition SubmissionError : JsError := Error "Failed to start extraction job".

(** The [try] block of [handleExtract]. *)
Definition handleExtract_try (url prompt : string) : js unit :=
  response <-! ITree.trigger (Fetch webhookUrl (submit_request url prompt)) ;;;
  if negb (ok response) then throw (http_error response)
  else
    initialResponse <-! eval (json response) ;;;
    success <-! eval (get initialResponse "success") ;;;
    if negb (truthy success) then throw SubmissionError
    else
      status <-! eval (get initialResponse "status") ;;;
      if status === "completed" then
        data <-! eval (get initialResponse "data") ;;;
        perform (SetExtractedData data) ;;;
        perform (ShowToast toast_extraction_complete)
      else
        extract_id <-! eval (get initialResponse "extract_id") ;;;
        if truthy extract_id then
          finalData <-! waitForCompletion extract_id ;;;
          perform (SetExtractedData finalData) ;;;
          perform (ShowToast toast_extraction_complete)
        else
          data <-! eval (get initialResponse "data") ;;;
          perform (SetExtractedData (js_or data (Some initialResponse))) ;;;
          perform (ShowToast toast_extraction_complete).

(** The [catch] block of [handleExtract]; every thrown value is an
    [Error], so [errorMessage] is its message. *)
Definition handleExtract_catch (error : JsError) : itree effectE unit :=
  let errorMessage := message error in
  ITree.trigger (SetError ("Failed to extract data: " ++ errorMessage)) ;;
  ITree.trigger (ShowToast (toast_extraction_failed errorMessage)).

Definition handleExtract_finally : itree effectE unit :=
  ITree.trigger (SetIsLoading false) ;;
  ITree.trigger (SetJobStatus (Some (JString EmptyString))).

Definition handleExtract (url prompt : string) : itree effectE unit :=
  ITree.trigger PreventDefault ;;
  if negb (truthy (Some (JString url))) || negb (truthy (Some (JString prompt))) then
    ITree.trigger (ShowToast toast_missing_information)
  else
    parsed <- ITree.trigger (NewURL url) ;;
    match parsed with
    | inl _ => ITree.trigger (ShowToast toast_invalid_url)
    | inr _ =>
      ITree.trigger (SetIsLoading true) ;;
      ITree.trigger (SetError EmptyString) ;;
      ITree.trigger (SetExtractedData null) ;;
      ITree.trigger (SetJobStatus (Some (JString EmptyString))) ;;
      ITree.trigger ScrollIntoView ;;
      outcome <- handleExtract_try url prompt ;;
      match outcome with
      | inl error => handleExtract_catch error
      | inr _ => Ret tt
      end ;;
      handleExtract_finally
    end.

(* ===================================================================== *)
(** * The component without polling                                       *)
(* ===================================================================== *)

(** [src/components/DataExtractor.tsx]: the same guards, one request, and
    the body of the response shown as it is. *)
Module SingleRequest.

Definition handleExtract_try (url prompt : string) : js unit :=
  response <-! ITree.trigger (Fetch webhookUrl (submit_request url prompt)) ;;;
  if negb (ok response) then throw (http_error response)
  else
    data <-! eval (json response) ;;;
    perform (SetExtractedData (Some data)) ;;;
    perform (ShowToast toast_extraction_complete).

Definition handleExtract (url prompt : string) : itree effectE unit :=
  ITree.trigger PreventDefault ;;
  if negb (truthy (Some (JString url))) || negb (truthy (Some (JString prompt))) then
    ITree.trigger (ShowToast toast_missing_information)
  else
    parsed <- ITree.trigger (NewURL url) ;;
    match parsed with
    | inl _ => ITree.trigger (ShowToast toast_invalid_url)
    | inr _ =>
      ITree.trigger (SetIsLoading true) ;;
      ITree.trigger (SetError EmptyString) ;;
      ITree.trigger (SetExtractedData null) ;;
      outcome <- handleExtract_try url prompt ;;
      match outcome with
      | inl error => handleExtract_catch error
      | inr _ => Ret tt
      end ;;
      ITree.trigger (SetIsLoading false)
    end.

End SingleRequest.

(* ===================================================================== *)
(** * Running the component                                               *)
(* ===================================================================== *)

(** The React state the handlers write. *)
Record UiState : Type := {
  isLoading : bool;
  extractedData : JsValue;
  error : string;
  jobStatus : JsValue
}.

(** The state of a freshly mounted component. *)
Definition initial_ui : UiState :=
  {| isLoading := false;
     extractedData := null;
     error := EmptyString;
     jobStatus := Some (JString EmptyString) |}.

(** One performed action. *)
Definition Action : Type := { T : Type & effectE T }.
Definition act {T : Type} (e : effectE T) : Action := existT effectE T e.

(** The environment of a run: the React state, the platform's answers
    ([url_parser]: what [new URL] does with a string; [network]: what the
    [n]-th [fetch] of the run resolves or rejects with), the number of
    requests sent so far, and the actions performed so far, oldest first. *)
Record World : Type := {
  ui : UiState;
  url_parser : string -> JsError + unit;
  network : nat -> JsError + Response;
  fetched : nat;
  trace : list Action
}.

Definition with_ui (f : UiState -> UiState) (w : World) : World :=
  {| ui := f (ui w); url_parser := url_parser w; network := network w;
     fetched := fetched w; trace := trace w |}.

Definition record_action (a : Action) (w : World) : World :=
  {| ui := ui w; url_parser := url_parser w; network := network w;
     fetched := fetched w; trace := (trace w ++ [a])%list |}.

Definition next_request (w : World) : World :=
  {| ui := ui w; url_parser := url_parser w; network := network w;
     fetched := S (fetched w); trace := trace w |}.

Definition handle {T : Type} (e : effectE T) (w : World) : T * World :=
  let w := record_action (act e) w in
  match e in effectE R return R * World with
  | PreventDefault => (tt, w)
  | SetIsLoading b =>
    (tt, with_ui (fun u => {| isLoading := b; extractedData := extractedData u;
                              error := error u; jobStatus := jobStatus u |}) w)
  | SetError msg =>
    (tt, with_ui (fun u => {| isLoading := isLoading u; extractedData := extractedData u;
                              error := msg; jobStatus := jobStatus u |}) w)
  | SetExtractedData v =>
    (tt, with_ui (fun u => {| isLoading := isLoading u; extractedData := v;
                              error := error u; jobStatus := jobStatus u |}) w)
  | SetJobStatus v =>
    (tt, with_ui (fun u => {| isLoading := isLoading u; extractedData := extractedData u;
                              error := error u; jobStatus := v |}) w)
  | ScrollIntoView => (tt, w)
  | ShowToast _ => (tt, w)
  | NewURL url => (url_parser w url, w)
  | Fetch _ _ => (network w (fetched w), next_request w)
  | SetTimeout _ => (tt, w)
  end.

(** The result of running with a bounded number of steps: the run ended
    with a result and [spare] unused steps, or it is still going. *)
Inductive Outcome (R : Type) : Type :=
| Done (r : R) (w : World) (spare : nat)
| Running (w : World).
Arguments Running {R}.

(** Runs [t] in [w] for at most [fuel] steps; a step is one event or one
    silent step of a loop. *)
Fixpoint run {R : Type} (fuel : nat) (t : itree effectE R) (w : World) : Outcome R :=
  match observe t with
  | RetF r => Done r w fuel
  | TauF t' =>
    match fuel with
    | O => Running w
    | S fuel' => run fuel' t' w
    end
  | VisF e k =>
    match fuel with
    | O => Running w
    | S fuel' => let (answer, w') := handle e w in run fuel' (k answer) w'
    end
  end.

(** [t] started in [w] ends with result [r] in world [w']. *)
Definition runs_to {R : Type} (t : itree effectE R) (w : World) (r : R) (w' : World) : Prop :=
  exists fuel spare, run fuel t w = Done r w' spare.

Definition terminates {R : Type} (t : itree effectE R) (w : World) : Prop :=
  exists r w', runs_to t w r w'.

(** However many steps are allowed, the run is still going. *)
Definition diverges {R : Type} (t : itree effectE R) (w : World) : Prop :=
  forall fuel, exists w', run fuel t w = Running w'.

(** Whenever [t] started in [w] ends, its result and final world satisfy
    [Q]. *)
Definition ensures {R : Type} (t : itree effectE R) (w : World)
    (Q : R -> World -> Prop) : Prop :=
  forall fuel r w' spare, run fuel t w = Done r w' spare -> Q r w'.

(** The requests of a trace, in order. *)
Fixpoint requests (tr : list Action) : list (string * RequestInit) :=
  match tr with
  | [] => []
  | existT _ _ (Fetch url init) :: rest => (url, init) :: requests rest
  | _ :: rest => requests rest
  end.

(** The pauses of a trace, in order. *)
Fixpoint pauses (tr : list Action) : list Z :=
  match tr with
  | [] => []
  | existT _ _ (SetTimeout ms) :: rest => ms :: pauses rest
  | _ :: rest => pauses rest
  end.

(** The toasts of a trace, in order. *)
Fixpoint toasts (tr : list Action) : list Toast :=
  match tr with
  | [] => []
  | existT _ _ (ShowToast t) :: rest => t :: toasts rest
  | _ :: rest => toasts rest
  end.

(** A world whose network answers with the listed results, in order, and
    rejects every later request. *)
Definition scripted (answers : list (JsError + Response)) : nat -> JsError + Response :=
  fun n => nth n answers (inl (Error "Failed to fetch")).

(** A world in which the component was just mounted and nothing has
    happened. *)
Definition fresh_world (url_parser : string -> JsError + unit)
    (network : nat -> JsError + Response) : World :=
  {| ui := initial_ui; url_parser := url_parser; network := network;
     fetched := 0; trace := [] |}.

(** An HTTP 200 response whose body is the JSON value [v]. *)
Definition ok_response (v : JSON) : JsError + Response :=
  inr {| ok := true; status := 200; json := inr v |}.

(* ===================================================================== *)
(** * The results display                                                 *)
(* ===================================================================== *)

(** What React puts on the page for
    [{extractedData && !isLoading && (<Card> ... <pre>{JSON.stringify(extractedData, null, 2)}</pre> ... </Card>)}]:
    nothing for [false], [null], [undefined] and the empty string, the
    text of the number for a falsy number, and else the card with the
    pretty-printed value. *)
Inductive Rendered : Type :=
| Nothing
| Text (s : string)
| ResultsCard (pre : string).

Definition results_display (u : UiState) : Rendered :=
  if truthy (extractedData u) then
    if negb (isLoading u) then
      match extractedData u with
      | Some v => ResultsCard (JSON_stringify_2 v)
      | None => Nothing
      end
    else Nothing
  else
    match extractedData u with
    | Some (JNumber lit) => Text lit
    | _ => Nothing
    end.

(* ===================================================================== *)
(** * Vocabulary of the properties                                        *)
(* ===================================================================== *)

(** ** Answers of the webhook *)

(** The JSON body an answer delivers: the request resolved, the response
    is [ok] and its body was read as JSON. *)
Definition body_of (answer : JsError + Response) : option JSON :=
  match answer with
  | inl _ => None
  | inr response =>
    if ok response then
      match json response with
      | inl _ => None
      | inr v => Some v
      end
    else None
  end.

(** The [status] a delivered body carries. *)
Definition status_of (answer : JsError + Response) : JsValue :=
  match body_of answer with
  | Some (JObject props) => lookup "status" props
  | _ => None
  end.

(** The statuses that end the polling loop. *)
Definition terminal_status (status : JsValue) : bool :=
  (status === "completed") || (status === "failed") || (status === "cancelled").

(** A transport failure: the request was rejected (network failure) or
    the HTTP status is not 2xx. *)
Definition transport_failure (answer : JsError + Response) : bool :=
  match answer with
  | inl _ => true
  | inr response => negb (ok response)
  end.

(** An answer that ends the polling loop. *)
Definition ends_polling (answer : JsError + Response) : bool :=
  transport_failure answer || terminal_status (status_of answer).

(** An answer after which the loop polls again: a delivered body whose
    status is not terminal. *)
Definition keeps_polling (answer : JsError + Response) : bool :=
  match body_of answer with
  | Some v =>
    match get v "status" with
    | inl _ => false
    | inr status => negb (terminal_status status)
    end
  | None => false
  end.

(** An answer delivered with an [ok] status whose body the loop cannot
    read: [response.json()] rejects (the body is not JSON), or the body is
    [null], on which the read of [status] throws. *)
Definition unreadable_body (answer : JsError + Response) : bool :=
  match answer with
  | inl _ => false
  | inr response =>
    ok response
    && match json response with
       | inl _ => true
       | inr JNull => true
       | inr _ => false
       end
  end.

(** The answer respects the declared type of the webhook's responses
    ([ExtractResponse]): a transported body is a JSON object. *)
Definition typed_answer (answer : JsError + Response) : bool :=
  match answer with
  | inl _ => true
  | inr response =>
    if ok response then
      match json response with
      | inr (JObject _) => true
      | _ => false
      end
    else true
  end.

(** The request of a status check. *)
Definition status_check (extractId : JsValue) : string * RequestInit :=
  (webhookUrl, status_check_request extractId).

(** The request of a submission. *)
Definition submission (url prompt : string) : string * RequestInit :=
  (webhookUrl, submit_request url prompt).

(** ** Traces and bounded runs *)

(** The assignments to [extractedData] of a trace, in order. *)
Fixpoint assignments (tr : list Action) : list JsValue :=
  match tr with
  | [] => []
  | existT _ _ (SetExtractedData v) :: rest => v :: assignments rest
  | _ :: rest => assignments rest
  end.

(** The event is a request. *)
Definition is_fetch {T : Type} (e : effectE T) : bool :=
  match e with
  | Fetch _ _ => true
  | _ => false
  end.

(** The events of the polling loop. *)
Definition is_polling_event {T : Type} (e : effectE T) : bool :=
  match e with
  | Fetch _ _ | SetJobStatus _ | SetTimeout _ => true
  | _ => false
  end.

(** The actions of [n] passes that saw the statuses [statuses]. *)
Definition polling_trace (extractId : JsValue) (statuses : list JsValue) : list Action :=
  flat_map
    (fun status =>
       [act (Fetch webhookUrl (status_check_request extractId));
        act (SetJobStatus status);
        act (SetTimeout 2000)])
    statuses.

(** The world a bounded run has reached. *)
Definition world_of {R : Type} (o : Outcome R) : World :=
  match o with
  | Done _ w _ => w
  | Running w => w
  end.

(** The spare steps of a finished run. *)
Definition spare_of {R : Type} (o : Outcome R) : nat :=
  match o with
  | Done _ _ spare => spare
  | Running _ => 0
  end.

(** ** The polling loop, pass by pass *)

(** The outcome of one pass of the polling loop, as a function of the
    answer to its status check ([waitForCompletion_pass] computes it, see
    [pass_runs]). *)
Definition pass_result (answer : JsError + Response) : JsError + LoopStep JsValue :=
  match answer with
  | inl e => inl e
  | inr response =>
    if negb (ok response) then inl (http_error response)
    else
      match json response with
      | inl e => inl e
      | inr statusResponse =>
        match get statusResponse "status" with
        | inl e => inl e
        | inr status =>
          if status === "completed" then
            match get statusResponse "data" with
            | inl e => inl e
            | inr data => inr (Return data)
            end
          else if status === "failed" then inl JobFailedError
          else if status === "cancelled" then inl JobCancelledError
          else inr Continue
        end
      end
  end.

(** The world after a pass of the polling loop that saw the non-terminal
    status of the next answer: the request, the status shown, the pause. *)
Definition after_pending_pass (extractId : JsValue) (w : World) : World :=
  let status := status_of (network w (fetched w)) in
  snd (handle (SetTimeout 2000)
    (snd (handle (SetJobStatus status)
      (snd (handle (Fetch webhookUrl (status_check_request extractId)) w))))).

(** The world after [n] such passes. *)
Fixpoint after_pending_passes (extractId : JsValue) (n : nat) (w : World) : World :=
  match n with
  | O => w
  | S n' => after_pending_passes extractId n' (after_pending_pass extractId w)
  end.

(** The world after a status check whose answer ended the loop with the
    status [status] shown. *)
Definition after_status_check (extractId status : JsValue) (w : World) : World :=
  snd (handle (SetJobStatus status)
    (snd (handle (Fetch webhookUrl (status_check_request extractId)) w))).

(** The world after one pass of the polling loop. *)
Definition after_pass (extractId : JsValue) (w : World) : World :=
  let answer := network w (fetched w) in
  match body_of answer with
  | Some JNull | None => snd (handle (Fetch webhookUrl (status_check_request extractId)) w)
  | Some _ =>
    if terminal_status (status_of answer)
    then after_status_check extractId (status_of answer) w
    else after_pending_pass extractId w
  end.

(** The statuses of the next [n] answers of the network of [w]. *)
Definition next_statuses (n : nat) (w : World) : list JsValue :=
  map (fun i => status_of (network w (fetched w + i))) (seq 0 n).

(** [w'] differs from [w] at most by requests sent, job statuses shown and
    pauses: the network and the platform are the same, no request was
    taken back, [isLoading], [error] and [extractedData] are as they were,
    and the actions added assign no result and show no toast. *)
Definition polled_only (w w' : World) : Prop :=
  network w' = network w
  /\ url_parser w' = url_parser w
  /\ fetched w <= fetched w'
  /\ isLoading (ui w') = isLoading (ui w)
  /\ error (ui w') = error (ui w)
  /\ extractedData (ui w') = extractedData (ui w)
  /\ exists added,
       trace w' = (trace w ++ added)%list
       /\ assignments added = []
       /\ toasts added = [].

(** ** The submission, block by block *)

(** The input passes the guards of [handleExtract]. *)
Definition validated (url prompt : string) (w : World) : Prop :=
  url <> EmptyString /\ prompt <> EmptyString /\ url_parser w url = inr tt.

(** The input fails the guards of [handleExtract]: the URL is empty, the
    prompt is empty, or [new URL(url)] throws. *)
Definition invalid_input (url prompt : string) (w : World) : Prop :=
  url = EmptyString \/ prompt = EmptyString \/ exists e, url_parser w url = inl e.

(** The report of an invalid input. *)
Definition InvalidInputError (t : Toast) : Prop :=
  t = toast_missing_information \/ t = toast_invalid_url.

(** [handler], started in [w], reports an invalid input and ends without
    touching the React state, and at no point of its run has it issued a
    request. *)
Definition rejects_without_request (handler : itree effectE unit) (w : World) : Prop :=
  (exists w' t,
     runs_to handler w tt w'
     /\ InvalidInputError t
     /\ toasts (trace w') = (toasts (trace w) ++ [t])%list
     /\ requests (trace w') = requests (trace w)
     /\ fetched w' = fetched w
     /\ ui w' = ui w)
  /\ (forall fuel,
        requests (trace (world_of (run fuel handler w))) = requests (trace w)
        /\ fetched (world_of (run fuel handler w)) = fetched w).

(** The world when the [try] block of [handleExtract] starts: the guards
    passed, the state was reset and the page scrolled. *)
Definition started (url : string) (w : World) : World :=
  snd (handle ScrollIntoView
    (snd (handle (SetJobStatus (Some (JString EmptyString)))
      (snd (handle (SetExtractedData null)
        (snd (handle (SetError EmptyString)
          (snd (handle (SetIsLoading true)
            (snd (handle (NewURL url)
              (snd (handle PreventDefault w))))))))))))).

(** The world after the submission was sent. *)
Definition after_submission (url prompt : string) (w : World) : World :=
  snd (handle (Fetch webhookUrl (submit_request url prompt)) w).

(** The world after a successful [try] block stored [v]: the value
    assigned and the toast. *)
Definition after_success (v : JsValue) (w : World) : World :=
  snd (handle (ShowToast toast_extraction_complete)
    (snd (handle (SetExtractedData v) w))).

(** The world after the [catch] block. *)
Definition after_catch (error : JsError) (w : World) : World :=
  snd (handle (ShowToast (toast_extraction_failed (message error)))
    (snd (handle (SetError ("Failed to extract data: " ++ message error)) w))).

(** The world after the [finally] block. *)
Definition after_finally (w : World) : World :=
  snd (handle (SetJobStatus (Some (JString EmptyString)))
    (snd (handle (SetIsLoading false) w))).

(** The world when [handleExtract] ends, from the world [w] and the outcome
    of its [try] block. *)
Definition finished (outcome : JsError + unit) (w : World) : World :=
  match outcome with
  | inl error => after_finally (after_catch error w)
  | inr _ => after_finally w
  end.

(** The value a successful extraction stores, from the last answer [v]
    the component received: the [data] of a [completed] answer, or, for a
    first answer that is not [completed] and carries no (truthy)
    [extract_id], its [data] if truthy and else the answer itself. *)
Definition terminal_payload (v : JSON) (value : JsValue) : Prop :=
  (get v "status" = inr (Some (JString "completed")) /\ get v "data" = inr value)
  \/ (exists status extract_id data,
        get v "status" = inr status /\ (status === "completed") = false
        /\ get v "extract_id" = inr extract_id /\ truthy extract_id = false
        /\ get v "data" = inr data
        /\ value = js_or data (Some v)).

(** What holds when the [try] block of [handleExtract], started in [w],
    has ended in [w'] with [outcome]: it began with the submission; when
    it threw, it assigned no result and showed no toast; when it did not,
    it assigned once, the payload of the last answer received, and
    announced the completion. *)
Definition try_post (url prompt : string) (w : World) (outcome : JsError + unit)
    (w' : World) : Prop :=
  network w' = network w
  /\ fetched w < fetched w'
  /\ isLoading (ui w') = isLoading (ui w)
  /\ error (ui w') = error (ui w)
  /\ exists added,
       trace w' = (trace w ++ act (Fetch webhookUrl (submit_request url prompt)) :: added)%list
       /\ match outcome with
          | inl _ =>
            extractedData (ui w') = extractedData (ui w)
            /\ assignments added = []
            /\ toasts added = []
          | inr _ =>
            (exists v, body_of (network w (fetched w' - 1)) = Some v
                       /\ terminal_payload v (extractedData (ui w')))
            /\ assignments added = [extractedData (ui w')]
            /\ toasts added = [toast_extraction_complete]
          end.

(* ===================================================================== *)
(** * Sample environments                                                 *)
(* ===================================================================== *)

Module Samples.

Definition url : string := "https://example.com/articles".
Definition prompt : string := "Get article titles and authors".

(** A URL parser that takes what starts with [http] or [https] and a
    colon. *)
Definition parser (text : string) : JsError + unit :=
  if prefix "http:" text || prefix "https:" text then inr tt
  else inl (Error "Invalid URL").

Definition job : JsValue := Some (JString "job-1").

Definition articles : JSON :=
  JArray [JObject [("title", JString "On polling"); ("author", JString "A. Writer")];
          JObject [("title", JString "Second thoughts"); ("author", JString "B. Reader")]].

Definition accepted : JSON :=
  JObject [("success", JBool true); ("status", JString "processing");
           ("extract_id", JString "job-1")].

Definition processing : JSON :=
  JObject [("success", JBool true); ("status", JString "processing")].

Definition completed (data : JSON) : JSON :=
  JObject [("success", JBool true); ("status", JString "completed"); ("data", data)].

Definition failed : JSON :=
  JObject [("success", JBool true); ("status", JString "failed")].


Definition refused : JSON :=
  JObject [("success", JBool false); ("status", JString "completed");
           ("data", articles)].

(** No [extract_id], not [completed], and data. *)
Definition synchronous : JSON :=
  JObject [("success", JBool true); ("status", JString "processing");
           ("data", articles)].

Definition world (answers : list JSON) : World :=
  fresh_world parser (scripted (map ok_response answers)).

(** A webhook that answers [processing] for ever. *)
Definition stuck_world : World :=
  fresh_world parser (fun _ => ok_response processing).

(** A webhook that answers 200 with the body [null] for ever. *)
Definition null_world : World :=
  fresh_world parser (fun _ => ok_response JNull).

(** A submission that is accepted, polled twice and completed. *)
Definition polled_run : Outcome unit :=
  run 40 (handleExtract url prompt)
    (world [accepted; processing; completed articles]).

(** A submission that is accepted and then fails. *)
Definition failed_run : Outcome unit :=
  run 40 (handleExtract url prompt) (world [accepted; processing; failed]).


(** A submission answered without [extract_id], with data. *)
Definition synchronous_run : Outcome unit :=
  run 40 (handleExtract url prompt) (world [synchronous]).

End Samples.

(* ===================================================================== *)
(** * More of the component                                               *)
(* ===================================================================== *)

(** ** Failures of a request *)

(** The error a request ends in before its body is in hand: the rejection
    of [fetch], the [HTTP error!] thrown for a response that is not [ok],
    or the rejection of [response.json()]. *)
Definition transport_error (answer : JsError + Response) : option JsError :=
  match answer with
  | inl e => Some e
  | inr response =>
    if negb (ok response) then Some (http_error response)
    else
      match json response with
      | inl e => Some e
      | inr _ => None
      end
  end.

(** The text [setError] is given in the [catch] block. *)
Definition failure_text (e : JsError) : string :=
  "Failed to extract data: " ++ message e.

(** ** The requests of a run *)

(** What the requests and pauses of a run of [handleExtract] that reached
    the request look like, from [w] to [w']: the submission alone, or the
    submission and then [k + 1] status checks of the [extract_id] of the
    first answer, with [k] pauses of two seconds. *)
Definition submission_then_polls (url prompt : string) (w w' : World) : Prop :=
  (requests (trace w') = (requests (trace w) ++ [submission url prompt])%list
   /\ pauses (trace w') = pauses (trace w)
   /\ fetched w' = S (fetched w))
  \/ (exists v extract_id k,
        body_of (network w (fetched w)) = Some v
        /\ get v "extract_id" = inr extract_id
        /\ truthy extract_id = true
        /\ requests (trace w') =
           (requests (trace w)
              ++ submission url prompt :: repeat (status_check extract_id) (S k))%list
        /\ pauses (trace w') = (pauses (trace w) ++ repeat 2000%Z k)%list
        /\ fetched w' = S (fetched w) + S k).

(** ** The page *)

(** [getStatusMessage()]: the [switch] compares [jobStatus] with [===]. *)
Definition getStatusMessage (jobStatus : JsValue) : string :=
  if jobStatus === "processing" then "Processing your request..."
  else if jobStatus === "completed" then "Extraction completed successfully!"
  else if jobStatus === "failed" then "Extraction failed"
  else if jobStatus === "cancelled" then "Extraction was cancelled"
  else "Extracting data...".

(** The card under [{isLoading && (]: its heading and its paragraph. *)
Record LoadingCard : Type := {
  heading : string;
  paragraph : string
}.

Definition loading_display (u : UiState) : option LoadingCard :=
  if isLoading u then
    Some {| heading := getStatusMessage (jobStatus u);
            paragraph :=
              if jobStatus u === "processing"
              then "Your extraction job is being processed. This may take a few moments..."
              else "Please wait while we process your request" |}
  else None.

(** The card under [{error && (]: the text of its paragraph. *)
Definition error_display (u : UiState) : option string :=
  if truthy (Some (JString (error u))) then Some (error u) else None.

(** The submit button of the form, for the [url] and [prompt] the inputs
    hold. *)
Record SubmitButton : Type := {
  disabled : bool;
  label : string
}.

Definition submit_button (u : UiState) (url prompt : string) : SubmitButton :=
  {| disabled := isLoading u
                 || negb (truthy (Some (JString url)))
                 || negb (truthy (Some (JString prompt)));
     label := if isLoading u then getStatusMessage (jobStatus u) else "Extract Data" |}.

(** ** Runs in progress *)

(** At whatever step the run of [t] started in [w] is stopped, the world
    satisfies [P] if the run has not ended, and the result and the world
    satisfy [Q] if it has. *)
Definition throughout {R : Type} (t : itree effectE R) (w : World)
    (P : World -> Prop) (Q : R -> World -> Prop) : Prop :=
  forall fuel,
    match run fuel t w with
    | Running w' => P w'
    | Done r w' _ => Q r w'
    end.

(** A request or a pause: the actions the handler waits for. *)
Definition is_await (a : Action) : bool :=
  match a with
  | existT _ _ (Fetch _ _) => true
  | existT _ _ (SetTimeout _) => true
  | _ => false
  end.

(** The last action of [tr] is a request or a pause. *)
Fixpoint awaiting (tr : list Action) : bool :=
  match tr with
  | [] => false
  | [a] => is_await a
  | _ :: rest => awaiting rest
  end.

(** The React state between the reset at the start of an attempt and its
    first assignment of a result or an error, or the arrival of a status
    that ends the polling. *)
Definition in_flight (u : UiState) : Prop :=
  isLoading u = true /\ error u = EmptyString /\ extractedData u = null
  /\ terminal_status (jobStatus u) = false.

(** The invariant of a [try] block: the state satisfies [S], or the last
    thing done was not a request or a pause. *)
Definition waiting_inv (S : UiState -> Prop) (w : World) : Prop :=
  S (ui w) \/ awaiting (trace w) = false.

(** What holds at every step of a run started in [w]: when the last thing
    the run did is send a request or start a pause, the state satisfies
    [S]. *)
Definition waits_with (S : UiState -> Prop) (w w' : World) : Prop :=
  forall added,
    trace w' = (trace w ++ added)%list -> awaiting added = true -> S (ui w').

Definition try_inv (w : World) : Prop := waiting_inv in_flight w.

Definition waits_in_flight (w w' : World) : Prop := waits_with in_flight w w'.

(** ** The first revisions of the page *)

(** The React state between the reset at the start of an attempt and its
    first assignment of a result or an error, for the component without
    polling, which has no [jobStatus]. *)
Definition cleared (u : UiState) : Prop :=
  isLoading u = true /\ error u = EmptyString /\ extractedData u = null.

(** The block under [{extractedData && (] of the first revision: the
    results card, not conditioned on [isLoading]. *)
Definition results_display_unguarded (u : UiState) : Rendered :=
  if truthy (extractedData u) then
    match extractedData u with
    | Some v => ResultsCard (JSON_stringify_2 v)
    | None => Nothing
    end
  else
    match extractedData u with
    | Some (JNumber lit) => Text lit
    | _ => Nothing
    end.

(** ** Copying the result *)

(** The callback of the timer [handleCopy] starts:
    [() => setCopied(false)]. *)
Variant TimerCallback : Type :=
| ResetCopied.

(** What [handleCopy] reads and writes besides [extractedData]: the
    [copied] flag, the text on the clipboard, the toasts shown, the timers
    started with their delay, and what [console.error] was given. *)
Record CopyState : Type := {
  copied : bool;
  clipboard : option string;
  copy_toasts : list Toast;
  timers : list (TimerCallback * Z);
  console_errors : list (string * JsError)
}.

Definition toast_copied : Toast :=
  {| title := "Copied!";
     description := "JSON data copied to clipboard";
     variant := None |}.

Definition toast_copy_failed : Toast :=
  {| title := "Copy Failed";
     description := "Unable to copy to clipboard";
     variant := destructive |}.

(** [handleCopy], for the [extractedData] of the render the button belongs
    to.  [writeText] is what [navigator.clipboard.writeText] does with a
    text: it rejects, or it resolves and the clipboard holds the text. *)
Definition handleCopy (extractedData : JsValue) (writeText : string -> JsError + unit)
    (s : CopyState) : CopyState :=
  if negb (truthy extractedData) then s
  else
    match extractedData with
    | None => s
    | Some v =>
      let text := JSON_stringify_2 v in
      match writeText text with
      | inr _ =>
        {| copied := true;
           clipboard := Some text;
           copy_toasts := (copy_toasts s ++ [toast_copied])%list;
           timers := (timers s ++ [(ResetCopied, 2000%Z)])%list;
           console_errors := console_errors s |}
      | inl error =>
        {| copied := copied s;
           clipboard := clipboard s;
           copy_toasts := (copy_toasts s ++ [toast_copy_failed])%list;
           timers := timers s;
           console_errors := (console_errors s ++ [("Copy failed:", error)])%list |}
      end
    end.



(** ** The bodies of the requests *)



(* ===================================================================== *)
(** * More sample environments                                            *)
(* ===================================================================== *)

Module MoreSamples.

(** The webhook is down: a response that is not [ok]. *)
Definition unavailable : JsError + Response :=
  inr {| ok := false; status := 503; json := inl (Error "Unexpected end of JSON input") |}.

Definition world (answers : list (JsError + Response)) : World :=
  fresh_world Samples.parser (scripted answers).

(** A job that is accepted, polled once, and then the webhook is down. *)
Definition interrupted : World :=
  world [ok_response Samples.accepted; ok_response Samples.processing; unavailable].

(** The polling loop on one answer [processing] and then [completed]. *)
Definition polling_run : Outcome (JsError + JsValue) :=
  run 20 (waitForCompletion Samples.job)
    (Samples.world [Samples.processing; Samples.completed Samples.articles]).

(** [handleExtract] stopped in the pause after its first status check. *)
Definition paused_run : Outcome unit :=
  run 11 (handleExtract Samples.url Samples.prompt)
    (Samples.world [Samples.accepted; Samples.processing;
                    Samples.completed Samples.articles]).

(** The component without polling, stopped while it waits for its
    request, and at the end of the run. *)
Definition single_waiting_run : Outcome unit :=
  run 6 (SingleRequest.handleExtract Samples.url Samples.prompt)
    (Samples.world [Samples.completed Samples.articles]).

Definition single_run : Outcome unit :=
  run 20 (SingleRequest.handleExtract Samples.url Samples.prompt)
    (Samples.world [Samples.completed Samples.articles]).




End MoreSamples.
(* ===================================================================== *)
(** * Equations of the interpreter                                        *)
(* ===================================================================== *)

Unset Implicit Arguments.

Section RunEquations.

Context {R : Type}.

Lemma run_ret (fuel : nat) (r : R) (w : World) :
  run fuel (Ret r) w = Done r w fuel.
Proof. destruct fuel; reflexivity. Qed.

Lemma run_tau (fuel : nat) (t : itree effectE R) (w : World) :
  run (S fuel) (Tau t) w = run fuel t w.
Proof. reflexivity. Qed.

Lemma run_vis {X : Type} (fuel : nat) (e : effectE X) (k : X -> itree effectE R)
    (w : World) :
  run (S fuel) (Vis e k) w = run fuel (k (fst (handle e w))) (snd (handle e w)).
Proof. simpl. destruct (handle e w); reflexivity. Qed.

(** A run never gives back more steps than it was given. *)
Lemma run_left_le (fuel : nat) :
  forall (t : itree effectE R) (w w' : World) (r : R) (spare : nat),
    run fuel t w = Done r w' spare -> spare <= fuel.
Proof.
  induction fuel as [|fuel IH]; intros t w w' r spare; simpl;
    destruct (observe t) as [r0 | t' | X e k]; try discriminate.
  - intros H; inversion H; lia.
  - intros H; inversion H; lia.
  - intros H; apply IH in H; lia.
  - destruct (handle e w) as [answer w1]. intros H; apply IH in H; lia.
Qed.

(** More steps do not change a finished run. *)
Lemma run_more (fuel extra : nat) :
  forall (t : itree effectE R) (w w' : World) (r : R) (spare : nat),
    run fuel t w = Done r w' spare ->
    run (fuel + extra) t w = Done r w' (spare + extra).
Proof.
  induction fuel as [|fuel IH]; intros t w w' r spare; simpl;
    destruct (observe t) as [r0 | t' | X e k] eqn:Hobs; try discriminate.
  - intros H; inversion H; subst. destruct extra; simpl; rewrite Hobs; reflexivity.
  - intros H; inversion H; subst. reflexivity.
  - apply IH.
  - destruct (handle e w) as [answer w1]. apply IH.
Qed.

(** A run has one result. *)
Lemma run_deterministic (n m : nat) (t : itree effectE R) (w : World)
    (r1 r2 : R) (w1 w2 : World) (l1 l2 : nat) :
  run n t w = Done r1 w1 l1 ->
  run m t w = Done r2 w2 l2 ->
  r1 = r2 /\ w1 = w2.
Proof.
  intros H1 H2.
  apply run_more with (extra := m) in H1. apply run_more with (extra := n) in H2.
  rewrite (Nat.add_comm m n) in H2. rewrite H1 in H2.
  inversion H2; auto.
Qed.

End RunEquations.

Lemma run_trigger {X : Type} (fuel : nat) (e : effectE X) (w : World) :
  run (S fuel) (ITree.trigger e) w = Done (fst (handle e w)) (snd (handle e w)) fuel.
Proof.
  unfold ITree.trigger. rewrite run_vis. apply run_ret.
Qed.

(** Sequencing: the continuation runs on the steps the first part spare. *)
Lemma run_bind {A B : Type} (fuel : nat) :
  forall (t : itree effectE A) (k : A -> itree effectE B) (w : World),
    run fuel (ITree.bind t k) w =
    match run fuel t w with
    | Done a w1 spare => run spare (k a) w1
    | Running w1 => Running w1
    end.
Proof.
  induction fuel as [|fuel IH]; intros t k w.
  - simpl. destruct (observe t) as [r | t' | X e h] eqn:Hobs; simpl; try reflexivity.
  - simpl. destruct (observe t) as [r | t' | X e h] eqn:Hobs; simpl.
    + reflexivity.
    + apply IH.
    + destruct (handle e w) as [answer w1]. apply IH.
Qed.

(** One unfolding of a loop. *)
Lemma run_iter {I R : Type} (fuel : nat) (step : I -> itree effectE (I + R))
    (i : I) (w : World) :
  run fuel (ITree.iter step i) w =
  run fuel (ITree.bind (step i)
              (fun lr => match lr with
                         | inl l => Tau (ITree.iter step l)
                         | inr r => Ret r
                         end)) w.
Proof. destruct fuel; reflexivity. Qed.

(* ===================================================================== *)
(** * Runs that end and runs that do not                                  *)
(* ===================================================================== *)

(** A run that ends does not go on for ever, and conversely. *)
Lemma diverges_iff_not_terminates {R : Type} (t : itree effectE R) (w : World) :
  diverges t w <-> ~ terminates t w.
Proof.
  split.
  - intros Hd [r [w' [n [s H]]]]. destruct (Hd n) as [w1 Hr]. congruence.
  - intros Hn fuel. destruct (run fuel t w) as [r w' s | w'] eqn:Hrun.
    + exfalso. apply Hn. exists r, w', fuel, s. exact Hrun.
    + exists w'. reflexivity.
Qed.

(* ===================================================================== *)
(** * Rules for runs that end, whatever the environment                   *)
(* ===================================================================== *)

Lemma ensures_ret {R : Type} (r : R) (w : World) (Q : R -> World -> Prop) :
  Q r w -> ensures (Ret r) w Q.
Proof.
  intros HQ fuel r' w' s H. rewrite run_ret in H. inversion H; subst. exact HQ.
Qed.

Lemma ensures_trigger {X : Type} (e : effectE X) (w : World) (Q : X -> World -> Prop) :
  Q (fst (handle e w)) (snd (handle e w)) -> ensures (ITree.trigger e) w Q.
Proof.
  intros HQ [|fuel] r' w' s H.
  - discriminate.
  - rewrite run_trigger in H. inversion H; subst. exact HQ.
Qed.

Lemma ensures_bind {A B : Type} (t : itree effectE A) (k : A -> itree effectE B)
    (w : World) (Q : B -> World -> Prop) :
  ensures t w (fun a w1 => ensures (k a) w1 Q) -> ensures (ITree.bind t k) w Q.
Proof.
  intros Ht fuel b w' s H. rewrite run_bind in H.
  destruct (run fuel t w) as [a w1 s1 | w1] eqn:Hrun; [|discriminate].
  exact (Ht _ _ _ _ Hrun _ _ _ _ H).
Qed.

Lemma ensures_weaken {R : Type} (t : itree effectE R) (w : World)
    (P Q : R -> World -> Prop) :
  ensures t w P -> (forall r w', P r w' -> Q r w') -> ensures t w Q.
Proof. intros HP HPQ fuel r w' s H. apply HPQ. exact (HP _ _ _ _ H). Qed.

(** A run that is known to end ensures what its end satisfies. *)
Lemma ensures_of_runs_to {R : Type} (t : itree effectE R) (w w' : World) (r : R)
    (Q : R -> World -> Prop) :
  runs_to t w r w' -> Q r w' -> ensures t w Q.
Proof.
  intros [n [s Hn]] HQ fuel r2 w2 s2 H.
  destruct (run_deterministic _ _ _ _ _ _ _ _ _ _ Hn H) as [-> ->]. exact HQ.
Qed.

(** The invariant rule of a loop. *)
Lemma ensures_iter {I R : Type} (step : I -> itree effectE (I + R))
    (Inv : I -> World -> Prop) (Q : R -> World -> Prop) :
  (forall i w, Inv i w ->
     ensures (step i) w
       (fun lr w' => match lr with inl i' => Inv i' w' | inr r => Q r w' end)) ->
  forall i w, Inv i w -> ensures (ITree.iter step i) w Q.
Proof.
  intros Hstep i w Hinv fuel. revert i w Hinv.
  induction fuel as [fuel IH] using lt_wf_ind.
  intros i w Hinv r w' s H.
  rewrite run_iter, run_bind in H.
  destruct (run fuel (step i) w) as [lr w1 s1 | w1] eqn:Hrun; [|discriminate].
  pose proof (Hstep i w Hinv _ _ _ _ Hrun) as Hpost.
  apply run_left_le in Hrun.
  destruct lr as [i' | r'].
  - destruct s1 as [|s1]; [discriminate|].
    rewrite run_tau in H.
    exact (IH s1 ltac:(lia) i' w1 Hpost r w' s H).
  - rewrite run_ret in H. inversion H; subst. exact Hpost.
Qed.

(* ===================================================================== *)
(** * The polling loop                                                    *)
(* ===================================================================== *)

Lemma body_of_inv (answer : JsError + Response) (v : JSON) :
  body_of answer = Some v ->
  exists response, answer = inr response /\ ok response = true /\ json response = inr v.
Proof.
  unfold body_of. destruct answer as [e | response]; [discriminate|].
  destruct (ok response) eqn:Hok; [|discriminate].
  destruct (json response) as [e | v'] eqn:Hj; [discriminate|].
  intros H; inversion H; subst. eauto.
Qed.

Lemma terminal_status_false (st : JsValue) :
  terminal_status st = false ->
  (st === "completed") = false /\ (st === "failed") = false /\ (st === "cancelled") = false.
Proof.
  unfold terminal_status. intros H.
  apply orb_false_iff in H. destruct H as [H H3].
  apply orb_false_iff in H. tauto.
Qed.

Lemma status_of_get (answer : JsError + Response) (v : JSON) (st : JsValue) :
  body_of answer = Some v -> get v "status" = inr st -> status_of answer = st.
Proof.
  unfold status_of. intros -> Hg. destruct v; simpl in Hg; inversion Hg; reflexivity.
Qed.

Ltac unfold_js := unfold try_catch, bind_js, perform, eval, throw, ret.
Ltac world_simpl :=
  cbn [fst snd handle network fetched ui trace url_parser record_action
       next_request with_ui act negb orb andb get strict_eq_string].
Ltac run_step :=
  first [ rewrite run_bind | rewrite run_trigger | rewrite run_ret ].
Ltac exec := repeat first [ progress world_simpl | run_step ].

(** One pass of the loop always ends, with the outcome [pass_result]
    announces. *)
Lemma pass_runs (extractId : JsValue) (w : World) :
  runs_to (waitForCompletion_pass extractId) w
    (pass_result (network w (fetched w))) (after_pass extractId w).
Proof.
  exists 3. unfold after_pass, after_status_check, after_pending_pass, status_of,
    pass_result, body_of, terminal_status.
  unfold waitForCompletion_pass, pollJobStatus. unfold_js.
  exec.
  destruct (network w (fetched w)) as [e | response]; [exec; eauto|].
  destruct (ok response); [|exec; eauto].
  destruct (json response) as [e | v]; [exec; eauto|].
  destruct v as [ | b | lit | s | items | props ]; exec; eauto;
    try (destruct (lookup "status" props === "completed");
         [| destruct (lookup "status" props === "failed");
            [| destruct (lookup "status" props === "cancelled")]]);
    exec; eauto.
Qed.

Lemma keeps_polling_inv (answer : JsError + Response) :
  keeps_polling answer = true ->
  exists v st, body_of answer = Some v /\ get v "status" = inr st
               /\ terminal_status st = false.
Proof.
  unfold keeps_polling. destruct (body_of answer) as [v|]; [|discriminate].
  destruct (get v "status") as [e | st] eqn:Hg; [discriminate|].
  intros H. exists v, st. split; [reflexivity|]. split; [exact Hg|].
  apply negb_true_iff. exact H.
Qed.

Lemma pass_result_pending (answer : JsError + Response) :
  keeps_polling answer = true -> pass_result answer = inr Continue.
Proof.
  intros H. destruct (keeps_polling_inv _ H) as [v [st [Hb [Hg Ht]]]].
  destruct (body_of_inv _ _ Hb) as [response [-> [Hok Hj]]].
  destruct (terminal_status_false _ Ht) as [H1 [H2 H3]].
  unfold pass_result. rewrite Hok, Hj, Hg, H1, H2, H3. reflexivity.
Qed.

(** A pass that polls again takes three steps: the request, the status
    shown, the pause. *)
Lemma run_pending_pass (extractId : JsValue) (w : World) (fuel : nat) :
  keeps_polling (network w (fetched w)) = true ->
  run (3 + fuel) (waitForCompletion_pass extractId) w =
  Done (inr Continue) (after_pending_pass extractId w) fuel.
Proof.
  intros H. destruct (keeps_polling_inv _ H) as [v [st [Hb [Hg Ht]]]].
  unfold after_pending_pass. rewrite (status_of_get _ _ _ Hb Hg).
  destruct (body_of_inv _ _ Hb) as [response [Ha [Hok Hj]]].
  destruct (terminal_status_false _ Ht) as [H1 [H2 H3]].
  unfold waitForCompletion_pass, pollJobStatus. unfold_js.
  simpl plus.
  repeat first [ progress world_simpl | run_step | rewrite Ha | rewrite Hok
               | rewrite Hj | rewrite Hg | rewrite H1 | rewrite H2 | rewrite H3 ].
  reflexivity.
Qed.

(** The loop after a pass that polls again: one more silent step, and the
    loop starts over in the world the pass left. *)
Lemma run_wait_pending (extractId : JsValue) (w : World) (fuel : nat) :
  keeps_polling (network w (fetched w)) = true ->
  run (4 + fuel) (waitForCompletion extractId) w =
  run fuel (waitForCompletion extractId) (after_pending_pass extractId w).
Proof.
  intros H. unfold waitForCompletion, while_true.
  rewrite run_iter, !run_bind.
  change (4 + fuel) with (3 + S fuel).
  rewrite (run_pending_pass extractId w (S fuel) H).
  rewrite run_ret, run_tau. reflexivity.
Qed.

(** The loop when the pass ends it. *)
Lemma runs_to_wait_thrown (extractId : JsValue) (w : World) (e : JsError) :
  pass_result (network w (fetched w)) = inl e ->
  runs_to (waitForCompletion extractId) w (inl e) (after_pass extractId w).
Proof.
  intros H. destruct (pass_runs extractId w) as [n [s Hrun]]. rewrite H in Hrun.
  exists n. unfold waitForCompletion, while_true.
  rewrite run_iter, !run_bind, Hrun, !run_ret. eauto.
Qed.

Lemma runs_to_wait_returned (extractId : JsValue) (w : World) (data : JsValue) :
  pass_result (network w (fetched w)) = inr (Return data) ->
  runs_to (waitForCompletion extractId) w (inr data) (after_pass extractId w).
Proof.
  intros H. destruct (pass_runs extractId w) as [n [s Hrun]]. rewrite H in Hrun.
  exists n. unfold waitForCompletion, while_true.
  rewrite run_iter, !run_bind, Hrun, !run_ret. eauto.
Qed.

(** With no step allowed the loop has not ended. *)
Lemma run_wait_no_fuel (extractId : JsValue) (w : World) :
  run 0 (waitForCompletion extractId) w = Running w.
Proof. reflexivity. Qed.

Lemma after_pending_pass_network (extractId : JsValue) (w : World) :
  network (after_pending_pass extractId w) = network w.
Proof. reflexivity. Qed.

Lemma after_pending_pass_fetched (extractId : JsValue) (w : World) :
  fetched (after_pending_pass extractId w) = S (fetched w).
Proof. reflexivity. Qed.

Lemma after_pending_pass_trace (extractId : JsValue) (w : World) :
  trace (after_pending_pass extractId w) =
  (trace w ++ polling_trace extractId [status_of (network w (fetched w))])%list.
Proof.
  unfold after_pending_pass, polling_trace. world_simpl.
  rewrite <- !app_assoc. reflexivity.
Qed.

Lemma after_pending_passes_network (extractId : JsValue) (n : nat) :
  forall w, network (after_pending_passes extractId n w) = network w.
Proof.
  induction n as [|n IH]; intros w; simpl; [reflexivity|].
  rewrite IH. apply after_pending_pass_network.
Qed.

Lemma after_pending_passes_fetched (extractId : JsValue) (n : nat) :
  forall w, fetched (after_pending_passes extractId n w) = fetched w + n.
Proof.
  induction n as [|n IH]; intros w; simpl; [lia|].
  rewrite IH, after_pending_pass_fetched. lia.
Qed.

Lemma next_statuses_succ (extractId : JsValue) (n : nat) (w : World) :
  next_statuses (S n) w =
  status_of (network w (fetched w)) :: next_statuses n (after_pending_pass extractId w).
Proof.
  unfold next_statuses. cbn [seq map]. rewrite Nat.add_0_r. f_equal.
  rewrite <- seq_shift, map_map. apply map_ext. intros i.
  rewrite after_pending_pass_network, after_pending_pass_fetched.
  do 2 f_equal. lia.
Qed.

Lemma polling_trace_cons (extractId st : JsValue) (sts : list JsValue) :
  polling_trace extractId (st :: sts) =
  (polling_trace extractId [st] ++ polling_trace extractId sts)%list.
Proof. reflexivity. Qed.

Lemma after_pending_passes_trace (extractId : JsValue) (n : nat) :
  forall w, trace (after_pending_passes extractId n w) =
            (trace w ++ polling_trace extractId (next_statuses n w))%list.
Proof.
  induction n as [|n IH]; intros w.
  - simpl. rewrite app_nil_r. reflexivity.
  - simpl after_pending_passes. rewrite IH, after_pending_pass_trace.
    rewrite (next_statuses_succ extractId).
    rewrite (polling_trace_cons extractId _ (next_statuses n _)).
    apply eq_sym, app_assoc.
Qed.

(** The loop after [n] passes that all poll again. *)
Lemma run_wait_pending_passes (extractId : JsValue) (n : nat) :
  forall (w : World) (fuel : nat),
    (forall i, i < n -> keeps_polling (network w (fetched w + i)) = true) ->
    run (4 * n + fuel) (waitForCompletion extractId) w =
    run fuel (waitForCompletion extractId) (after_pending_passes extractId n w).
Proof.
  induction n as [|n IH]; intros w fuel H; [reflexivity|].
  replace (4 * S n + fuel) with (4 + (4 * n + fuel)) by lia.
  rewrite run_wait_pending.
  - simpl after_pending_passes. apply IH. intros i Hi.
    rewrite after_pending_pass_network, after_pending_pass_fetched.
    replace (S (fetched w) + i) with (fetched w + S i) by lia.
    apply H. lia.
  - rewrite <- (Nat.add_0_r (fetched w)). apply H. lia.
Qed.

Lemma runs_to_wait_after_pending (extractId : JsValue) (n : nat) (w w' : World)
    (r : JsError + JsValue) :
  (forall i, i < n -> keeps_polling (network w (fetched w + i)) = true) ->
  runs_to (waitForCompletion extractId) (after_pending_passes extractId n w) r w' ->
  runs_to (waitForCompletion extractId) w r w'.
Proof.
  intros H [fuel [s Hrun]]. exists (4 * n + fuel), s.
  rewrite run_wait_pending_passes; assumption.
Qed.

Lemma after_pass_terminal (extractId : JsValue) (w : World) (v : JSON) (st : JsValue) :
  body_of (network w (fetched w)) = Some v ->
  get v "status" = inr st ->
  terminal_status st = true ->
  after_pass extractId w = after_status_check extractId st w.
Proof.
  intros Hb Hg Ht. unfold after_pass.
  rewrite (status_of_get _ _ _ Hb Hg), Hb, Ht.
  destruct v; try reflexivity. discriminate.
Qed.

Lemma after_status_check_trace (extractId st : JsValue) (w : World) :
  trace (after_status_check extractId st w) =
  (trace w ++ [act (Fetch webhookUrl (status_check_request extractId));
               act (SetJobStatus st)])%list.
Proof.
  unfold after_status_check. world_simpl. rewrite <- app_assoc. reflexivity.
Qed.

Lemma after_status_check_fetched (extractId st : JsValue) (w : World) :
  fetched (after_status_check extractId st w) = S (fetched w).
Proof. reflexivity. Qed.

(** ** The requests, pauses and toasts of a trace *)

Lemma requests_app (tr1 tr2 : list Action) :
  requests (tr1 ++ tr2) = (requests tr1 ++ requests tr2)%list.
Proof.
  induction tr1 as [|[T e] tr1 IH]; [reflexivity|].
  destruct e; simpl; rewrite IH; reflexivity.
Qed.

Lemma pauses_app (tr1 tr2 : list Action) :
  pauses (tr1 ++ tr2) = (pauses tr1 ++ pauses tr2)%list.
Proof.
  induction tr1 as [|[T e] tr1 IH]; [reflexivity|].
  destruct e; simpl; rewrite IH; reflexivity.
Qed.

Lemma toasts_app (tr1 tr2 : list Action) :
  toasts (tr1 ++ tr2) = (toasts tr1 ++ toasts tr2)%list.
Proof.
  induction tr1 as [|[T e] tr1 IH]; [reflexivity|].
  destruct e; simpl; rewrite IH; reflexivity.
Qed.

Lemma assignments_app (tr1 tr2 : list Action) :
  assignments (tr1 ++ tr2) = (assignments tr1 ++ assignments tr2)%list.
Proof.
  induction tr1 as [|[T e] tr1 IH]; [reflexivity|].
  destruct e; simpl; rewrite IH; reflexivity.
Qed.

Lemma requests_polling_trace (extractId : JsValue) (statuses : list JsValue) :
  requests (polling_trace extractId statuses) =
  repeat (status_check extractId) (length statuses).
Proof.
  induction statuses as [|st sts IH]; [reflexivity|].
  simpl. f_equal. exact IH.
Qed.

Lemma pauses_polling_trace (extractId : JsValue) (statuses : list JsValue) :
  pauses (polling_trace extractId statuses) = repeat 2000%Z (length statuses).
Proof.
  induction statuses as [|st sts IH]; [reflexivity|].
  simpl. f_equal. exact IH.
Qed.

Lemma next_statuses_length (n : nat) (w : World) : length (next_statuses n w) = n.
Proof. unfold next_statuses. rewrite length_map. apply length_seq. Qed.

Lemma keeps_polling_of_status (answer : JsError + Response) (v : JSON) (st : JsValue) :
  body_of answer = Some v -> get v "status" = inr st ->
  terminal_status st = false -> keeps_polling answer = true.
Proof.
  intros Hb Hg Ht. unfold keeps_polling. rewrite Hb, Hg, Ht. reflexivity.
Qed.

(* ===================================================================== *)
(** * Properties of the polling loop                                      *)
(* ===================================================================== *)

(** The run on [processing], [processing], [completed]: the result, the
    requests and the actions. *)
Lemma wait_processing_processing_completed
    (extractId : JsValue) (w : World) (v1 v2 v3 : JSON) (X : JsValue) :
  body_of (network w (fetched w)) = Some v1 ->
  get v1 "status" = inr (Some (JString "processing")) ->
  body_of (network w (fetched w + 1)) = Some v2 ->
  get v2 "status" = inr (Some (JString "processing")) ->
  body_of (network w (fetched w + 2)) = Some v3 ->
  get v3 "status" = inr (Some (JString "completed")) ->
  get v3 "data" = inr X ->
  exists w',
    runs_to (waitForCompletion extractId) w (inr X) w'
    /\ requests (trace w') =
       (requests (trace w)
          ++ [status_check extractId; status_check extractId; status_check extractId])%list
    /\ fetched w' = fetched w + 3
    /\ trace w' =
       (trace w
          ++ [act (Fetch webhookUrl (status_check_request extractId));
              act (SetJobStatus (Some (JString "processing")));
              act (SetTimeout 2000);
              act (Fetch webhookUrl (status_check_request extractId));
              act (SetJobStatus (Some (JString "processing")));
              act (SetTimeout 2000);
              act (Fetch webhookUrl (status_check_request extractId));
              act (SetJobStatus (Some (JString "completed")))])%list.
Proof.
  intros Hb1 Hs1 Hb2 Hs2 Hb3 Hs3 Hd.
  assert (Hpending : forall i, i < 2 ->
            keeps_polling (network w (fetched w + i)) = true).
  { intros i Hi. destruct i as [|[|i]]; [| |lia].
    - rewrite Nat.add_0_r. eapply keeps_polling_of_status; eauto.
    - eapply keeps_polling_of_status; eauto. }
  set (w2 := after_pending_passes extractId 2 w).
  assert (Hnet : network w2 (fetched w2) = network w (fetched w + 2)).
  { unfold w2. rewrite after_pending_passes_network, after_pending_passes_fetched.
    reflexivity. }
  assert (Hb3' : body_of (network w2 (fetched w2)) = Some v3) by (rewrite Hnet; exact Hb3).
  assert (Hres : pass_result (network w2 (fetched w2)) = inr (Return X)).
  { destruct (body_of_inv _ _ Hb3') as [response [Ha [Hok Hj]]].
    unfold pass_result. rewrite Ha, Hok, Hj, Hs3, Hd. reflexivity. }
  exists (after_pass extractId w2).
  split; [eapply runs_to_wait_after_pending; [exact Hpending|];
          apply runs_to_wait_returned; exact Hres|].
  rewrite (after_pass_terminal extractId w2 v3 _ Hb3' Hs3 eq_refl).
  rewrite after_status_check_trace, after_status_check_fetched.
  unfold w2. rewrite after_pending_passes_trace, after_pending_passes_fetched.
  unfold next_statuses. cbn [seq map]. rewrite Nat.add_0_r.
  rewrite (status_of_get _ _ _ Hb1 Hs1), (status_of_get _ _ _ Hb2 Hs2).
  cbn [polling_trace flat_map app].
  split; [|split; [lia|]].
  - rewrite <- app_assoc, requests_app. reflexivity.
  - rewrite <- app_assoc. reflexivity.
Qed.


(** ** Termination of the loop *)

Lemma typed_ends_or_keeps (answer : JsError + Response) :
  typed_answer answer = true ->
  ends_polling answer = negb (keeps_polling answer).
Proof.
  unfold typed_answer, ends_polling, keeps_polling, transport_failure, status_of, body_of.
  destruct answer as [e | response]; [reflexivity|].
  destruct (ok response); [|reflexivity].
  destruct (json response) as [e | v]; [discriminate|].
  destruct v; try discriminate. intros _. cbn [get negb orb].
  rewrite negb_involutive. reflexivity.
Qed.

(** A pass that does not poll again throws or returns. *)
Lemma pass_result_stops (answer : JsError + Response) :
  keeps_polling answer = false ->
  (exists e, pass_result answer = inl e)
  \/ (exists data, pass_result answer = inr (Return data)).
Proof.
  unfold keeps_polling, pass_result, body_of, terminal_status.
  destruct answer as [e | response]; [eauto|].
  destruct (ok response); cbn [negb]; [|eauto].
  destruct (json response) as [e | v]; [eauto|].
  destruct (get v "status") as [e | st] eqn:Hs; [eauto|].
  destruct (st === "completed").
  - destruct v; cbn [get] in *; try discriminate; eauto.
  - destruct (st === "failed"); [eauto|].
    destruct (st === "cancelled"); [eauto|]. discriminate.
Qed.

Lemma after_pass_pending (extractId : JsValue) (w : World) :
  keeps_polling (network w (fetched w)) = true ->
  after_pass extractId w = after_pending_pass extractId w.
Proof.
  intros H. destruct (keeps_polling_inv _ H) as [v [st [Hb [Hg Ht]]]].
  unfold after_pass. rewrite (status_of_get _ _ _ Hb Hg), Hb, Ht.
  destruct v; try reflexivity. discriminate.
Qed.

Lemma pass_result_continue (answer : JsError + Response) :
  pass_result answer = inr Continue -> keeps_polling answer = true.
Proof.
  intros H. destruct (keeps_polling answer) eqn:Hk; [reflexivity|].
  destruct (pass_result_stops _ Hk) as [[e He] | [d Hd]]; congruence.
Qed.

(** The invariant rule of [waitForCompletion]: an invariant of the passes
    that poll again, and what the pass that ends the loop must
    establish. *)
Lemma ensures_wait (extractId : JsValue) (Inv : World -> Prop)
    (Q : JsError + JsValue -> World -> Prop) :
  (forall w, Inv w ->
     match pass_result (network w (fetched w)) with
     | inr Continue => Inv (after_pending_pass extractId w)
     | inl e => Q (inl e) (after_pass extractId w)
     | inr (Return data) => Q (inr data) (after_pass extractId w)
     end) ->
  forall w, Inv w -> ensures (waitForCompletion extractId) w Q.
Proof.
  intros Hpass w Hinv. unfold waitForCompletion, while_true.
  apply (ensures_iter _ (fun _ => Inv)); [|exact Hinv].
  clear w Hinv. intros _ w Hinv. specialize (Hpass w Hinv).
  apply ensures_bind.
  eapply ensures_of_runs_to; [apply pass_runs|].
  destruct (pass_result (network w (fetched w))) as [e | [ | data]] eqn:Hres;
    apply ensures_ret; try exact Hpass.
  rewrite (after_pass_pending extractId w (pass_result_continue _ Hres)).
  exact Hpass.
Qed.

Lemma wait_terminates_when_stopped (extractId : JsValue) (n : nat) :
  forall w,
    keeps_polling (network w (fetched w + n)) = false ->
    terminates (waitForCompletion extractId) w.
Proof.
  induction n as [|n IH]; intros w Hstop;
    destruct (keeps_polling (network w (fetched w))) eqn:Hk.
  - rewrite Nat.add_0_r, Hk in Hstop. discriminate.
  - destruct (pass_result_stops _ Hk) as [[e He] | [d Hd]].
    + exists (inl e), (after_pass extractId w). now apply runs_to_wait_thrown.
    + exists (inr d), (after_pass extractId w). now apply runs_to_wait_returned.
  - destruct (IH (after_pending_pass extractId w)) as [r [w' [fuel [s Hrun]]]].
    + rewrite after_pending_pass_network, after_pending_pass_fetched.
      replace (S (fetched w) + n) with (fetched w + S n) by lia. exact Hstop.
    + exists r, w', (4 + fuel), s. rewrite run_wait_pending; assumption.
  - destruct (pass_result_stops _ Hk) as [[e He] | [d Hd]].
    + exists (inl e), (after_pass extractId w). now apply runs_to_wait_thrown.
    + exists (inr d), (after_pass extractId w). now apply runs_to_wait_returned.
Qed.

Lemma wait_stopped_when_terminates (extractId : JsValue) (w : World) :
  terminates (waitForCompletion extractId) w ->
  exists n, keeps_polling (network w (fetched w + n)) = false.
Proof.
  intros [r [w' [fuel [s Hrun]]]].
  refine (ensures_wait extractId
            (fun w1 => network w1 = network w /\ exists k, fetched w1 = fetched w + k)
            (fun _ _ => exists n, keeps_polling (network w (fetched w + n)) = false)
            _ w _ fuel r w' s Hrun).
  - intros w1 [Hnet [k Hk]].
    destruct (pass_result (network w1 (fetched w1))) as [e | [ | data]] eqn:Hres.
    + exists k. rewrite <- Hk, <- Hnet.
      destruct (keeps_polling (network w1 (fetched w1))) eqn:Hkeep; [|reflexivity].
      rewrite (pass_result_pending _ Hkeep) in Hres. discriminate.
    + rewrite after_pending_pass_network, after_pending_pass_fetched.
      split; [exact Hnet|]. exists (S k). lia.
    + exists k. rewrite <- Hk, <- Hnet.
      destruct (keeps_polling (network w1 (fetched w1))) eqn:Hkeep; [|reflexivity].
      rewrite (pass_result_pending _ Hkeep) in Hres. discriminate.
  - split; [reflexivity|]. exists 0. lia.
Qed.

(** The loop polls again on every answer but those that end it: a
    transport failure, a terminal status, or a body it cannot read. *)
Lemma keeps_polling_false_iff (answer : JsError + Response) :
  keeps_polling answer = false
  <-> ends_polling answer = true \/ unreadable_body answer = true.
Proof.
  unfold keeps_polling, ends_polling, unreadable_body, transport_failure, status_of,
    body_of.
  destruct answer as [e | response]; [cbn; tauto|].
  destruct (ok response); cbn [negb andb orb]; [|tauto].
  destruct (json response) as [e | v]; [cbn; tauto|].
  destruct v as [ | b | lit | s | items | props ]; cbn [get];
    try destruct (terminal_status (lookup "status" props));
    cbn; intuition (auto; discriminate).
Qed.

(** C6, as the code has it.  [waitForCompletion] ends if and only if some
    answer to its status checks is a transport failure, carries a terminal
    status ([completed], [failed], [cancelled]), or is delivered with a
    body the loop cannot read (not JSON, or [null]); that is, if and only
    if some answer is not a delivered body with a non-terminal status.
    With answers of the declared type, the third case does not arise and
    the loop ends if and only if some answer carries a terminal status or
    is a transport failure.  When every answer carries [processing] or any
    other non-terminal value, the loop never ends and there is no bound on
    its polls: for every [n] it reaches the point where [n] status checks
    have been issued, each followed by a pause of 2000 ms and by nothing
    else than the status shown. *)
Theorem waitForCompletion_polls_until_terminal (extractId : JsValue) (w : World) :
  (terminates (waitForCompletion extractId) w
   <-> exists n, ends_polling (network w (fetched w + n)) = true
                 \/ unreadable_body (network w (fetched w + n)) = true)
  /\
  (terminates (waitForCompletion extractId) w
   <-> exists n, keeps_polling (network w (fetched w + n)) = false)
  /\
  ((forall i, typed_answer (network w (fetched w + i)) = true) ->
   (terminates (waitForCompletion extractId) w
    <-> exists n, ends_polling (network w (fetched w + n)) = true))
  /\
  ((forall n, keeps_polling (network w (fetched w + n)) = true) ->
   diverges (waitForCompletion extractId) w
   /\ forall n, exists fuel w',
        run fuel (waitForCompletion extractId) w = Running w'
        /\ trace w' = (trace w ++ polling_trace extractId (next_statuses n w))%list
        /\ requests (trace w') =
           (requests (trace w) ++ repeat (status_check extractId) n)%list
        /\ pauses (trace w') = (pauses (trace w) ++ repeat 2000%Z n)%list).
Proof.
  assert (Hiff : terminates (waitForCompletion extractId) w
                 <-> exists n, keeps_polling (network w (fetched w + n)) = false).
  { split.
    - apply wait_stopped_when_terminates.
    - intros [n Hn]. eapply wait_terminates_when_stopped; eauto. }
  split.
  { rewrite Hiff. split; intros [n Hn]; exists n; apply keeps_polling_false_iff; exact Hn. }
  split; [exact Hiff|]. split.
  - intros Htyped. rewrite Hiff.
    split; intros [n Hn]; exists n; rewrite (typed_ends_or_keeps _ (Htyped n)) in *.
    + rewrite Hn. reflexivity.
    + apply negb_true_iff. exact Hn.
  - intros Hnever. split.
    + apply diverges_iff_not_terminates. intros Hterm.
      apply Hiff in Hterm. destruct Hterm as [n Hn].
      rewrite Hnever in Hn. discriminate.
    + intros n. exists (4 * n + 0), (after_pending_passes extractId n w).
      rewrite run_wait_pending_passes by (intros i _; apply Hnever).
      rewrite run_wait_no_fuel, after_pending_passes_trace.
      rewrite requests_app, pauses_app, requests_polling_trace,
        pauses_polling_trace, next_statuses_length.
      repeat split.
Qed.

(* ===================================================================== *)
(** * Properties of the submission                                        *)
(* ===================================================================== *)

Lemma truthy_string (s : string) :
  truthy (Some (JString s)) = true <-> s <> EmptyString.
Proof.
  cbn [truthy]. rewrite negb_true_iff. split.
  - intros H ->. discriminate.
  - intros H. apply String.eqb_neq. exact H.
Qed.

Lemma guards_pass (url prompt : string) :
  url <> EmptyString -> prompt <> EmptyString ->
  negb (truthy (Some (JString url))) || negb (truthy (Some (JString prompt))) = false.
Proof.
  intros Hu Hp. apply truthy_string in Hu. apply truthy_string in Hp.
  rewrite Hu, Hp. reflexivity.
Qed.

Lemma guards_fail (url prompt : string) :
  url = EmptyString \/ prompt = EmptyString ->
  negb (truthy (Some (JString url))) || negb (truthy (Some (JString prompt))) = true.
Proof.
  intros [-> | ->]; [reflexivity|]. apply orb_true_r.
Qed.

Lemma run_handleExtract_missing (url prompt : string) (w : World) (fuel : nat) :
  url = EmptyString \/ prompt = EmptyString ->
  run (2 + fuel) (handleExtract url prompt) w =
  Done tt (snd (handle (ShowToast toast_missing_information)
             (snd (handle PreventDefault w)))) fuel
  /\ run (2 + fuel) (SingleRequest.handleExtract url prompt) w =
     Done tt (snd (handle (ShowToast toast_missing_information)
                (snd (handle PreventDefault w)))) fuel.
Proof.
  intros H. unfold handleExtract, SingleRequest.handleExtract.
  simpl plus. rewrite !run_bind, !run_trigger, (guards_fail _ _ H), !run_trigger.
  split; reflexivity.
Qed.

Lemma run_handleExtract_invalid_url (url prompt : string) (w : World) (e : JsError)
    (fuel : nat) :
  url <> EmptyString -> prompt <> EmptyString -> url_parser w url = inl e ->
  run (3 + fuel) (handleExtract url prompt) w =
  Done tt (snd (handle (ShowToast toast_invalid_url)
             (snd (handle (NewURL url) (snd (handle PreventDefault w)))))) fuel
  /\ run (3 + fuel) (SingleRequest.handleExtract url prompt) w =
     Done tt (snd (handle (ShowToast toast_invalid_url)
                (snd (handle (NewURL url) (snd (handle PreventDefault w)))))) fuel.
Proof.
  intros Hu Hp He. unfold handleExtract, SingleRequest.handleExtract.
  simpl plus. rewrite !run_bind, !run_trigger, (guards_pass _ _ Hu Hp).
  rewrite !run_bind, !run_trigger. world_simpl. rewrite He, !run_trigger.
  split; reflexivity.
Qed.

Lemma run_trigger_no_fuel {X : Type} (e : effectE X) (w : World) :
  run 0 (ITree.trigger e) w = Running w.
Proof. reflexivity. Qed.

(** An event other than a request leaves the requests as they are. *)
Lemma handle_no_request {T : Type} (e : effectE T) (w : World) :
  is_fetch e = false ->
  requests (trace (snd (handle e w))) = requests (trace w)
  /\ fetched (snd (handle e w)) = fetched w.
Proof.
  intros H. destruct e; try discriminate; world_simpl;
    rewrite requests_app; cbn [requests act]; rewrite app_nil_r; auto.
Qed.

Lemma handle_toast (t : Toast) (w : World) :
  toasts (trace (snd (handle (ShowToast t) w))) = (toasts (trace w) ++ [t])%list
  /\ ui (snd (handle (ShowToast t) w)) = ui w.
Proof. world_simpl. rewrite toasts_app. auto. Qed.

Lemma handle_no_toast {T : Type} (e : effectE T) (w : World) :
  toasts [act e] = [] ->
  toasts (trace (snd (handle e w))) = toasts (trace w).
Proof.
  intros H. destruct e; world_simpl; rewrite toasts_app, H; apply app_nil_r.
Qed.

Lemma requests_handle {T : Type} (e : effectE T) (w : World) :
  is_fetch e = false -> requests (trace (snd (handle e w))) = requests (trace w).
Proof. intros H. apply (handle_no_request e w H). Qed.

Lemma fetched_handle {T : Type} (e : effectE T) (w : World) :
  is_fetch e = false -> fetched (snd (handle e w)) = fetched w.
Proof. intros H. apply (handle_no_request e w H). Qed.

Ltac quiet :=
  rewrite ?requests_handle by reflexivity;
  rewrite ?fetched_handle by reflexivity.

(** C2.  When the URL is empty, the prompt is empty, or the URL does not
    parse, [handleExtract] (with polling or without) ends with the toast of
    an invalid input, leaves the React state as it was, and issues no
    request: the guards come before the first request, so at no point of
    the run has one been sent. *)
Theorem handleExtract_rejects_invalid_input (url prompt : string) (w : World) :
  invalid_input url prompt w ->
  rejects_without_request (handleExtract url prompt) w
  /\ rejects_without_request (SingleRequest.handleExtract url prompt) w.
Proof.
  intros Hinvalid.
  assert (Hcases : (url = EmptyString \/ prompt = EmptyString)
                   \/ (url <> EmptyString /\ prompt <> EmptyString
                       /\ exists e, url_parser w url = inl e)).
  { destruct (string_dec url EmptyString) as [Hu | Hu]; [tauto|].
    destruct (string_dec prompt EmptyString) as [Hp | Hp]; [tauto|].
    destruct Hinvalid as [H | [H | H]]; tauto. }
  destruct Hcases as [Hmissing | [Hu [Hp [e He]]]].
  - pose proof (fun fuel => run_handleExtract_missing url prompt w fuel Hmissing) as Hrun.
    split; (split;
      [ exists (snd (handle (ShowToast toast_missing_information)
                    (snd (handle PreventDefault w)))), toast_missing_information;
        split; [exists 2, 0; apply (Hrun 0)|];
        split; [left; reflexivity|];
        rewrite (proj1 (handle_toast _ _)), (proj2 (handle_toast _ _));
        rewrite (handle_no_toast PreventDefault w eq_refl);
        quiet; repeat split
      | intros [|[|fuel]];
        [ unfold handleExtract, SingleRequest.handleExtract;
          rewrite run_bind, run_trigger_no_fuel; split; reflexivity
        | unfold handleExtract, SingleRequest.handleExtract;
          rewrite run_bind, run_trigger, (guards_fail _ _ Hmissing),
            run_trigger_no_fuel;
          cbn [world_of]; quiet; split; reflexivity
        | change (S (S fuel)) with (2 + fuel);
          first [rewrite (proj1 (Hrun fuel)) | rewrite (proj2 (Hrun fuel))];
          cbn [world_of]; quiet; split; reflexivity ] ]).
  - pose proof (fun fuel => run_handleExtract_invalid_url url prompt w e fuel Hu Hp He)
      as Hrun.
    split; (split;
      [ exists (snd (handle (ShowToast toast_invalid_url)
                    (snd (handle (NewURL url) (snd (handle PreventDefault w)))))),
          toast_invalid_url;
        split; [exists 3, 0; apply (Hrun 0)|];
        split; [right; reflexivity|];
        rewrite (proj1 (handle_toast _ _)), (proj2 (handle_toast _ _));
        rewrite (handle_no_toast (NewURL url) _ eq_refl);
        rewrite (handle_no_toast PreventDefault w eq_refl);
        quiet; repeat split
      | intros [|[|[|fuel]]];
        [ unfold handleExtract, SingleRequest.handleExtract;
          rewrite run_bind, run_trigger_no_fuel; split; reflexivity
        | unfold handleExtract, SingleRequest.handleExtract;
          rewrite run_bind, run_trigger, (guards_pass _ _ Hu Hp), run_bind,
            run_trigger_no_fuel;
          cbn [world_of]; quiet; split; reflexivity
        | unfold handleExtract, SingleRequest.handleExtract;
          rewrite run_bind, run_trigger, (guards_pass _ _ Hu Hp), run_bind,
            run_trigger;
          replace (fst (handle (NewURL url) (snd (handle PreventDefault w))))
            with (@inl JsError unit e) by (symmetry; exact He);
          rewrite run_trigger_no_fuel;
          cbn [world_of]; quiet; split; reflexivity
        | change (S (S (S fuel))) with (3 + fuel);
          first [rewrite (proj1 (Hrun fuel)) | rewrite (proj2 (Hrun fuel))];
          cbn [world_of]; quiet; split; reflexivity ] ]).
Qed.

(** ** The frame of [handleExtract] around its [try] block *)

Ltac ui_simpl :=
  cbn [fst snd handle network fetched ui trace url_parser record_action
       next_request with_ui act isLoading extractedData error jobStatus].

Lemma run_handleExtract_validated (url prompt : string) (w : World) (fuel : nat) :
  validated url prompt w ->
  run (7 + fuel) (handleExtract url prompt) w =
  match run fuel (handleExtract_try url prompt) (started url w) with
  | Done outcome w1 spare =>
    run spare
      (ITree.bind
         match outcome with
         | inl error => handleExtract_catch error
         | inr _ => Ret tt
         end
         (fun _ => handleExtract_finally)) w1
  | Running w1 => Running w1
  end.
Proof.
  intros [Hu [Hp Hparsed]]. unfold handleExtract, started.
  simpl plus. rewrite run_bind, run_trigger, (guards_pass _ _ Hu Hp).
  rewrite run_bind, run_trigger.
  replace (fst (handle (NewURL url) (snd (handle PreventDefault w))))
    with (@inr JsError unit tt) by (symmetry; exact Hparsed).
  do 5 (rewrite run_bind, run_trigger).
  rewrite run_bind. reflexivity.
Qed.

Lemma runs_to_epilogue (outcome : JsError + unit) (w : World) :
  runs_to
    (ITree.bind
       match outcome with
       | inl error => handleExtract_catch error
       | inr _ => Ret tt
       end
       (fun _ => handleExtract_finally)) w tt (finished outcome w).
Proof.
  exists 4. unfold handleExtract_catch, handleExtract_finally, finished,
    after_finally, after_catch.
  destruct outcome as [e | []]; repeat run_step; eauto.
Qed.

(** When the input passes the guards, [handleExtract] ends as soon as its
    [try] block does, in the world [finished] describes. *)
Lemma runs_to_handleExtract (url prompt : string) (w w1 : World)
    (outcome : JsError + unit) :
  validated url prompt w ->
  runs_to (handleExtract_try url prompt) (started url w) outcome w1 ->
  runs_to (handleExtract url prompt) w tt (finished outcome w1).
Proof.
  intros Hv [n [s Hn]]. destruct (runs_to_epilogue outcome w1) as [m [s' Hm]].
  exists (7 + (n + m)), (s' + s).
  rewrite (run_handleExtract_validated _ _ _ _ Hv).
  rewrite (run_more n m _ _ _ _ _ Hn).
  rewrite Nat.add_comm. apply run_more. exact Hm.
Qed.

Lemma started_ui (url : string) (w : World) :
  ui (started url w) =
  {| isLoading := true; extractedData := null; error := EmptyString;
     jobStatus := Some (JString EmptyString) |}.
Proof. reflexivity. Qed.

Lemma started_trace (url : string) (w : World) :
  trace (started url w) =
  (trace w
     ++ [act PreventDefault; act (NewURL url); act (SetIsLoading true);
         act (SetError EmptyString); act (SetExtractedData null);
         act (SetJobStatus (Some (JString EmptyString))); act ScrollIntoView])%list.
Proof. unfold started. ui_simpl. rewrite <- !app_assoc. reflexivity. Qed.

(** ** The [try] block on the first answer *)

Lemma try_completed (url prompt : string) (w : World) (v : JSON)
    (success status data : JsValue) :
  body_of (network w (fetched w)) = Some v ->
  get v "success" = inr success -> truthy success = true ->
  get v "status" = inr status -> (status === "completed") = true ->
  get v "data" = inr data ->
  runs_to (handleExtract_try url prompt) w (inr tt)
    (after_success data (after_submission url prompt w)).
Proof.
  intros Hb Hsuccess Htruthy Hstatus Hcompleted Hdata.
  destruct (body_of_inv _ _ Hb) as [response [Ha [Hok Hj]]].
  exists 3. unfold handleExtract_try, after_success, after_submission. unfold_js.
  repeat first [ progress world_simpl | run_step | rewrite Ha | rewrite Hok
               | rewrite Hj | rewrite Hsuccess | rewrite Htruthy | rewrite Hstatus
               | rewrite Hcompleted | rewrite Hdata ].
  eauto.
Qed.

Lemma try_rejected (url prompt : string) (w : World) (v : JSON) (success : JsValue) :
  body_of (network w (fetched w)) = Some v ->
  get v "success" = inr success -> truthy success = false ->
  runs_to (handleExtract_try url prompt) w (inl SubmissionError)
    (after_submission url prompt w).
Proof.
  intros Hb Hsuccess Hfalsy.
  destruct (body_of_inv _ _ Hb) as [response [Ha [Hok Hj]]].
  exists 1. unfold handleExtract_try, after_submission. unfold_js.
  repeat first [ progress world_simpl | run_step | rewrite Ha | rewrite Hok
               | rewrite Hj | rewrite Hsuccess | rewrite Hfalsy ].
  eauto.
Qed.

Lemma try_fallback (url prompt : string) (w : World) (v : JSON)
    (success status extract_id data : JsValue) :
  body_of (network w (fetched w)) = Some v ->
  get v "success" = inr success -> truthy success = true ->
  get v "status" = inr status -> (status === "completed") = false ->
  get v "extract_id" = inr extract_id -> truthy extract_id = false ->
  get v "data" = inr data ->
  runs_to (handleExtract_try url prompt) w (inr tt)
    (after_success (js_or data (Some v)) (after_submission url prompt w)).
Proof.
  intros Hb Hsuccess Htruthy Hstatus Hcompleted Hid Hfalsy Hdata.
  destruct (body_of_inv _ _ Hb) as [response [Ha [Hok Hj]]].
  exists 3. unfold handleExtract_try, after_success, after_submission. unfold_js.
  repeat first [ progress world_simpl | run_step | rewrite Ha | rewrite Hok
               | rewrite Hj | rewrite Hsuccess | rewrite Htruthy | rewrite Hstatus
               | rewrite Hcompleted | rewrite Hid | rewrite Hfalsy | rewrite Hdata ].
  eauto.
Qed.

Lemma requests_fetch (url : string) (init : RequestInit) (w : World) :
  requests (trace (snd (handle (Fetch url init) w))) =
  (requests (trace w) ++ [(url, init)])%list.
Proof. world_simpl. rewrite requests_app. reflexivity. Qed.

Lemma toasts_handle {T : Type} (e : effectE T) (w : World) :
  toasts [act e] = [] -> toasts (trace (snd (handle e w))) = toasts (trace w).
Proof. apply handle_no_toast. Qed.

Lemma toasts_show (t : Toast) (w : World) :
  toasts (trace (snd (handle (ShowToast t) w))) = (toasts (trace w) ++ [t])%list.
Proof. apply handle_toast. Qed.

(** What can be seen when a submission that needed one request has ended
    with [v] stored. *)
Lemma finished_after_success (url prompt : string) (w : World) (v : JsValue) :
  let w' := finished (inr tt) (after_success v (after_submission url prompt (started url w))) in
  ui w' = {| isLoading := false; extractedData := v; error := EmptyString;
             jobStatus := Some (JString EmptyString) |}
  /\ requests (trace w') = (requests (trace w) ++ [submission url prompt])%list
  /\ fetched w' = S (fetched w)
  /\ toasts (trace w') = (toasts (trace w) ++ [toast_extraction_complete])%list.
Proof.
  unfold finished, after_finally, after_success, after_submission, started.
  cbv zeta. split; [reflexivity|]. split; [|split; [reflexivity|]].
  - rewrite !requests_handle by reflexivity. rewrite requests_fetch.
    rewrite !requests_handle by reflexivity. reflexivity.
  - rewrite !toasts_handle by reflexivity. rewrite toasts_show.
    rewrite !toasts_handle by reflexivity. reflexivity.
Qed.

(** C3.  When the answer to the submission has [success] true and
    [status] [completed], [handleExtract] stores the [data] of that answer
    as the result, announces the completion, and ends having issued the
    submission and no status check. *)
Theorem handleExtract_completed_immediately (url prompt : string) (w : World)
    (v : JSON) (data : JsValue) :
  validated url prompt w ->
  body_of (network w (fetched w)) = Some v ->
  get v "success" = inr (Some (JBool true)) ->
  get v "status" = inr (Some (JString "completed")) ->
  get v "data" = inr data ->
  exists w',
    runs_to (handleExtract url prompt) w tt w'
    /\ extractedData (ui w') = data
    /\ error (ui w') = EmptyString
    /\ requests (trace w') = (requests (trace w) ++ [submission url prompt])%list
    /\ fetched w' = S (fetched w)
    /\ toasts (trace w') = (toasts (trace w) ++ [toast_extraction_complete])%list.
Proof.
  intros Hv Hb Hsuccess Hstatus Hdata.
  eexists. split.
  - eapply runs_to_handleExtract; [exact Hv|].
    apply (try_completed url prompt (started url w) v _ _ data Hb Hsuccess eq_refl
             Hstatus eq_refl Hdata).
  - destruct (finished_after_success url prompt w data) as [Hui [Hreq [Hf Ht]]].
    rewrite Hui. auto.
Qed.

(** ** What the polling loop leaves untouched *)

Lemma polled_only_refl (w : World) : polled_only w w.
Proof.
  unfold polled_only. repeat split; auto.
  exists []. rewrite app_nil_r. auto.
Qed.

Lemma polled_only_trans (w1 w2 w3 : World) :
  polled_only w1 w2 -> polled_only w2 w3 -> polled_only w1 w3.
Proof.
  intros [Hn1 [Hp1 [Hf1 [Hl1 [He1 [Hd1 [a1 [Ht1 [Ha1 Hs1]]]]]]]]]
         [Hn2 [Hp2 [Hf2 [Hl2 [He2 [Hd2 [a2 [Ht2 [Ha2 Hs2]]]]]]]]].
  unfold polled_only. repeat split; try congruence; try lia.
  exists (a1 ++ a2)%list.
  rewrite Ht2, Ht1, <- app_assoc, assignments_app, toasts_app, Ha1, Ha2, Hs1, Hs2.
  auto.
Qed.

Lemma polled_only_handle {T : Type} (e : effectE T) (w : World) :
  is_polling_event e = true -> polled_only w (snd (handle e w)).
Proof.
  intros H. destruct e; try discriminate; unfold polled_only; ui_simpl;
    repeat split; auto; eexists; split; try reflexivity; auto.
Qed.

Lemma polled_only_after_pass (extractId : JsValue) (w : World) :
  polled_only w (after_pass extractId w)
  /\ fetched (after_pass extractId w) = S (fetched w).
Proof.
  unfold after_pass, after_status_check, after_pending_pass.
  destruct (body_of (network w (fetched w))) as [[ | | | | | ]|];
    try destruct (terminal_status _);
    (split; [|reflexivity]);
    repeat first
      [ apply polled_only_handle; reflexivity
      | eapply polled_only_trans; [|apply polled_only_handle; reflexivity] ].
Qed.

Lemma strict_eq_string_true (v : JsValue) (text : string) :
  (v === text) = true -> v = Some (JString text).
Proof.
  destruct v as [[ | | | s | | ]|]; try discriminate.
  cbn [strict_eq_string]. intros H. apply String.eqb_eq in H. congruence.
Qed.

Lemma pass_result_return_inv (answer : JsError + Response) (data : JsValue) :
  pass_result answer = inr (Return data) ->
  exists v, body_of answer = Some v
            /\ get v "status" = inr (Some (JString "completed"))
            /\ get v "data" = inr data.
Proof.
  unfold pass_result, body_of.
  destruct answer as [e | response]; [discriminate|].
  destruct (ok response); cbn [negb]; [|discriminate].
  destruct (json response) as [e | v]; [discriminate|].
  destruct (get v "status") as [e | st] eqn:Hs; [discriminate|].
  destruct (st === "completed") eqn:Hc.
  - destruct (get v "data") as [e | d] eqn:Hd; [discriminate|].
    intros H. inversion H; subst. exists v.
    rewrite (strict_eq_string_true _ _ Hc) in Hs. auto.
  - destruct (st === "failed"); [discriminate|].
    destruct (st === "cancelled"); discriminate.
Qed.

(** Whenever [waitForCompletion] ends, it has only polled, it has sent at
    least one request, and a value it returns is the [data] of the last
    answer, which was [completed]. *)
Lemma waitForCompletion_ensures (extractId : JsValue) (w : World) :
  ensures (waitForCompletion extractId) w
    (fun r w' =>
       polled_only w w'
       /\ fetched w < fetched w'
       /\ forall data, r = inr data ->
            exists v, body_of (network w (fetched w' - 1)) = Some v
                      /\ get v "status" = inr (Some (JString "completed"))
                      /\ get v "data" = inr data).
Proof.
  apply (ensures_wait extractId (fun w1 => polled_only w w1)); [|apply polled_only_refl].
  intros w1 Hinv.
  destruct (polled_only_after_pass extractId w1) as [Hpass Hfetched].
  pose proof (polled_only_trans _ _ _ Hinv Hpass) as Hall.
  destruct Hinv as [Hnet [_ [Hle _]]].
  destruct (pass_result (network w1 (fetched w1))) as [e | [ | data]] eqn:Hres.
  - split; [exact Hall|]. split; [lia|]. discriminate.
  - rewrite <- (after_pass_pending extractId w1 (pass_result_continue _ Hres)).
    exact Hall.
  - split; [exact Hall|]. split; [lia|].
    intros d Hd. inversion Hd; subst d.
    rewrite Hfetched. replace (S (fetched w1) - 1) with (fetched w1) by lia.
    rewrite <- Hnet. apply pass_result_return_inv. exact Hres.
Qed.

(** ** What the [try] block ensures *)

Lemma try_post_thrown_at_once (url prompt : string) (w : World) (e : JsError) :
  try_post url prompt w (inl e) (after_submission url prompt w).
Proof.
  unfold try_post, after_submission. ui_simpl.
  repeat split; auto. exists []. auto.
Qed.

Lemma try_post_success_at_once (url prompt : string) (w : World) (v : JSON)
    (value : JsValue) :
  body_of (network w (fetched w)) = Some v ->
  terminal_payload v value ->
  try_post url prompt w (inr tt) (after_success value (after_submission url prompt w)).
Proof.
  intros Hb Hpayload. unfold try_post, after_success, after_submission. ui_simpl.
  repeat split; auto.
  eexists. split; [rewrite <- !app_assoc; reflexivity|].
  replace (S (fetched w) - 1) with (fetched w) by lia.
  split; [exists v; auto|]. split; reflexivity.
Qed.

Lemma try_post_thrown_after_polling (url prompt : string) (w w2 : World) (e : JsError) :
  polled_only (after_submission url prompt w) w2 ->
  try_post url prompt w (inl e) w2.
Proof.
  intros [Hn [_ [Hf [Hl [He [Hd [added [Ht [Ha Hs]]]]]]]]].
  unfold after_submission in *. revert Hn Hf Hl He Hd Ht. ui_simpl.
  intros Hn Hf Hl He Hd Ht. unfold try_post.
  repeat split; auto.
  exists added. rewrite Ht, <- app_assoc. auto.
Qed.

Lemma try_post_success_after_polling (url prompt : string) (w w2 : World) (v : JSON)
    (data : JsValue) :
  polled_only (after_submission url prompt w) w2 ->
  body_of (network (after_submission url prompt w) (fetched w2 - 1)) = Some v ->
  get v "status" = inr (Some (JString "completed")) ->
  get v "data" = inr data ->
  try_post url prompt w (inr tt) (after_success data w2).
Proof.
  intros [Hn [_ [Hf [Hl [He [Hd [added [Ht [Ha Hs]]]]]]]]] Hb Hstatus Hdata.
  unfold after_submission in *. revert Hn Hf Hl He Hd Ht Hb. ui_simpl.
  intros Hn Hf Hl He Hd Ht Hb. unfold try_post, after_success. ui_simpl.
  repeat split; auto.
  exists (added ++ [act (SetExtractedData data); act (ShowToast toast_extraction_complete)])%list.
  rewrite Ht, <- !app_assoc, assignments_app, toasts_app, Ha, Hs.
  split; [reflexivity|].
  split; [exists v; split; [exact Hb | left; auto]|].
  split; reflexivity.
Qed.

Lemma ensures_try (url prompt : string) (w : World) :
  ensures (handleExtract_try url prompt) w (try_post url prompt w).
Proof.
  unfold handleExtract_try. unfold_js.
  apply ensures_bind, ensures_trigger. world_simpl.
  fold (after_submission url prompt w).
  destruct (network w (fetched w)) as [e | response] eqn:Ha;
    [apply ensures_ret, try_post_thrown_at_once|].
  destruct (ok response) eqn:Hok; cbn [negb];
    [|apply ensures_ret, try_post_thrown_at_once].
  apply ensures_bind, ensures_ret.
  destruct (json response) as [e | v] eqn:Hj;
    [apply ensures_ret, try_post_thrown_at_once|].
  assert (Hb : body_of (network w (fetched w)) = Some v)
    by (unfold body_of; rewrite Ha, Hok, Hj; reflexivity).
  apply ensures_bind, ensures_ret.
  destruct (get v "success") as [e | success] eqn:Hsuccess;
    [apply ensures_ret, try_post_thrown_at_once|].
  destruct (truthy success) eqn:Htruthy; cbn [negb];
    [|apply ensures_ret, try_post_thrown_at_once].
  apply ensures_bind, ensures_ret.
  destruct (get v "status") as [e | status] eqn:Hstatus;
    [apply ensures_ret, try_post_thrown_at_once|].
  assert (Hfield : forall name, exists x, get v name = inr x).
  { intros name. destruct v; cbn [get] in *; try discriminate; eauto. }
  destruct (Hfield "data") as [data Hdata].
  destruct (Hfield "extract_id") as [extract_id Hid].
  destruct (status === "completed") eqn:Hcompleted.
  - apply ensures_bind, ensures_ret. rewrite Hdata.
    apply ensures_bind, ensures_bind, ensures_trigger, ensures_ret.
    apply ensures_bind, ensures_trigger, ensures_ret.
    apply (try_post_success_at_once url prompt w v data Hb).
    left. rewrite (strict_eq_string_true _ _ Hcompleted) in Hstatus. auto.
  - apply ensures_bind, ensures_ret. rewrite Hid.
    destruct (truthy extract_id) eqn:Hpoll.
    + apply ensures_bind.
      eapply ensures_weaken; [apply waitForCompletion_ensures|].
      intros r w2 [Hpolled [Hlt Hret]].
      destruct r as [e | finalData];
        [apply ensures_ret, try_post_thrown_after_polling; exact Hpolled|].
      destruct (Hret finalData eq_refl) as [v2 [Hb2 [Hs2 Hd2]]].
      apply ensures_bind, ensures_bind, ensures_trigger, ensures_ret.
      apply ensures_bind, ensures_trigger, ensures_ret.
      apply (try_post_success_after_polling url prompt w w2 v2 finalData Hpolled Hb2 Hs2 Hd2).
    + apply ensures_bind, ensures_ret. rewrite Hdata.
      apply ensures_bind, ensures_bind, ensures_trigger, ensures_ret.
      apply ensures_bind, ensures_trigger, ensures_ret.
      apply (try_post_success_at_once url prompt w v _ Hb).
      right. exists status, extract_id, data. auto 10.
Qed.

(** A run of [handleExtract] that passed the guards and ended is the run
    of its [try] block followed by [catch] (when it threw) and
    [finally]. *)
Lemma handleExtract_inv (url prompt : string) (w w' : World) (fuel spare : nat) :
  validated url prompt w ->
  run fuel (handleExtract url prompt) w = Done tt w' spare ->
  exists outcome w1,
    runs_to (handleExtract_try url prompt) (started url w) outcome w1
    /\ try_post url prompt (started url w) outcome w1
    /\ w' = finished outcome w1.
Proof.
  intros Hv Hrun.
  apply (run_more fuel 7) in Hrun.
  rewrite Nat.add_comm, (run_handleExtract_validated _ _ _ _ Hv) in Hrun.
  destruct (run fuel (handleExtract_try url prompt) (started url w))
    as [outcome w1 s1 | w1] eqn:Htry; [|discriminate].
  exists outcome, w1. split; [exists fuel, s1; exact Htry|].
  split; [exact (ensures_try _ _ _ _ _ _ _ Htry)|].
  destruct (runs_to_epilogue outcome w1) as [m [s' Hm]].
  destruct (run_deterministic _ _ _ _ _ _ _ _ _ _ Hm Hrun) as [_ Heq].
  symmetry. exact Heq.
Qed.

Lemma invalid_or_validated (url prompt : string) (w : World) :
  invalid_input url prompt w \/ validated url prompt w.
Proof.
  unfold invalid_input, validated.
  destruct (string_dec url EmptyString) as [Hu | Hu]; [tauto|].
  destruct (string_dec prompt EmptyString) as [Hp | Hp]; [tauto|].
  destruct (url_parser w url) as [e | []] eqn:He; [left; eauto | right; auto].
Qed.

(** A run stopped by the guards leaves the React state as it was. *)
Lemma handleExtract_invalid_ui (url prompt : string) (w w' : World) (fuel spare : nat) :
  invalid_input url prompt w ->
  run fuel (handleExtract url prompt) w = Done tt w' spare ->
  ui w' = ui w.
Proof.
  intros Hinvalid Hrun.
  destruct (string_dec url EmptyString) as [Hu | Hu];
    [|destruct (string_dec prompt EmptyString) as [Hp | Hp]].
  - destruct (run_handleExtract_missing url prompt w 0 (or_introl Hu)) as [Hn _].
    destruct (run_deterministic _ _ _ _ _ _ _ _ _ _ Hn Hrun) as [_ <-]. reflexivity.
  - destruct (run_handleExtract_missing url prompt w 0 (or_intror Hp)) as [Hn _].
    destruct (run_deterministic _ _ _ _ _ _ _ _ _ _ Hn Hrun) as [_ <-]. reflexivity.
  - destruct Hinvalid as [H | [H | [e He]]]; try contradiction.
    destruct (run_handleExtract_invalid_url url prompt w e 0 Hu Hp He) as [Hn _].
    destruct (run_deterministic _ _ _ _ _ _ _ _ _ _ Hn Hrun) as [_ <-]. reflexivity.
Qed.

(** C9.  After every complete run of [handleExtract] that reached the
    request (however it ended: a result, a refused submission, a failed or
    cancelled job, a transport error), [isLoading] is false and
    [jobStatus] is the empty string; a run stopped by the guards leaves
    both as they were, so the same holds after it when it held before. *)
Theorem handleExtract_resets_loading_and_status (url prompt : string) (w w' : World)
    (fuel spare : nat) :
  run fuel (handleExtract url prompt) w = Done tt w' spare ->
  validated url prompt w
  \/ (isLoading (ui w) = false /\ jobStatus (ui w) = Some (JString EmptyString)) ->
  isLoading (ui w') = false /\ jobStatus (ui w') = Some (JString EmptyString).
Proof.
  intros Hrun Hcases.
  destruct (invalid_or_validated url prompt w) as [Hinvalid | Hv].
  - destruct Hcases as [[Hu [Hp Hparsed]] | Hidle].
    + destruct Hinvalid as [H | [H | [e He]]]; congruence.
    + rewrite (handleExtract_invalid_ui _ _ _ _ _ _ Hinvalid Hrun). exact Hidle.
  - destruct (handleExtract_inv _ _ _ _ _ _ Hv Hrun) as [outcome [w1 [_ [_ ->]]]].
    destruct outcome as [e | []]; split; reflexivity.
Qed.

Lemma finished_ui (outcome : JsError + unit) (w : World) :
  ui (finished outcome w) =
  {| isLoading := false;
     extractedData := extractedData (ui w);
     error := match outcome with
              | inl e => "Failed to extract data: " ++ message e
              | inr _ => error (ui w)
              end;
     jobStatus := Some (JString EmptyString) |}.
Proof. destruct outcome as [e | []]; reflexivity. Qed.

Lemma finished_trace (outcome : JsError + unit) (w : World) :
  trace (finished outcome w) =
  (trace w
     ++ match outcome with
        | inl e => [act (SetError ("Failed to extract data: " ++ message e));
                    act (ShowToast (toast_extraction_failed (message e)))]
        | inr _ => []
        end
     ++ [act (SetIsLoading false); act (SetJobStatus (Some (JString EmptyString)))])%list.
Proof.
  destruct outcome as [e | []]; unfold finished, after_finally, after_catch; ui_simpl;
    rewrite <- !app_assoc; reflexivity.
Qed.


(** C10.  In a complete run of [handleExtract] that reached the request,
    [extractedData] is set to [null] before the first request is sent.
    When the run ended in an error (its [try] block threw, whatever the
    error: transport, refused submission, failed or cancelled job), nothing
    was assigned to [extractedData] after that, so it is [null] at the
    end, next to the error message; when it did not, the error message is
    empty.  So an error message and a result are never both present. *)
Theorem handleExtract_error_leaves_no_result (url prompt : string) (w w' : World)
    (fuel spare : nat) :
  validated url prompt w ->
  run fuel (handleExtract url prompt) w = Done tt w' spare ->
  exists outcome w1 rest,
    runs_to (handleExtract_try url prompt) (started url w) outcome w1
    /\ trace w' =
       (trace w
          ++ [act PreventDefault; act (NewURL url); act (SetIsLoading true);
              act (SetError EmptyString); act (SetExtractedData null);
              act (SetJobStatus (Some (JString EmptyString))); act ScrollIntoView;
              act (Fetch webhookUrl (submit_request url prompt))]
          ++ rest)%list
    /\ match outcome with
       | inl e =>
         error (ui w') = "Failed to extract data: " ++ message e
         /\ assignments rest = []
         /\ extractedData (ui w') = null
       | inr _ => error (ui w') = EmptyString
       end
    /\ (error (ui w') = EmptyString \/ extractedData (ui w') = null).
Proof.
  intros Hv Hrun.
  destruct (handleExtract_inv _ _ _ _ _ _ Hv Hrun)
    as [outcome [w1 [Htry [[_ [_ [_ [Herr [added [Htrace Hout]]]]]] ->]]]].
  rewrite started_ui in Herr, Hout. cbn [error extractedData] in Herr, Hout.
  exists outcome, w1.
  eexists. split; [exact Htry|].
  rewrite finished_trace, finished_ui, Htrace, started_trace. cbn [error extractedData].
  split; [rewrite <- !app_assoc; cbn [app]; reflexivity|].
  destruct outcome as [e | []].
  - destruct Hout as [Hdata [Hassign _]].
    rewrite assignments_app, Hassign. cbn [assignments app act].
    auto.
  - auto.
Qed.

(** C7.  When the answer to the submission has [success] false, whatever
    its [status] and [data], the [try] block of [handleExtract] throws
    [SubmissionError]; [handleExtract] then ends with the error message of
    that failure and no result, having issued the submission and no status
    check. *)
Theorem handleExtract_submission_refused (url prompt : string) (w : World) (v : JSON) :
  validated url prompt w ->
  body_of (network w (fetched w)) = Some v ->
  get v "success" = inr (Some (JBool false)) ->
  (exists w1,
     runs_to (handleExtract_try url prompt) (started url w) (inl SubmissionError) w1)
  /\ exists w',
       runs_to (handleExtract url prompt) w tt w'
       /\ error (ui w') = "Failed to extract data: " ++ message SubmissionError
       /\ extractedData (ui w') = null
       /\ requests (trace w') = (requests (trace w) ++ [submission url prompt])%list
       /\ fetched w' = S (fetched w)
       /\ toasts (trace w') =
          (toasts (trace w) ++ [toast_extraction_failed (message SubmissionError)])%list.
Proof.
  intros Hv Hb Hsuccess.
  pose proof (try_rejected url prompt (started url w) v _ Hb Hsuccess eq_refl) as Htry.
  split; [eexists; exact Htry|].
  eexists. split; [eapply runs_to_handleExtract; [exact Hv | exact Htry]|].
  rewrite finished_ui, finished_trace. unfold after_submission.
  ui_simpl. rewrite started_trace, <- !app_assoc.
  rewrite !requests_app, !toasts_app.
  cbn [requests toasts app act]. rewrite ?app_nil_r.
  repeat split.
Qed.

(** C5, as the code has it.  When the answer to the submission has
    [success] true, a [status] other than [completed] and no [extract_id],
    [handleExtract] stores [initialResponse.data || initialResponse] (the
    [data] of the answer when it is truthy, and otherwise the whole
    answer), announces the completion, and ends having issued the
    submission and no status check. *)
Theorem handleExtract_fallback_without_extract_id (url prompt : string) (w : World)
    (v : JSON) (status data : JsValue) :
  validated url prompt w ->
  body_of (network w (fetched w)) = Some v ->
  get v "success" = inr (Some (JBool true)) ->
  get v "status" = inr status -> (status === "completed") = false ->
  get v "extract_id" = inr undefined ->
  get v "data" = inr data ->
  exists w',
    runs_to (handleExtract url prompt) w tt w'
    /\ extractedData (ui w') = js_or data (Some v)
    /\ (truthy data = false -> extractedData (ui w') = Some v)
    /\ error (ui w') = EmptyString
    /\ requests (trace w') = (requests (trace w) ++ [submission url prompt])%list
    /\ fetched w' = S (fetched w)
    /\ toasts (trace w') = (toasts (trace w) ++ [toast_extraction_complete])%list.
Proof.
  intros Hv Hb Hsuccess Hstatus Hnot Hid Hdata.
  eexists. split.
  - eapply runs_to_handleExtract; [exact Hv|].
    apply (try_fallback url prompt (started url w) v _ _ _ data Hb Hsuccess eq_refl
             Hstatus Hnot Hid eq_refl Hdata).
  - destruct (finished_after_success url prompt w (js_or data (Some v)))
      as [Hui [Hreq [Hf Ht]]].
    rewrite Hui. cbn [extractedData error].
    repeat split; auto.
    intros Hfalsy. unfold js_or. rewrite Hfalsy. reflexivity.
Qed.

(* ===================================================================== *)
(** * JSON.parse reads back what JSON.stringify wrote                     *)
(* ===================================================================== *)

(** Induction on a JSON value, with the property at hand for the items of
    an array and for the values of an object. *)
Lemma JSON_induction (P : JSON -> Prop) :
  P JNull ->
  (forall b, P (JBool b)) ->
  (forall lit, P (JNumber lit)) ->
  (forall s, P (JString s)) ->
  (forall items, Forall P items -> P (JArray items)) ->
  (forall props, Forall (fun kv => P (snd kv)) props -> P (JObject props)) ->
  forall v, P v.
Proof.
  intros Hnull Hbool Hnumber Hstring Harray Hobject.
  fix IH 1. intros [ | b | lit | s | items | props ].
  - exact Hnull.
  - apply Hbool.
  - apply Hnumber.
  - apply Hstring.
  - apply Harray. induction items as [|x items IHitems]; constructor.
    + apply IH.
    + exact IHitems.
  - apply Hobject. induction props as [|[k x] props IHprops]; constructor.
    + apply IH.
    + exact IHprops.
Qed.

(** ** Characters *)

Ltac each_char c :=
  destruct c as [[] [] [] [] [] [] [] []].

Lemma starts_value_facts (c : ascii) :
  starts_value c = true ->
  is_ws c = false /\ (c =? "]")%char = false /\ (c =? "}")%char = false
  /\ (c =? ",")%char = false /\ (c =? ":")%char = false.
Proof. each_char c; vm_compute; intros H; try discriminate H; auto. Qed.

Lemma number_start_facts (c : ascii) :
  ((c =? "-")%char || is_digit c) = true ->
  starts_value c = true
  /\ (c =? dquote)%char = false /\ (c =? "[")%char = false /\ (c =? "{")%char = false
  /\ (c =? "n")%char = false /\ (c =? "t")%char = false /\ (c =? "f")%char = false
  /\ is_number_char c = true.
Proof. each_char c; vm_compute; intros H; try discriminate H; auto 10. Qed.

Lemma ws_not_number_char (c : ascii) : is_ws c = true -> is_number_char c = false.
Proof. each_char c; vm_compute; intros H; try discriminate H; auto. Qed.

Lemma digit_is_number_char (c : ascii) : is_digit c = true -> is_number_char c = true.
Proof. unfold is_number_char. intros ->. reflexivity. Qed.

(** ** Strings *)

Lemma append_assoc (a b c : string) : (a ++ b) ++ c = a ++ (b ++ c).
Proof. induction a as [|x a IH]; simpl; [reflexivity | rewrite IH; reflexivity]. Qed.

Lemma append_nil_r (a : string) : a ++ EmptyString = a.
Proof. induction a as [|x a IH]; simpl; [reflexivity | rewrite IH; reflexivity]. Qed.

Lemma length_append (a b : string) :
  String.length (a ++ b) = String.length a + String.length b.
Proof. induction a as [|x a IH]; simpl; [reflexivity | rewrite IH; reflexivity]. Qed.

Lemma skip_ws_app (ws s : string) :
  all_ws ws = true -> skip_ws (ws ++ s) = skip_ws s.
Proof.
  induction ws as [|c ws IH]; simpl; [reflexivity|].
  intros H. apply andb_true_iff in H. destruct H as [Hc Hws].
  rewrite Hc. apply IH. exact Hws.
Qed.

Lemma skip_ws_head (c : ascii) (s : string) :
  is_ws c = false -> skip_ws (String c s) = String c s.
Proof. simpl. intros ->. reflexivity. Qed.

Lemma all_ws_app (a b : string) :
  all_ws a = true -> all_ws b = true -> all_ws (a ++ b) = true.
Proof.
  induction a as [|c a IH]; simpl; [auto|].
  intros H Hb. apply andb_true_iff in H. destruct H as [-> Ha]. simpl. auto.
Qed.

Lemma delimited_ws_app (ws s : string) :
  all_ws ws = true -> delimited s -> delimited (ws ++ s).
Proof.
  destruct ws as [|c ws]; simpl; [auto|].
  intros H _. apply andb_true_iff in H. destruct H as [Hc _].
  apply ws_not_number_char. exact Hc.
Qed.

(** ** Numbers *)

Lemma skip_digits_number_chars (s : string) :
  all_number_chars (skip_digits s) = true -> all_number_chars s = true.
Proof.
  induction s as [|c s IH]; simpl; [auto|].
  destruct (is_digit c) eqn:Hd.
  - intros H. rewrite (digit_is_number_char _ Hd). simpl. auto.
  - simpl. auto.
Qed.

Lemma digits1_number_chars (s after : string) :
  digits1 s = Some after -> all_number_chars after = true ->
  all_number_chars s = true.
Proof.
  destruct s as [|c s]; simpl; [discriminate|].
  destruct (is_digit c) eqn:Hd; [|discriminate].
  intros H Hafter. inversion H; subst.
  rewrite (digit_is_number_char _ Hd). simpl.
  apply skip_digits_number_chars. exact Hafter.
Qed.

Lemma valid_exponent_number_chars (s : string) :
  valid_exponent s = true -> all_number_chars s = true.
Proof.
  destruct s as [|c s]; simpl; [auto|].
  destruct ((c =? "e")%char || (c =? "E")%char) eqn:He; [|discriminate].
  assert (Hc : is_number_char c = true).
  { unfold is_number_char. apply orb_true_iff in He.
    destruct He as [-> | ->]; rewrite ?orb_true_r; reflexivity. }
  rewrite Hc. simpl.
  destruct s as [|sign s'].
  - simpl. discriminate.
  - destruct ((sign =? "+")%char || (sign =? "-")%char) eqn:Hs.
    + destruct (digits1 s') as [[|]|] eqn:Hd; try discriminate. intros _.
      simpl. assert (Hsign : is_number_char sign = true).
      { unfold is_number_char. apply orb_true_iff in Hs.
        destruct Hs as [-> | ->]; rewrite ?orb_true_r; reflexivity. }
      rewrite Hsign. simpl. eapply digits1_number_chars; eauto.
    + destruct (digits1 (String sign s')) as [[|]|] eqn:Hd; try discriminate.
      intros _. eapply digits1_number_chars; eauto.
Qed.

Lemma valid_fraction_number_chars (s : string) :
  valid_fraction s = true -> all_number_chars s = true.
Proof.
  destruct s as [|c s]; [auto|]. unfold valid_fraction.
  destruct (c =? ".")%char eqn:Hp.
  - destruct (digits1 s) as [after|] eqn:Hd; [|discriminate].
    intros H. simpl. unfold is_number_char. rewrite Hp, ?orb_true_r. simpl.
    eapply digits1_number_chars; eauto. apply valid_exponent_number_chars. exact H.
  - apply valid_exponent_number_chars.
Qed.

(** A number token is made of number characters and starts with a minus
    sign or a digit. *)
Lemma valid_number_shape (token : string) :
  valid_number token = true ->
  all_number_chars token = true
  /\ exists c body, token = String c body /\ ((c =? "-")%char || is_digit c) = true.
Proof.
  unfold valid_number. destruct token as [|c body]; [discriminate|].
  assert (Hunsigned : forall d rest,
            (if (d =? "0")%char then valid_fraction rest
             else if is_digit d then valid_fraction (skip_digits rest) else false) = true ->
            is_digit d = true /\ all_number_chars rest = true).
  { intros d rest. destruct (d =? "0")%char eqn:H0.
    - apply Ascii.eqb_eq in H0. subst d. intros H. split; [reflexivity|].
      apply valid_fraction_number_chars. exact H.
    - destruct (is_digit d); [|discriminate]. intros H. split; [reflexivity|].
      apply skip_digits_number_chars, valid_fraction_number_chars. exact H. }
  destruct (c =? "-")%char eqn:Hminus.
  - destruct body as [|d rest]; [discriminate|]. intros H.
    destruct (Hunsigned d rest H) as [Hd Hrest].
    split; [|exists c, (String d rest); rewrite Hminus; auto].
    simpl. unfold is_number_char at 1. rewrite Hminus, ?orb_true_r.
    rewrite (digit_is_number_char _ Hd), Hrest. reflexivity.
  - intros H. destruct (Hunsigned c body H) as [Hd Hrest].
    split; [|exists c, body; rewrite Hd, orb_true_r; auto].
    simpl. rewrite (digit_is_number_char _ Hd), Hrest. reflexivity.
Qed.

Lemma span_number_app (token rest : string) :
  all_number_chars token = true -> delimited rest ->
  span_number (token ++ rest) = (token, rest).
Proof.
  intros Htoken Hrest. induction token as [|c token IH]; simpl.
  - destruct rest as [|c rest]; [reflexivity|]. simpl. simpl in Hrest.
    rewrite Hrest. reflexivity.
  - simpl in Htoken. apply andb_true_iff in Htoken. destruct Htoken as [Hc Htoken].
    rewrite Hc, (IH Htoken). reflexivity.
Qed.

(** ** Strings in quotes *)

Lemma parse_chars_quote_char (c : ascii) (tail : string) :
  parse_chars (quote_char c ++ tail) =
  match parse_chars tail with
  | Some (chars, after) => Some (String c chars, after)
  | None => None
  end.
Proof. each_char c; reflexivity. Qed.

Lemma parse_chars_quote_chars (s tail : string) :
  parse_chars (quote_chars s ++ String dquote tail) = Some (s, tail).
Proof.
  induction s as [|c s IH].
  - reflexivity.
  - cbn [quote_chars]. rewrite append_assoc, parse_chars_quote_char, IH. reflexivity.
Qed.

Lemma quote_app (s tail : string) :
  quote s ++ tail = String dquote (quote_chars s ++ String dquote tail).
Proof. unfold quote. simpl. rewrite append_assoc. reflexivity. Qed.

Lemma length_quote (s : string) : 2 <= String.length (quote s).
Proof. unfold quote. simpl. rewrite length_append. simpl. lia. Qed.

(** ** Values *)

Lemma parse_value_skip_ws (fuel : nat) (ws s : string) :
  all_ws ws = true -> parse_value fuel (ws ++ s) = parse_value fuel s.
Proof.
  intros H. destruct fuel as [|fuel]; [reflexivity|].
  simpl. rewrite (skip_ws_app _ _ H). reflexivity.
Qed.

Lemma parse_items_skip_ws (fuel : nat) (ws s : string) :
  all_ws ws = true -> parse_items fuel (ws ++ s) = parse_items fuel s.
Proof.
  intros H. destruct fuel as [|fuel]; [reflexivity|].
  simpl. rewrite (parse_value_skip_ws _ _ _ H). reflexivity.
Qed.

Lemma parse_members_skip_ws (fuel : nat) (ws s : string) (props : list (string * JSON)) :
  all_ws ws = true -> parse_members fuel (ws ++ s) props = parse_members fuel s props.
Proof.
  intros H. destruct fuel as [|fuel]; [reflexivity|].
  simpl. rewrite (skip_ws_app _ _ H). reflexivity.
Qed.

Lemma parse_value_number (fuel : nat) (lit rest : string) :
  valid_number lit = true -> delimited rest ->
  parse_value (S fuel) (lit ++ rest) = Some (JNumber lit, rest).
Proof.
  intros Hvalid Hrest.
  destruct (valid_number_shape _ Hvalid) as [Hchars [c [body [Hlit Hstart]]]].
  destruct (number_start_facts _ Hstart) as [Hsv [H1 [H2 [H3 [H4 [H5 [H6 H7]]]]]]].
  destruct (starts_value_facts _ Hsv) as [Hws _].
  cbn [parse_value]. rewrite Hlit. cbn [append].
  rewrite (skip_ws_head _ _ Hws), H1, H2, H3, H4, H5, H6, H7.
  change (String c (body ++ rest)) with (String c body ++ rest).
  rewrite <- Hlit, (span_number_app _ _ Hchars Hrest), Hvalid. reflexivity.
Qed.

(** The text of a value starts with a character that starts a value. *)
Lemma serialize_starts (gap indent : string) (v : JSON) :
  wf_json v ->
  exists c body, serialize gap indent v = String c body /\ starts_value c = true.
Proof.
  destruct v as [ | [|] | lit | s | items | props ]; intros Hwf;
    try (eexists; eexists; split; [reflexivity|reflexivity]).
  - destruct (valid_number_shape _ Hwf) as [_ [c [body [-> Hstart]]]].
    exists c, body. split; [reflexivity|]. apply number_start_facts. exact Hstart.
  - cbn [serialize]. unfold bracketed.
    destruct (map (serialize gap (indent ++ gap)) items);
      [|destruct (gap =? EmptyString)];
      eexists; eexists; (split; [reflexivity|reflexivity]).
  - cbn [serialize]. unfold bracketed.
    destruct (map _ props); [|destruct (gap =? EmptyString)];
      eexists; eexists; (split; [reflexivity|reflexivity]).
Qed.

(** ** Arrays and objects *)

(** The layout of a bracketed list that is not empty: whitespace after the
    opening bracket, after each comma and before the closing bracket (none
    at all without a gap). *)
Lemma bracketed_layout (gap indent opening closing : string) (parts : list string) :
  all_ws gap = true -> all_ws indent = true -> parts <> [] ->
  exists after_open after_comma before_close,
    all_ws after_open = true /\ all_ws after_comma = true
    /\ all_ws before_close = true
    /\ bracketed gap indent opening closing parts =
       opening ++ after_open
         ++ join (String "," after_comma) parts ++ before_close ++ closing.
Proof.
  intros Hgap Hindent Hparts. unfold bracketed.
  destruct parts as [|p parts]; [contradiction|].
  destruct (gap =? EmptyString).
  - exists EmptyString, EmptyString, EmptyString. repeat split.
  - exists (String newline (indent ++ gap)), (String newline (indent ++ gap)),
      (String newline indent).
    assert (Hinner : all_ws (indent ++ gap) = true) by (apply all_ws_app; assumption).
    repeat split; simpl; assumption.
Qed.

Lemma join_cons2 (sep p q : string) (parts : list string) :
  join sep (p :: q :: parts) = p ++ sep ++ join sep (q :: parts).
Proof. reflexivity. Qed.

Lemma delimited_close (before_close closing rest : string) (c : ascii) :
  all_ws before_close = true -> is_number_char c = false ->
  delimited (before_close ++ String c rest).
Proof. intros H Hc. apply delimited_ws_app; [exact H | exact Hc]. Qed.

Lemma parse_items_serialized (items : list JSON) :
  Forall reads_back items ->
  forall (gap indent after_comma before_close rest : string) (fuel : nat),
    items <> [] ->
    all_ws gap = true -> all_ws indent = true ->
    all_ws after_comma = true -> all_ws before_close = true ->
    fold_right (fun x acc => S (size x + acc)) 0 items <= fuel ->
    parse_items fuel
      (join (String "," after_comma) (map (serialize gap indent) items)
         ++ before_close ++ String "]" rest) = Some (items, rest).
Proof.
  induction 1 as [|v items Hv Hitems IH];
    intros gap indent after_comma before_close rest fuel Hne Hgap Hindent Hcomma
      Hclose Hfuel; [contradiction|].
  cbn [fold_right] in Hfuel.
  destruct fuel as [|fuel]; [lia|].
  destruct items as [|v2 items].
  - cbn [map join parse_items].
    rewrite (Hv gap indent _ fuel Hgap Hindent
               (delimited_close before_close "]" rest "]" Hclose eq_refl))
      by (cbn [fold_right] in Hfuel; lia).
    rewrite (skip_ws_app _ _ Hclose). reflexivity.
  - cbn [map]. rewrite join_cons2, !append_assoc. cbn [parse_items append].
    rewrite (Hv gap indent _ fuel Hgap Hindent) by (simpl; lia || reflexivity).
    cbn [skip_ws]. change (is_ws ",") with false. cbv iota.
    change (("," =? ",")%char) with true. cbv iota.
    rewrite (parse_items_skip_ws _ _ _ Hcomma).
    change (serialize gap indent v2 :: map (serialize gap indent) items)
      with (map (serialize gap indent) (v2 :: items)).
    rewrite (IH gap indent after_comma before_close rest fuel); try assumption;
      [reflexivity | discriminate | lia].
Qed.

Lemma parse_members_serialized (props : list (string * JSON)) :
  Forall (fun kv => reads_back (snd kv)) props ->
  forall (gap indent after_comma before_close rest : string) (fuel : nat)
         (acc : list (string * JSON)),
    props <> [] ->
    all_ws gap = true -> all_ws indent = true ->
    all_ws after_comma = true -> all_ws before_close = true ->
    fold_right (fun kv acc => S (size (snd kv) + acc)) 0 props <= fuel ->
    parse_members fuel
      (join (String "," after_comma) (map (member_text gap indent) props)
         ++ before_close ++ String "}" rest) acc
    = Some (set_props acc props, rest).
Proof.
  induction 1 as [|[k v] props Hv Hprops IH];
    intros gap indent after_comma before_close rest fuel acc Hne Hgap Hindent Hcomma
      Hclose Hfuel; [contradiction|].
  cbn [fold_right snd] in Hfuel. cbn [snd] in Hv.
  destruct fuel as [|fuel]; [lia|].
  assert (Hspace : all_ws (if gap =? EmptyString then EmptyString else " ") = true)
    by (destruct (gap =? EmptyString); reflexivity).
  destruct props as [|kv2 props].
  - cbn [map join]. unfold member_text at 1. cbn [fst snd].
    rewrite !append_assoc, quote_app. cbn [parse_members skip_ws].
    change (is_ws dquote) with false. cbv iota.
    change ((dquote =? dquote)%char) with true. cbv iota.
    rewrite parse_chars_quote_chars. cbn [append skip_ws].
    change (is_ws ":") with false. cbv iota.
    change ((":" =? ":")%char) with true. cbv iota.
    rewrite (parse_value_skip_ws _ _ _ Hspace).
    rewrite (Hv gap indent _ fuel Hgap Hindent
               (delimited_close before_close "}" rest "}" Hclose eq_refl))
      by lia.
    rewrite (skip_ws_app _ _ Hclose). reflexivity.
  - cbn [map]. rewrite join_cons2. unfold member_text at 1. cbn [fst snd].
    rewrite !append_assoc, quote_app. cbn [parse_members skip_ws].
    change (is_ws dquote) with false. cbv iota.
    change ((dquote =? dquote)%char) with true. cbv iota.
    rewrite parse_chars_quote_chars. cbn [append skip_ws].
    change (is_ws ":") with false. cbv iota.
    change ((":" =? ":")%char) with true. cbv iota.
    rewrite (parse_value_skip_ws _ _ _ Hspace).
    rewrite (Hv gap indent _ fuel Hgap Hindent) by (simpl; lia || reflexivity).
    cbn [skip_ws]. change (is_ws ",") with false. cbv iota.
    change (("," =? ",")%char) with true. cbv iota.
    rewrite (parse_members_skip_ws _ _ _ _ Hcomma).
    change (member_text gap indent kv2 :: map (member_text gap indent) props)
      with (map (member_text gap indent) (kv2 :: props)).
    rewrite (IH gap indent after_comma before_close rest fuel); try assumption;
      [reflexivity | discriminate | cbn [fold_right] in *; lia].
Qed.

Lemma set_prop_fresh (key : string) (v : JSON) (props : list (string * JSON)) :
  ~ In key (map fst props) -> set_prop key v props = (props ++ [(key, v)])%list.
Proof.
  induction props as [|[k x] props IH]; intros Hfresh; [reflexivity|].
  cbn [set_prop]. destruct (k =? key) eqn:Hk.
  - apply String.eqb_eq in Hk. exfalso. apply Hfresh. left. exact Hk.
  - rewrite IH; [reflexivity|]. intros Hin. apply Hfresh. right. exact Hin.
Qed.

Lemma set_props_distinct (more props : list (string * JSON)) :
  NoDup (map fst (props ++ more)) -> set_props props more = (props ++ more)%list.
Proof.
  revert props. induction more as [|[k v] more IH]; intros props Hnodup.
  - unfold set_props. simpl. rewrite app_nil_r. reflexivity.
  - unfold set_props in *. cbn [fold_left fst snd].
    rewrite set_prop_fresh.
    + rewrite IH; rewrite <- app_assoc; [reflexivity | exact Hnodup].
    + rewrite map_app in Hnodup. cbn [map fst] in Hnodup.
      apply NoDup_remove_2 in Hnodup. intros Hin. apply Hnodup.
      apply in_or_app. left. exact Hin.
Qed.

Lemma wf_items (items : list JSON) :
  fold_right (fun x acc => wf_json x /\ acc) True items -> Forall wf_json items.
Proof.
  induction items as [|x items IH]; [constructor|].
  intros [Hx Hrest]. constructor; auto.
Qed.

Lemma wf_props (props : list (string * JSON)) :
  fold_right (fun kv acc => wf_json (snd kv) /\ acc) True props ->
  Forall (fun kv => wf_json (snd kv)) props.
Proof.
  induction props as [|x props IH]; [constructor|].
  intros [Hx Hrest]. constructor; auto.
Qed.

Lemma Forall_both {A : Type} (P Q : A -> Prop) (l : list A) :
  Forall (fun x => P x -> Q x) l -> Forall P l -> Forall Q l.
Proof.
  induction 1 as [|x l Hx Hl IH]; intros HP; [constructor|].
  inversion HP; subst. constructor; auto.
Qed.

(** Every genuine JSON value is read back from its text. *)
Lemma wf_reads_back (v : JSON) : wf_json v -> reads_back v.
Proof.
  induction v as [ | b | lit | s | items IH | props IH ] using JSON_induction;
    intros Hwf gap indent rest fuel Hgap Hindent Hrest Hfuel;
    (destruct fuel as [|fuel]; [simpl in Hfuel; lia|]).
  - reflexivity.
  - destruct b; reflexivity.
  - apply parse_value_number; assumption.
  - cbn [serialize]. rewrite quote_app. cbn [parse_value skip_ws].
    change (is_ws dquote) with false. cbv iota.
    change ((dquote =? dquote)%char) with true. cbv iota.
    rewrite parse_chars_quote_chars. reflexivity.
  - cbn [wf_json] in Hwf. apply wf_items in Hwf.
    pose proof (Forall_both _ _ _ IH Hwf) as Hread.
    cbn [serialize]. destruct items as [|x items]; [reflexivity|].
    destruct (bracketed_layout gap indent "[" "]"
                (map (serialize gap (indent ++ gap)) (x :: items)) Hgap Hindent
                ltac:(discriminate))
      as [after_open [after_comma [before_close [Ho [Hc [Hb ->]]]]]].
    inversion Hwf as [|? ? Hx _]; subst.
    destruct (serialize_starts gap (indent ++ gap) x Hx) as [c [body [Hser Hstart]]].
    destruct (starts_value_facts _ Hstart) as [Hws [Hnot _]].
    cbn [append parse_value skip_ws]. change (is_ws "[") with false. cbv iota.
    change (("[" =? dquote)%char) with false. cbv iota.
    change (("[" =? "[")%char) with true. cbv iota.
    rewrite !append_assoc. cbn [append].
    rewrite (parse_items_skip_ws _ _ _ Ho).
    rewrite (parse_items_serialized _ Hread gap (indent ++ gap) after_comma
               before_close rest fuel);
      try assumption; try discriminate;
      [|apply all_ws_app; assumption | cbn [size] in Hfuel; lia].
    rewrite (skip_ws_app _ _ Ho).
    destruct items as [|x2 items].
    + cbn [map join]. rewrite Hser. cbn [append]. rewrite (skip_ws_head _ _ Hws), Hnot.
      reflexivity.
    + cbn [map]. rewrite join_cons2, Hser. cbn [append].
      rewrite (skip_ws_head _ _ Hws), Hnot. reflexivity.
  - cbn [wf_json] in Hwf. destruct Hwf as [Hnodup Hwf]. apply wf_props in Hwf.
    pose proof (Forall_both _ _ _ IH Hwf) as Hread.
    cbn [serialize]. destruct props as [|kv props]; [reflexivity|].
    change (fun kv0 : string * JSON =>
              quote (fst kv0) ++ ":"
                ++ (if gap =? EmptyString then EmptyString else " ")
                ++ serialize gap (indent ++ gap) (snd kv0))
      with (member_text gap (indent ++ gap)).
    destruct (bracketed_layout gap indent "{" "}"
                (map (member_text gap (indent ++ gap)) (kv :: props)) Hgap Hindent
                ltac:(discriminate))
      as [after_open [after_comma [before_close [Ho [Hc [Hb ->]]]]]].
    cbn [append parse_value skip_ws]. change (is_ws "{") with false. cbv iota.
    change (("{" =? dquote)%char) with false. cbv iota.
    change (("{" =? "[")%char) with false. cbv iota.
    change (("{" =? "{")%char) with true. cbv iota.
    rewrite !append_assoc. cbn [append].
    rewrite (parse_members_skip_ws _ _ _ _ Ho).
    rewrite (parse_members_serialized _ Hread gap (indent ++ gap) after_comma
               before_close rest fuel []);
      try assumption; try discriminate;
      [|apply all_ws_app; assumption | cbn [size] in Hfuel; lia].
    rewrite (skip_ws_app _ _ Ho).
    rewrite (set_props_distinct (kv :: props) [] Hnodup).
    assert (Hfirst : exists tail,
               join (String "," after_comma)
                 (map (member_text gap (indent ++ gap)) (kv :: props))
                 ++ before_close ++ String "}" rest = String dquote tail).
    { destruct props as [|kv2 props]; cbn [map]; [cbn [join]|rewrite join_cons2];
        unfold member_text at 1; rewrite !append_assoc, quote_app; eauto. }
    destruct Hfirst as [tail ->]. reflexivity.
Qed.

(** ** The whole text *)

Lemma length_join (sep : string) (parts : list string) :
  1 <= String.length sep ->
  fold_right (fun p acc => S (String.length p + acc)) 0 parts
  <= S (String.length (join sep parts)).
Proof.
  intros Hsep. induction parts as [|p parts IH]; [simpl; lia|].
  destruct parts as [|q parts].
  - simpl. lia.
  - rewrite join_cons2, !length_append. cbn [fold_right] in *. lia.
Qed.

Lemma length_bracketed (gap indent opening closing : string) (parts : list string) :
  1 <= String.length opening -> 1 <= String.length closing ->
  S (fold_right (fun p acc => S (String.length p + acc)) 0 parts)
  <= String.length (bracketed gap indent opening closing parts).
Proof.
  intros Ho Hc. unfold bracketed. destruct parts as [|p parts].
  - rewrite length_append. simpl. lia.
  - destruct (gap =? EmptyString).
    + rewrite !length_append.
      pose proof (length_join "," (p :: parts) ltac:(simpl; lia)). lia.
    + rewrite !length_append.
      pose proof (length_join ("," ++ String newline (indent ++ gap)) (p :: parts)
                    ltac:(simpl; lia)).
      lia.
Qed.

(** The text of a value has a character at least for each value the
    parser reads. *)
Lemma size_le_length (v : JSON) :
  wf_json v -> forall gap indent, size v <= String.length (serialize gap indent v).
Proof.
  induction v as [ | b | lit | s | items IH | props IH ] using JSON_induction;
    intros Hwf gap indent.
  - simpl. lia.
  - destruct b; simpl; lia.
  - destruct (valid_number_shape _ Hwf) as [_ [c [body [-> _]]]]. simpl. lia.
  - cbn [serialize size]. pose proof (length_quote s). lia.
  - cbn [wf_json] in Hwf. apply wf_items in Hwf.
    pose proof (Forall_both _ _ _ IH Hwf) as Hlen. cbn [serialize size].
    eapply Nat.le_trans;
      [|apply length_bracketed; simpl; lia].
    apply le_n_S. clear IH Hwf.
    induction Hlen as [|x items Hx _ IHitems]; [simpl; lia|].
    cbn [map fold_right]. specialize (Hx gap (indent ++ gap)). lia.
  - cbn [wf_json] in Hwf. destruct Hwf as [_ Hwf]. apply wf_props in Hwf.
    pose proof (Forall_both _ _ _ IH Hwf) as Hlen. cbn [serialize size].
    eapply Nat.le_trans;
      [|apply length_bracketed; simpl; lia].
    apply le_n_S. clear IH Hwf.
    induction Hlen as [|kv props Hx _ IHprops]; [simpl; lia|].
    cbn [map fold_right]. specialize (Hx gap (indent ++ gap)).
    rewrite !length_append. lia.
Qed.

(** [JSON.parse] gives back a genuine JSON value from the text
    [JSON.stringify] wrote for it, with an indentation of two spaces or
    with none. *)
Lemma JSON_parse_stringify (v : JSON) :
  wf_json v ->
  JSON_parse (JSON_stringify_2 v) = Some v /\ JSON_parse (JSON_stringify v) = Some v.
Proof.
  intros Hwf. unfold JSON_parse, JSON_stringify_2, JSON_stringify.
  split.
  - rewrite <- (append_nil_r (serialize "  " EmptyString v)) at 2.
    rewrite (wf_reads_back v Hwf "  " EmptyString EmptyString); try reflexivity.
    apply size_le_length. exact Hwf.
  - rewrite <- (append_nil_r (serialize EmptyString EmptyString v)) at 2.
    rewrite (wf_reads_back v Hwf EmptyString EmptyString EmptyString); try reflexivity.
    apply size_le_length. exact Hwf.
Qed.

(* ===================================================================== *)
(** * What the status checks carry                                        *)
(* ===================================================================== *)

(** C1.  When the next three answers to status checks are [processing],
    [processing] and [completed] with data [X], [waitForCompletion]
    returns exactly [X]; it issues exactly three requests, in a row, with a
    pause of two seconds after each of the first two.  The three requests
    are the same: a [POST] to the webhook with a JSON content type, whose
    body is the text [JSON.stringify] gives for the object with [action]
    set to [status_check] and [extract_id] set to the identifier the loop
    was called with (the property is left out for [undefined]); read with
    [JSON.parse], the body gives back that object, so each request carries
    the same [extract_id]. *)
Theorem waitForCompletion_processing_processing_completed
    (extractId : JsValue) (w : World) (v1 v2 v3 : JSON) (X : JsValue) :
  body_of (network w (fetched w)) = Some v1 ->
  get v1 "status" = inr (Some (JString "processing")) ->
  body_of (network w (fetched w + 1)) = Some v2 ->
  get v2 "status" = inr (Some (JString "processing")) ->
  body_of (network w (fetched w + 2)) = Some v3 ->
  get v3 "status" = inr (Some (JString "completed")) ->
  get v3 "data" = inr X ->
  exists w',
    runs_to (waitForCompletion extractId) w (inr X) w'
    /\ requests (trace w') =
       (requests (trace w)
          ++ [status_check extractId; status_check extractId; status_check extractId])%list
    /\ fetched w' = fetched w + 3
    /\ trace w' =
       (trace w
          ++ [act (Fetch webhookUrl (status_check_request extractId));
              act (SetJobStatus (Some (JString "processing")));
              act (SetTimeout 2000);
              act (Fetch webhookUrl (status_check_request extractId));
              act (SetJobStatus (Some (JString "processing")));
              act (SetTimeout 2000);
              act (Fetch webhookUrl (status_check_request extractId));
              act (SetJobStatus (Some (JString "completed")))])%list
    /\ status_check extractId =
       (webhookUrl,
        {| method := "POST";
           headers := [("Content-Type", "application/json")];
           body := JSON_stringify
                     (JObject (("action", JString "status_check")
                                 :: match extractId with
                                    | Some id => [("extract_id", id)]
                                    | None => []
                                    end)) |})
    /\ (forall id, extractId = Some id -> wf_json id ->
          JSON_parse (body (snd (status_check extractId))) =
          Some (JObject [("action", JString "status_check"); ("extract_id", id)])).
Proof.
  intros Hb1 Hs1 Hb2 Hs2 Hb3 Hs3 Hd.
  destruct (wait_processing_processing_completed extractId w v1 v2 v3 X
              Hb1 Hs1 Hb2 Hs2 Hb3 Hs3 Hd) as [w' [Hrun [Hreq [Hfetched Htrace]]]].
  exists w'. do 4 (split; [assumption|]). split.
  - unfold status_check, status_check_request. destruct extractId; reflexivity.
  - intros id -> Hwf.
    apply (JSON_parse_stringify
             (JObject [("action", JString "status_check"); ("extract_id", id)])).
    cbn. repeat split; try exact I; try exact Hwf.
    repeat constructor; cbn; intuition discriminate.
Qed.

(* ===================================================================== *)
(** * The results display                                                 *)
(* ===================================================================== *)


(* ===================================================================== *)
(** * The properties on sample environments                               *)
(* ===================================================================== *)

(** C1 on a sample: two answers [processing], then [completed] with two
    articles, for the job [job-1]; the text of the body of each request,
    and what [JSON.parse] reads from it. *)
Lemma waitForCompletion_processing_processing_completed_witness :
  exists w',
    runs_to (waitForCompletion Samples.job)
      (Samples.world [Samples.processing; Samples.processing;
                      Samples.completed Samples.articles])
      (inr (Some Samples.articles)) w'
    /\ requests (trace w') =
       [status_check Samples.job; status_check Samples.job; status_check Samples.job]
    /\ fetched w' = 3
    /\ body (snd (status_check Samples.job)) =
       "{" ++ quote "action" ++ ":" ++ quote "status_check" ++ ","
           ++ quote "extract_id" ++ ":" ++ quote "job-1" ++ "}"
    /\ JSON_parse (body (snd (status_check Samples.job))) =
       Some (JObject [("action", JString "status_check");
                      ("extract_id", JString "job-1")]).
Proof.
  destruct (waitForCompletion_processing_processing_completed Samples.job
              (Samples.world [Samples.processing; Samples.processing;
                              Samples.completed Samples.articles])
              Samples.processing Samples.processing (Samples.completed Samples.articles)
              (Some Samples.articles)
              eq_refl eq_refl eq_refl eq_refl eq_refl eq_refl eq_refl)
    as [w' [Hrun [Hreq [Hfetched [_ [Hcarried Hparse]]]]]].
  exists w'. do 3 (split; [assumption|]). split.
  - rewrite Hcarried. reflexivity.
  - exact (Hparse (JString "job-1") eq_refl I).
Defined.


(** C6 on samples: a webhook that answers [processing] for ever, and one
    that answers [processing] and then [completed]. *)
Lemma waitForCompletion_polls_until_terminal_witness :
  diverges (waitForCompletion Samples.job) Samples.stuck_world
  /\ (terminates (waitForCompletion Samples.job)
        (Samples.world [Samples.processing; Samples.completed Samples.articles])
      <-> exists n,
            ends_polling
              (network (Samples.world [Samples.processing;
                                       Samples.completed Samples.articles])
                 (0 + n)) = true).
Proof.
  split.
  - refine (proj1 (proj2 (proj2 (proj2 (waitForCompletion_polls_until_terminal
                                          Samples.job Samples.stuck_world))) _)).
    intros n. reflexivity.
  - refine (proj1 (proj2 (proj2 (waitForCompletion_polls_until_terminal Samples.job
                                   (Samples.world [Samples.processing;
                                                   Samples.completed Samples.articles]))))
              _).
    intros [|[|[|i]]]; reflexivity.
Defined.

(** C6 does not hold as stated: a webhook that answers every status check
    with 200 and the body [null].  No answer carries a terminal status and
    none is a transport failure, and yet the loop ends, on its first
    request: the read of [status] on [null] throws, and the [catch] of the
    loop throws the error again. *)
Lemma waitForCompletion_polls_until_terminal_counterexample :
  (forall n,
     transport_failure (network Samples.null_world (fetched Samples.null_world + n))
     = false
     /\ terminal_status
          (status_of (network Samples.null_world (fetched Samples.null_world + n)))
        = false)
  /\ ~ (exists n,
          ends_polling (network Samples.null_world (fetched Samples.null_world + n))
          = true)
  /\ terminates (waitForCompletion Samples.job) Samples.null_world
  /\ exists w',
       runs_to (waitForCompletion Samples.job) Samples.null_world
         (inl (Error "Cannot read properties of null (reading 'status')")) w'
       /\ requests (trace w') = [status_check Samples.job].
Proof.
  assert (Hrun : run 5 (waitForCompletion Samples.job) Samples.null_world
                 = Done (inl (Error "Cannot read properties of null (reading 'status')"))
                     (world_of (run 5 (waitForCompletion Samples.job) Samples.null_world))
                     (spare_of (run 5 (waitForCompletion Samples.job) Samples.null_world)))
    by (vm_compute; reflexivity).
  split; [intros n; split; reflexivity|].
  split; [intros [n Hn]; discriminate Hn|].
  split.
  - eexists. eexists. eexists. eexists. exact Hrun.
  - eexists. split; [eexists; eexists; exact Hrun|]. vm_compute. reflexivity.
Qed.

(** C2 on a sample: a URL without a scheme. *)
Lemma handleExtract_rejects_invalid_input_witness :
  rejects_without_request (handleExtract "example.com" Samples.prompt)
    (Samples.world [])
  /\ rejects_without_request (SingleRequest.handleExtract "example.com" Samples.prompt)
       (Samples.world []).
Proof.
  apply (handleExtract_rejects_invalid_input "example.com" Samples.prompt
           (Samples.world [])).
  right. right. exists (Error "Invalid URL"). reflexivity.
Defined.

(** The sample URL and prompt pass the guards. *)
Lemma validated_samples (answers : list JSON) :
  validated Samples.url Samples.prompt (Samples.world answers).
Proof. repeat split; discriminate. Defined.

(** C3 on a sample: the submission is answered [completed] with two
    articles. *)
Lemma handleExtract_completed_immediately_witness :
  exists w',
    runs_to (handleExtract Samples.url Samples.prompt)
      (Samples.world [Samples.completed Samples.articles]) tt w'
    /\ extractedData (ui w') = Some Samples.articles
    /\ error (ui w') = EmptyString
    /\ requests (trace w') = [submission Samples.url Samples.prompt]
    /\ fetched w' = 1
    /\ toasts (trace w') = [toast_extraction_complete].
Proof.
  exact (handleExtract_completed_immediately Samples.url Samples.prompt
           (Samples.world [Samples.completed Samples.articles])
           (Samples.completed Samples.articles) (Some Samples.articles)
           (validated_samples _) eq_refl eq_refl eq_refl eq_refl).
Defined.
(** C7 on a sample: [success] is false although the answer says
    [completed] and carries data. *)
Lemma handleExtract_submission_refused_witness :
  (exists w1,
     runs_to (handleExtract_try Samples.url Samples.prompt)
       (started Samples.url (Samples.world [Samples.refused]))
       (inl SubmissionError) w1)
  /\ exists w',
       runs_to (handleExtract Samples.url Samples.prompt)
         (Samples.world [Samples.refused]) tt w'
       /\ error (ui w') = "Failed to extract data: Failed to start extraction job"
       /\ extractedData (ui w') = null
       /\ requests (trace w') = [submission Samples.url Samples.prompt]
       /\ fetched w' = 1
       /\ toasts (trace w') =
          [toast_extraction_failed "Failed to start extraction job"].
Proof.
  exact (handleExtract_submission_refused Samples.url Samples.prompt
           (Samples.world [Samples.refused]) Samples.refused
           (validated_samples _) eq_refl eq_refl).
Defined.

(** C5 does not hold as stated: an answer with [success] true, [status]
    [processing], no [extract_id], and two articles for [data].  The result
    stored is the [data], not the whole answer. *)
Lemma handleExtract_fallback_counterexample :
  validated Samples.url Samples.prompt (Samples.world [Samples.synchronous])
  /\ body_of (network (Samples.world [Samples.synchronous]) 0) = Some Samples.synchronous
  /\ get Samples.synchronous "success" = inr (Some (JBool true))
  /\ get Samples.synchronous "status" = inr (Some (JString "processing"))
  /\ get Samples.synchronous "extract_id" = inr undefined
  /\ runs_to (handleExtract Samples.url Samples.prompt)
       (Samples.world [Samples.synchronous]) tt (world_of Samples.synchronous_run)
  /\ requests (trace (world_of Samples.synchronous_run)) =
     [submission Samples.url Samples.prompt]
  /\ extractedData (ui (world_of Samples.synchronous_run)) = Some Samples.articles
  /\ extractedData (ui (world_of Samples.synchronous_run)) <> Some Samples.synchronous.
Proof.
  split; [apply validated_samples|].
  do 4 (split; [reflexivity|]).
  split; [exists 40, (spare_of Samples.synchronous_run); vm_compute; reflexivity|].
  split; [vm_compute; reflexivity|].
  split; [vm_compute; reflexivity|].
  vm_compute. discriminate.
Qed.

(** C5, as the code has it, on samples: an answer with data, whose data is
    stored, and one without, which is stored whole. *)
Lemma handleExtract_fallback_without_extract_id_witness :
  (exists w',
     runs_to (handleExtract Samples.url Samples.prompt)
       (Samples.world [Samples.synchronous]) tt w'
     /\ extractedData (ui w') = Some Samples.articles
     /\ (true = false -> extractedData (ui w') = Some Samples.synchronous)
     /\ error (ui w') = EmptyString
     /\ requests (trace w') = [submission Samples.url Samples.prompt]
     /\ fetched w' = 1
     /\ toasts (trace w') = [toast_extraction_complete])
  /\ (exists w',
        runs_to (handleExtract Samples.url Samples.prompt)
          (Samples.world [Samples.processing]) tt w'
        /\ extractedData (ui w') = Some Samples.processing
        /\ (false = false -> extractedData (ui w') = Some Samples.processing)
        /\ error (ui w') = EmptyString
        /\ requests (trace w') = [submission Samples.url Samples.prompt]
        /\ fetched w' = 1
        /\ toasts (trace w') = [toast_extraction_complete]).
Proof.
  split.
  - exact (handleExtract_fallback_without_extract_id Samples.url Samples.prompt
             (Samples.world [Samples.synchronous]) Samples.synchronous
             (Some (JString "processing")) (Some Samples.articles)
             (validated_samples _) eq_refl eq_refl eq_refl eq_refl eq_refl eq_refl).
  - exact (handleExtract_fallback_without_extract_id Samples.url Samples.prompt
             (Samples.world [Samples.processing]) Samples.processing
             (Some (JString "processing")) undefined
             (validated_samples _) eq_refl eq_refl eq_refl eq_refl eq_refl eq_refl).
Defined.

(** The sample runs end within forty steps. *)
Lemma run_polled_run :
  run 40 (handleExtract Samples.url Samples.prompt)
    (Samples.world [Samples.accepted; Samples.processing;
                    Samples.completed Samples.articles])
  = Done tt (world_of Samples.polled_run) (spare_of Samples.polled_run).
Proof. vm_compute. reflexivity. Defined.

Lemma run_failed_run :
  run 40 (handleExtract Samples.url Samples.prompt)
    (Samples.world [Samples.accepted; Samples.processing; Samples.failed])
  = Done tt (world_of Samples.failed_run) (spare_of Samples.failed_run).
Proof. vm_compute. reflexivity. Defined.

(** C9 on samples: a job polled to completion and a job that failed. *)
Lemma handleExtract_resets_loading_and_status_witness :
  (isLoading (ui (world_of Samples.polled_run)) = false
   /\ jobStatus (ui (world_of Samples.polled_run)) = Some (JString EmptyString))
  /\ (isLoading (ui (world_of Samples.failed_run)) = false
      /\ jobStatus (ui (world_of Samples.failed_run)) = Some (JString EmptyString)).
Proof.
  split.
  - exact (handleExtract_resets_loading_and_status Samples.url Samples.prompt _ _ _ _
             run_polled_run (or_introl (validated_samples _))).
  - exact (handleExtract_resets_loading_and_status Samples.url Samples.prompt _ _ _ _
             run_failed_run (or_introl (validated_samples _))).
Defined.

(** C10 on a sample: a job that failed. *)
Lemma handleExtract_error_leaves_no_result_witness :
  error (ui (world_of Samples.failed_run)) = "Failed to extract data: Extraction job failed"
  /\ extractedData (ui (world_of Samples.failed_run)) = null
  /\ (error (ui (world_of Samples.failed_run)) = EmptyString
      \/ extractedData (ui (world_of Samples.failed_run)) = null).
Proof.
  destruct (handleExtract_error_leaves_no_result Samples.url Samples.prompt _ _ _ _
              (validated_samples _) run_failed_run)
    as [outcome [w1 [rest [_ [_ [_ Hnever]]]]]].
  split; [vm_compute; reflexivity|]. split; [vm_compute; reflexivity|]. exact Hnever.
Defined.




(* ===================================================================== *)
(** * The component without polling, from request to result               *)
(* ===================================================================== *)

Lemma transport_error_or_body (answer : JsError + Response) :
  (exists e, transport_error answer = Some e /\ body_of answer = None)
  \/ (exists v, transport_error answer = None /\ body_of answer = Some v).
Proof.
  unfold transport_error, body_of. destruct answer as [e | response]; [eauto|].
  destruct (ok response); cbn [negb]; [|eauto].
  destruct (json response) as [e | v]; eauto.
Qed.

Lemma run_single_request_validated (url prompt : string) (w : World) (fuel : nat) :
  validated url prompt w ->
  run (5 + fuel) (SingleRequest.handleExtract url prompt) w =
  match run fuel (SingleRequest.handleExtract_try url prompt)
          (snd (handle (SetExtractedData null)
             (snd (handle (SetError EmptyString)
               (snd (handle (SetIsLoading true)
                 (snd (handle (NewURL url) (snd (handle PreventDefault w))))))))))
  with
  | Done outcome w1 spare =>
    run spare
      (ITree.bind
         match outcome with
         | inl error => handleExtract_catch error
         | inr _ => Ret tt
         end
         (fun _ => ITree.trigger (SetIsLoading false))) w1
  | Running w1 => Running w1
  end.
Proof.
  intros [Hu [Hp Hparsed]]. unfold SingleRequest.handleExtract.
  simpl plus. rewrite run_bind, run_trigger, (guards_pass _ _ Hu Hp).
  rewrite run_bind, run_trigger.
  replace (fst (handle (NewURL url) (snd (handle PreventDefault w))))
    with (@inr JsError unit tt) by (symmetry; exact Hparsed).
  do 3 (rewrite run_bind, run_trigger).
  rewrite run_bind. reflexivity.
Qed.

(** X1.  Without polling, a response that is [ok] and whose body is JSON is
    the result, whatever it says ([success] false, a [status] of failure):
    [handleExtract] stores the body itself, announces the completion, and
    ends with [isLoading] false and no error, after one request. *)
Theorem single_request_stores_the_body (url prompt : string) (w : World) (v : JSON) :
  validated url prompt w ->
  body_of (network w (fetched w)) = Some v ->
  exists w',
    runs_to (SingleRequest.handleExtract url prompt) w tt w'
    /\ extractedData (ui w') = Some v
    /\ error (ui w') = EmptyString
    /\ isLoading (ui w') = false
    /\ requests (trace w') = (requests (trace w) ++ [submission url prompt])%list
    /\ toasts (trace w') = (toasts (trace w) ++ [toast_extraction_complete])%list.
Proof.
  intros Hv Hb. destruct (body_of_inv _ _ Hb) as [response [Ha [Hok Hj]]].
  eexists. split.
  - exists (5 + 4). eexists.
    rewrite (run_single_request_validated _ _ _ _ Hv).
    unfold SingleRequest.handleExtract_try. unfold_js.
    repeat first [ progress world_simpl | run_step | rewrite Ha | rewrite Hok
                 | rewrite Hj ].
    reflexivity.
  - ui_simpl. rewrite <- !app_assoc, !requests_app, !toasts_app.
    cbn [requests toasts app act]. rewrite ?app_nil_r. repeat split.
Qed.

(** X2.  Without polling, a request that fails (rejected, answered with a
    status that is not [ok], or with a body that is not JSON) ends
    [handleExtract] with the message of that failure in [error] and in a
    destructive toast, [extractedData] null and [isLoading] false, after
    one request: nothing is tried again. *)
Theorem single_request_reports_the_failure (url prompt : string) (w : World)
    (e : JsError) :
  validated url prompt w ->
  transport_error (network w (fetched w)) = Some e ->
  exists w',
    runs_to (SingleRequest.handleExtract url prompt) w tt w'
    /\ extractedData (ui w') = null
    /\ error (ui w') = failure_text e
    /\ isLoading (ui w') = false
    /\ requests (trace w') = (requests (trace w) ++ [submission url prompt])%list
    /\ toasts (trace w') =
       (toasts (trace w) ++ [toast_extraction_failed (message e)])%list.
Proof.
  intros Hv He. eexists. split.
  - exists (5 + 4). eexists.
    rewrite (run_single_request_validated _ _ _ _ Hv).
    unfold SingleRequest.handleExtract_try, handleExtract_catch. unfold_js.
    unfold transport_error in He.
    destruct (network w (fetched w)) as [e0 | response] eqn:Ha.
    + inversion He; subst e0.
      repeat first [ progress world_simpl | run_step | rewrite Ha ]. reflexivity.
    + destruct (ok response) eqn:Hok; cbn [negb] in He.
      * destruct (json response) as [e0 | v] eqn:Hj; [|discriminate].
        inversion He; subst e0.
        repeat first [ progress world_simpl | run_step | rewrite Ha | rewrite Hok
                     | rewrite Hj ].
        reflexivity.
      * inversion He; subst e.
        repeat first [ progress world_simpl | run_step | rewrite Ha | rewrite Hok ].
        reflexivity.
  - unfold failure_text. ui_simpl. rewrite <- !app_assoc, !requests_app, !toasts_app.
    cbn [requests toasts app act]. rewrite ?app_nil_r. repeat split.
Qed.

(* ===================================================================== *)
(** * Submission and polling, end to end                                  *)
(* ===================================================================== *)

Lemma try_thrown_at_once (url prompt : string) (w : World) (e : JsError) :
  transport_error (network w (fetched w)) = Some e ->
  runs_to (handleExtract_try url prompt) w (inl e) (after_submission url prompt w).
Proof.
  intros He. exists 1. unfold handleExtract_try, after_submission. unfold_js.
  unfold transport_error in He.
  destruct (network w (fetched w)) as [e0 | response] eqn:Ha.
  - inversion He; subst e0.
    repeat first [ progress world_simpl | run_step | rewrite Ha ]. eauto.
  - destruct (ok response) eqn:Hok; cbn [negb] in He.
    + destruct (json response) as [e0 | v] eqn:Hj; [|discriminate].
      inversion He; subst e0.
      repeat first [ progress world_simpl | run_step | rewrite Ha | rewrite Hok
                   | rewrite Hj ].
      eauto.
    + inversion He; subst e.
      repeat first [ progress world_simpl | run_step | rewrite Ha | rewrite Hok ].
      eauto.
Qed.

(** The [try] block on an answer that starts a job: it ends as the polling
    loop does, with the result stored when the loop returned one. *)
Lemma try_polled (url prompt : string) (w w2 : World) (v : JSON)
    (success status extract_id : JsValue) (r : JsError + JsValue) :
  body_of (network w (fetched w)) = Some v ->
  get v "success" = inr success -> truthy success = true ->
  get v "status" = inr status -> (status === "completed") = false ->
  get v "extract_id" = inr extract_id -> truthy extract_id = true ->
  runs_to (waitForCompletion extract_id) (after_submission url prompt w) r w2 ->
  runs_to (handleExtract_try url prompt) w
    match r with inl e => inl e | inr _ => inr tt end
    match r with inl _ => w2 | inr finalData => after_success finalData w2 end.
Proof.
  intros Hb Hsuccess Htruthy Hstatus Hnot Hid Hpoll [n [s Hn]].
  destruct (body_of_inv _ _ Hb) as [response [Ha [Hok Hj]]].
  apply run_more with (extra := 2) in Hn.
  rewrite (Nat.add_comm s 2) in Hn. cbn [Nat.add] in Hn.
  exists (1 + (n + 2)). unfold handleExtract_try, after_success. unfold_js.
  unfold after_submission in Hn.
  repeat first [ progress world_simpl | run_step | rewrite Ha | rewrite Hok
               | rewrite Hj | rewrite Hsuccess | rewrite Htruthy | rewrite Hstatus
               | rewrite Hnot | rewrite Hid | rewrite Hpoll ].
  revert Hn. world_simpl. intros Hn. rewrite Hn.
  destruct r as [e | finalData]; repeat first [ progress world_simpl | run_step ]; eauto.
Qed.

Lemma polled_only_after_pending_passes (extractId : JsValue) (n : nat) :
  forall w, polled_only w (after_pending_passes extractId n w).
Proof.
  induction n as [|n IH]; intros w; [apply polled_only_refl|].
  cbn [after_pending_passes]. eapply polled_only_trans; [|apply IH].
  unfold after_pending_pass.
  repeat first
    [ apply polled_only_handle; reflexivity
    | eapply polled_only_trans; [|apply polled_only_handle; reflexivity] ].
Qed.

(** The pass that ends the loop adds its request and no pause. *)
Lemma after_pass_stopped (extractId : JsValue) (w : World) :
  keeps_polling (network w (fetched w)) = false ->
  requests (trace (after_pass extractId w)) =
  (requests (trace w) ++ [status_check extractId])%list
  /\ pauses (trace (after_pass extractId w)) = pauses (trace w).
Proof.
  unfold keeps_polling, after_pass, after_status_check, after_pending_pass, status_of.
  destruct (body_of (network w (fetched w))) as [[ | b | lit | s | items | props ]|];
    cbn [get terminal_status strict_eq_string orb negb]; try discriminate;
    try (intros _; world_simpl; rewrite requests_app, pauses_app;
         cbn [requests pauses act]; rewrite ?app_nil_r; split; reflexivity).
  destruct (terminal_status (lookup "status" props)); [|discriminate].
  intros _. world_simpl. rewrite <- !app_assoc, requests_app, pauses_app.
  cbn [requests pauses act app]. rewrite ?app_nil_r. split; reflexivity.
Qed.

(** What can be seen after [n] passes that polled again and the pass that
    ended the loop. *)
Lemma polling_observed (extractId : JsValue) (n : nat) (w : World) :
  keeps_polling
    (network (after_pending_passes extractId n w)
       (fetched (after_pending_passes extractId n w))) = false ->
  let w' := after_pass extractId (after_pending_passes extractId n w) in
  polled_only w w'
  /\ fetched w' = fetched w + S n
  /\ requests (trace w') =
     (requests (trace w) ++ repeat (status_check extractId) (S n))%list
  /\ pauses (trace w') = (pauses (trace w) ++ repeat 2000%Z n)%list.
Proof.
  intros Hstop. cbv zeta.
  destruct (polled_only_after_pass extractId (after_pending_passes extractId n w))
    as [Hpass Hfetched].
  destruct (after_pass_stopped extractId _ Hstop) as [Hreq Hpause].
  split; [eapply polled_only_trans; [apply polled_only_after_pending_passes|exact Hpass]|].
  rewrite Hfetched, Hreq, Hpause, after_pending_passes_fetched,
    after_pending_passes_trace.
  rewrite requests_app, pauses_app, requests_polling_trace, pauses_polling_trace,
    next_statuses_length.
  split; [lia|]. split; [|reflexivity].
  rewrite <- app_assoc. f_equal. symmetry.
  apply (repeat_cons n (status_check extractId)).
Qed.

Lemma keeps_polling_false_of_transport_error (answer : JsError + Response)
    (e : JsError) :
  transport_error answer = Some e ->
  keeps_polling answer = false /\ pass_result answer = inl e.
Proof.
  unfold transport_error, keeps_polling, pass_result, body_of.
  destruct answer as [e0 | response]; [intros H; inversion H; auto|].
  destruct (ok response); cbn [negb]; [|intros H; inversion H; auto].
  destruct (json response) as [e0 | v]; [intros H; inversion H; auto|discriminate].
Qed.

(** X3.  A status check that fails in transport (rejected, answered with a
    status that is not [ok], or with a body that is not JSON) ends
    [waitForCompletion] at once with that error: after [n] passes that
    polled again, [n + 1] status checks were issued and [n] pauses made;
    the failed check is not tried again and shows no status. *)
Theorem waitForCompletion_transport_failure (extractId : JsValue) (w : World)
    (n : nat) (e : JsError) :
  (forall i, i < n -> keeps_polling (network w (fetched w + i)) = true) ->
  transport_error (network w (fetched w + n)) = Some e ->
  exists w',
    runs_to (waitForCompletion extractId) w (inl e) w'
    /\ requests (trace w') =
       (requests (trace w) ++ repeat (status_check extractId) (S n))%list
    /\ pauses (trace w') = (pauses (trace w) ++ repeat 2000%Z n)%list
    /\ trace w' =
       (trace w ++ polling_trace extractId (next_statuses n w)
          ++ [act (Fetch webhookUrl (status_check_request extractId))])%list.
Proof.
  intros Hpending He.
  set (wn := after_pending_passes extractId n w).
  assert (Hnet : network wn (fetched wn) = network w (fetched w + n)).
  { unfold wn. rewrite after_pending_passes_network, after_pending_passes_fetched.
    reflexivity. }
  rewrite <- Hnet in He.
  destruct (keeps_polling_false_of_transport_error _ _ He) as [Hstop Hres].
  destruct (polling_observed extractId n w Hstop) as [_ [_ [Hreq Hpause]]].
  exists (after_pass extractId wn).
  split; [eapply runs_to_wait_after_pending; [exact Hpending|];
          apply runs_to_wait_thrown; exact Hres|].
  split; [exact Hreq|]. split; [exact Hpause|].
  assert (Hbody : body_of (network wn (fetched wn)) = None).
  { destruct (transport_error_or_body (network wn (fetched wn)))
      as [[e' [_ Hnone]] | [v [Hsome _]]]; congruence. }
  unfold after_pass. rewrite Hbody. world_simpl.
  fold wn. unfold wn. rewrite after_pending_passes_trace, <- app_assoc. reflexivity.
Qed.

Lemma finished_observed (outcome : JsError + unit) (w : World) :
  requests (trace (finished outcome w)) = requests (trace w)
  /\ pauses (trace (finished outcome w)) = pauses (trace w)
  /\ toasts (trace (finished outcome w)) =
     (toasts (trace w)
        ++ match outcome with
           | inl e => [toast_extraction_failed (message e)]
           | inr _ => []
           end)%list.
Proof.
  rewrite finished_trace, !requests_app, !pauses_app, !toasts_app.
  destruct outcome as [e | []]; cbn [requests pauses toasts act app];
    rewrite ?app_nil_r; repeat split.
Qed.

Lemma started_observed (url : string) (w : World) :
  requests (trace (started url w)) = requests (trace w)
  /\ pauses (trace (started url w)) = pauses (trace w)
  /\ toasts (trace (started url w)) = toasts (trace w).
Proof.
  rewrite started_trace, requests_app, pauses_app, toasts_app.
  cbn [requests pauses toasts act]. rewrite ?app_nil_r. repeat split.
Qed.

Lemma after_submission_observed (url prompt : string) (w : World) :
  requests (trace (after_submission url prompt w)) =
  (requests (trace w) ++ [submission url prompt])%list
  /\ pauses (trace (after_submission url prompt w)) = pauses (trace w)
  /\ toasts (trace (after_submission url prompt w)) = toasts (trace w).
Proof.
  unfold after_submission. world_simpl. rewrite requests_app, pauses_app, toasts_app.
  cbn [requests pauses toasts act]. rewrite ?app_nil_r. repeat split.
Qed.

Lemma after_success_observed (v : JsValue) (w : World) :
  requests (trace (after_success v w)) = requests (trace w)
  /\ pauses (trace (after_success v w)) = pauses (trace w)
  /\ toasts (trace (after_success v w)) =
     (toasts (trace w) ++ [toast_extraction_complete])%list.
Proof.
  unfold after_success. world_simpl.
  rewrite <- app_assoc, requests_app, pauses_app, toasts_app.
  cbn [requests pauses toasts act app]. rewrite ?app_nil_r. repeat split.
Qed.

(** What a run of [handleExtract] on a started job shows, from the way its
    polling loop ended after [n] passes that polled again. *)
Lemma handleExtract_polled (url prompt : string) (w : World) (v : JSON)
    (success status extract_id : JsValue) (n : nat) (r : JsError + JsValue) :
  validated url prompt w ->
  body_of (network w (fetched w)) = Some v ->
  get v "success" = inr success -> truthy success = true ->
  get v "status" = inr status -> (status === "completed") = false ->
  get v "extract_id" = inr extract_id -> truthy extract_id = true ->
  (forall i, i < n -> keeps_polling (network w (S (fetched w) + i)) = true) ->
  keeps_polling (network w (S (fetched w) + n)) = false ->
  match r with
  | inl e => pass_result (network w (S (fetched w) + n)) = inl e
  | inr data => pass_result (network w (S (fetched w) + n)) = inr (Return data)
  end ->
  exists w',
    runs_to (handleExtract url prompt) w tt w'
    /\ isLoading (ui w') = false
    /\ extractedData (ui w') = match r with inl _ => null | inr data => data end
    /\ error (ui w') =
       match r with inl e => failure_text e | inr _ => EmptyString end
    /\ requests (trace w') =
       (requests (trace w)
          ++ submission url prompt :: repeat (status_check extract_id) (S n))%list
    /\ pauses (trace w') = (pauses (trace w) ++ repeat 2000%Z n)%list
    /\ toasts (trace w') =
       (toasts (trace w)
          ++ [match r with
              | inl e => toast_extraction_failed (message e)
              | inr _ => toast_extraction_complete
              end])%list.
Proof.
  intros Hv Hb Hsuccess Htruthy Hstatus Hnot Hid Hpoll Hpending Hstop Hres.
  set (w1 := after_submission url prompt (started url w)).
  set (wn := after_pending_passes extract_id n w1).
  assert (Hnet : network wn (fetched wn) = network w (S (fetched w) + n)).
  { unfold wn. rewrite after_pending_passes_network, after_pending_passes_fetched.
    reflexivity. }
  rewrite <- Hnet in Hstop, Hres.
  destruct (polling_observed extract_id n w1 Hstop)
    as [[_ [_ [_ [Hl [He [Hd _]]]]]] [_ [Hreq Hpause]]].
  fold wn in Hl, He, Hd, Hreq, Hpause.
  assert (Hwait : runs_to (waitForCompletion extract_id) w1 r (after_pass extract_id wn)).
  { eapply runs_to_wait_after_pending; [exact Hpending|].
    destruct r as [e | data];
      [apply runs_to_wait_thrown | apply runs_to_wait_returned]; exact Hres. }
  pose proof (try_polled url prompt (started url w) _ v _ _ _ r Hb Hsuccess Htruthy
                Hstatus Hnot Hid Hpoll Hwait) as Htry.
  pose proof (runs_to_handleExtract url prompt w _ _ Hv Htry) as Hrun.
  destruct (polled_only_after_pass extract_id wn) as [[_ [_ [_ [_ [_ [_ [added [Ht [_ Hs]]]]]]]]] _].
  assert (Htoasts : toasts (trace (after_pass extract_id wn)) = toasts (trace w)).
  { destruct (polled_only_trans _ _ _ (polled_only_after_pending_passes extract_id n w1)
                (proj1 (polled_only_after_pass extract_id wn)))
      as [_ [_ [_ [_ [_ [_ [added' [Ht' [_ Hs']]]]]]]]].
    rewrite Ht', toasts_app, Hs', app_nil_r.
    unfold w1. rewrite (proj2 (proj2 (after_submission_observed _ _ _))).
    apply started_observed. }
  assert (Hreq' : requests (trace (after_pass extract_id wn)) =
                  (requests (trace w)
                     ++ submission url prompt :: repeat (status_check extract_id) (S n))%list).
  { rewrite Hreq. unfold w1. rewrite (proj1 (after_submission_observed _ _ _)).
    rewrite (proj1 (started_observed _ _)), <- app_assoc. reflexivity. }
  assert (Hpause' : pauses (trace (after_pass extract_id wn)) =
                    (pauses (trace w) ++ repeat 2000%Z n)%list).
  { rewrite Hpause. unfold w1.
    rewrite (proj1 (proj2 (after_submission_observed _ _ _))).
    rewrite (proj1 (proj2 (started_observed _ _))). reflexivity. }
  eexists. split; [exact Hrun|].
  rewrite finished_ui.
  destruct (finished_observed
              match r with inl e => inl e | inr _ => inr tt end
              match r with
              | inl _ => after_pass extract_id wn
              | inr finalData => after_success finalData (after_pass extract_id wn)
              end) as [Hfr [Hfp Hft]].
  rewrite Hfr, Hfp, Hft. cbn [isLoading extractedData error].
  destruct r as [e | data].
  - rewrite Hd, Hreq', Hpause', Htoasts. repeat split.
  - destruct (after_success_observed data (after_pass extract_id wn)) as [Hsr [Hsp Hst]].
    rewrite Hsr, Hsp, Hst, Hreq', Hpause', Htoasts, app_nil_r.
    unfold after_success. ui_simpl. rewrite He. repeat split.
Qed.

(** X4.  A submission that fails in transport (rejected, answered with a
    status that is not [ok], or with a body that is not JSON) ends
    [handleExtract] with the message of that failure in [error] and in a
    destructive toast, no result, [isLoading] false, and no status check:
    the submission is its only request. *)
Theorem handleExtract_submission_transport_failure (url prompt : string) (w : World)
    (e : JsError) :
  validated url prompt w ->
  transport_error (network w (fetched w)) = Some e ->
  exists w',
    runs_to (handleExtract url prompt) w tt w'
    /\ isLoading (ui w') = false
    /\ extractedData (ui w') = null
    /\ error (ui w') = failure_text e
    /\ requests (trace w') = (requests (trace w) ++ [submission url prompt])%list
    /\ toasts (trace w') =
       (toasts (trace w) ++ [toast_extraction_failed (message e)])%list.
Proof.
  intros Hv He.
  pose proof (try_thrown_at_once url prompt (started url w) e He) as Htry.
  eexists. split; [eapply runs_to_handleExtract; [exact Hv | exact Htry]|].
  rewrite finished_ui.
  destruct (finished_observed (inl e) (after_submission url prompt (started url w)))
    as [Hfr [_ Hft]].
  destruct (after_submission_observed url prompt (started url w)) as [Hsr [_ Hst]].
  destruct (started_observed url w) as [Hr [_ Ht]].
  rewrite Hfr, Hft, Hsr, Hst, Hr, Ht. repeat split.
Qed.

(** X5.  When the answer to the submission starts a job ([success] truthy,
    a [status] other than [completed], a truthy [extract_id]), the next [n]
    answers carry non-terminal statuses and the one after them is
    [completed] with data [X], [handleExtract] ends with [X] as the result:
    it has sent the submission and then [n + 1] status checks, all of the
    [extract_id] of the first answer, paused [n] times for 2000 ms, and
    announced the completion once. *)
Theorem handleExtract_polls_to_completion (url prompt : string) (w : World)
    (v final : JSON) (success status extract_id X : JsValue) (n : nat) :
  validated url prompt w ->
  body_of (network w (fetched w)) = Some v ->
  get v "success" = inr success -> truthy success = true ->
  get v "status" = inr status -> (status === "completed") = false ->
  get v "extract_id" = inr extract_id -> truthy extract_id = true ->
  (forall i, i < n -> keeps_polling (network w (S (fetched w) + i)) = true) ->
  body_of (network w (S (fetched w) + n)) = Some final ->
  get final "status" = inr (Some (JString "completed")) ->
  get final "data" = inr X ->
  exists w',
    runs_to (handleExtract url prompt) w tt w'
    /\ isLoading (ui w') = false
    /\ extractedData (ui w') = X
    /\ error (ui w') = EmptyString
    /\ requests (trace w') =
       (requests (trace w)
          ++ submission url prompt :: repeat (status_check extract_id) (S n))%list
    /\ pauses (trace w') = (pauses (trace w) ++ repeat 2000%Z n)%list
    /\ toasts (trace w') = (toasts (trace w) ++ [toast_extraction_complete])%list.
Proof.
  intros Hv Hb Hsuccess Htruthy Hstatus Hnot Hid Hpoll Hpending Hfinal Hcompleted Hdata.
  destruct (body_of_inv _ _ Hfinal) as [response [Ha [Hok Hj]]].
  apply (handleExtract_polled url prompt w v success status extract_id n (inr X));
    try assumption.
  - unfold keeps_polling. rewrite Hfinal, Hcompleted. reflexivity.
  - unfold pass_result. rewrite Ha, Hok, Hj, Hcompleted, Hdata. reflexivity.
Qed.

(** X6.  On a started job, an answer [failed] or [cancelled] to a status
    check ends [handleExtract] with [Extraction job failed] or [Extraction
    job was cancelled] in [error] and in a destructive toast and with no
    result, however many passes polled before; no completion is
    announced. *)
Theorem handleExtract_job_failed_or_cancelled (url prompt : string) (w : World)
    (v final : JSON) (success status extract_id : JsValue) (n : nat) :
  validated url prompt w ->
  body_of (network w (fetched w)) = Some v ->
  get v "success" = inr success -> truthy success = true ->
  get v "status" = inr status -> (status === "completed") = false ->
  get v "extract_id" = inr extract_id -> truthy extract_id = true ->
  (forall i, i < n -> keeps_polling (network w (S (fetched w) + i)) = true) ->
  body_of (network w (S (fetched w) + n)) = Some final ->
  (get final "status" = inr (Some (JString "failed")) ->
   exists w',
     runs_to (handleExtract url prompt) w tt w'
     /\ extractedData (ui w') = null
     /\ error (ui w') = "Failed to extract data: Extraction job failed"
     /\ requests (trace w') =
        (requests (trace w)
           ++ submission url prompt :: repeat (status_check extract_id) (S n))%list
     /\ toasts (trace w') =
        (toasts (trace w) ++ [toast_extraction_failed "Extraction job failed"])%list)
  /\
  (get final "status" = inr (Some (JString "cancelled")) ->
   exists w',
     runs_to (handleExtract url prompt) w tt w'
     /\ extractedData (ui w') = null
     /\ error (ui w') = "Failed to extract data: Extraction job was cancelled"
     /\ requests (trace w') =
        (requests (trace w)
           ++ submission url prompt :: repeat (status_check extract_id) (S n))%list
     /\ toasts (trace w') =
        (toasts (trace w)
           ++ [toast_extraction_failed "Extraction job was cancelled"])%list).
Proof.
  intros Hv Hb Hsuccess Htruthy Hstatus Hnot Hid Hpoll Hpending Hfinal.
  destruct (body_of_inv _ _ Hfinal) as [response [Ha [Hok Hj]]].
  split; intros Hs.
  - destruct (handleExtract_polled url prompt w v success status extract_id n
                (inl JobFailedError) Hv Hb Hsuccess Htruthy Hstatus Hnot Hid Hpoll
                Hpending)
      as [w' [Hrun [_ [Hd [He [Hr [_ Ht]]]]]]].
    + unfold keeps_polling. rewrite Hfinal, Hs. reflexivity.
    + unfold pass_result. rewrite Ha, Hok, Hj, Hs. reflexivity.
    + exists w'. auto.
  - destruct (handleExtract_polled url prompt w v success status extract_id n
                (inl JobCancelledError) Hv Hb Hsuccess Htruthy Hstatus Hnot Hid Hpoll
                Hpending)
      as [w' [Hrun [_ [Hd [He [Hr [_ Ht]]]]]]].
    + unfold keeps_polling. rewrite Hfinal, Hs. reflexivity.
    + unfold pass_result. rewrite Ha, Hok, Hj, Hs. reflexivity.
    + exists w'. auto.
Qed.

(* ===================================================================== *)
(** * The shape of every run                                              *)
(* ===================================================================== *)

Lemma after_pending_passes_snoc (extractId : JsValue) (n : nat) :
  forall w,
    after_pending_pass extractId (after_pending_passes extractId n w) =
    after_pending_passes extractId (S n) w.
Proof.
  induction n as [|n IH]; intros w; [reflexivity|].
  cbn [after_pending_passes] in *. rewrite IH. reflexivity.
Qed.

(** Whenever the polling loop ends, it ended at the first answer that did
    not ask to poll again. *)
Lemma waitForCompletion_stops_at_first (extractId : JsValue) (w : World) :
  ensures (waitForCompletion extractId) w
    (fun _ w' =>
       exists k,
         (forall i, i < k -> keeps_polling (network w (fetched w + i)) = true)
         /\ keeps_polling (network w (fetched w + k)) = false
         /\ w' = after_pass extractId (after_pending_passes extractId k w)).
Proof.
  apply (ensures_wait extractId
           (fun w1 => exists k,
              (forall i, i < k -> keeps_polling (network w (fetched w + i)) = true)
              /\ w1 = after_pending_passes extractId k w)).
  - intros w1 [k [Hpending ->]].
    assert (Hnet : network (after_pending_passes extractId k w)
                     (fetched (after_pending_passes extractId k w))
                   = network w (fetched w + k)).
    { rewrite after_pending_passes_network, after_pending_passes_fetched. reflexivity. }
    rewrite Hnet.
    destruct (pass_result (network w (fetched w + k))) as [e | [ | data]] eqn:Hres.
    + exists k. repeat split; [exact Hpending|].
      destruct (keeps_polling (network w (fetched w + k))) eqn:Hk; [|reflexivity].
      rewrite (pass_result_pending _ Hk) in Hres. discriminate.
    + exists (S k). split; [|apply after_pending_passes_snoc].
      intros i Hi. destruct (Nat.eq_dec i k) as [-> | Hne].
      * apply pass_result_continue. exact Hres.
      * apply Hpending. lia.
    + exists k. repeat split; [exact Hpending|].
      destruct (keeps_polling (network w (fetched w + k))) eqn:Hk; [|reflexivity].
      rewrite (pass_result_pending _ Hk) in Hres. discriminate.
  - exists 0. split; [intros i Hi; lia | reflexivity].
Qed.

(** X7.  Whenever [waitForCompletion] ends, whatever the webhook answered,
    it ended on the first answer that did not carry a non-terminal status:
    with [k] answers before it, the loop has issued [k + 1] requests, each
    the status check of the same [extract_id], and paused [k] times for
    2000 ms, that is after every check but the last and never before the
    first. *)
Theorem waitForCompletion_requests_and_pauses (extractId : JsValue) (w w' : World)
    (r : JsError + JsValue) (fuel spare : nat) :
  run fuel (waitForCompletion extractId) w = Done r w' spare ->
  exists k,
    (forall i, i < k -> keeps_polling (network w (fetched w + i)) = true)
    /\ keeps_polling (network w (fetched w + k)) = false
    /\ fetched w' = fetched w + S k
    /\ requests (trace w') =
       (requests (trace w) ++ repeat (status_check extractId) (S k))%list
    /\ pauses (trace w') = (pauses (trace w) ++ repeat 2000%Z k)%list.
Proof.
  intros Hrun.
  destruct (waitForCompletion_stops_at_first extractId w _ _ _ _ Hrun)
    as [k [Hpending [Hstop ->]]].
  exists k. split; [exact Hpending|]. split; [exact Hstop|].
  apply polling_observed.
  rewrite after_pending_passes_network, after_pending_passes_fetched. exact Hstop.
Qed.

Lemma shape_at_once (url prompt : string) (w : World) :
  submission_then_polls url prompt w (after_submission url prompt w).
Proof.
  left. destruct (after_submission_observed url prompt w) as [Hr [Hp _]]. auto.
Qed.

Lemma shape_success_at_once (url prompt : string) (w : World) (v : JsValue) :
  submission_then_polls url prompt w (after_success v (after_submission url prompt w)).
Proof.
  left. destruct (after_submission_observed url prompt w) as [Hr [Hp _]].
  destruct (after_success_observed v (after_submission url prompt w)) as [Hsr [Hsp _]].
  rewrite Hsr, Hsp. auto.
Qed.

Lemma shape_polled (url prompt : string) (w : World) (v : JSON) (extract_id : JsValue)
    (k : nat) :
  body_of (network w (fetched w)) = Some v ->
  get v "extract_id" = inr extract_id -> truthy extract_id = true ->
  keeps_polling (network w (S (fetched w) + k)) = false ->
  submission_then_polls url prompt w
    (after_pass extract_id
       (after_pending_passes extract_id k (after_submission url prompt w))).
Proof.
  intros Hb Hid Htruthy Hstop. right. exists v, extract_id, k.
  destruct (polling_observed extract_id k (after_submission url prompt w))
    as [_ [Hf [Hr Hp]]].
  { rewrite after_pending_passes_network, after_pending_passes_fetched. exact Hstop. }
  destruct (after_submission_observed url prompt w) as [Hsr [Hsp _]].
  rewrite Hr, Hp, Hf, Hsr, Hsp, <- app_assoc. repeat split; auto.
Qed.

Lemma shape_after_success (url prompt : string) (w w' : World) (v : JsValue) :
  submission_then_polls url prompt w w' ->
  submission_then_polls url prompt w (after_success v w').
Proof.
  destruct (after_success_observed v w') as [Hsr [Hsp _]].
  intros [[Hr [Hp Hf]] | [v0 [eid [k [Hb [Hid [Ht [Hr [Hp Hf]]]]]]]]].
  - left. rewrite Hsr, Hsp. auto.
  - right. exists v0, eid, k. rewrite Hsr, Hsp. auto 10.
Qed.

Lemma ensures_try_shape (url prompt : string) (w : World) :
  ensures (handleExtract_try url prompt) w
    (fun _ w' => submission_then_polls url prompt w w').
Proof.
  unfold handleExtract_try. unfold_js.
  apply ensures_bind, ensures_trigger. world_simpl.
  fold (after_submission url prompt w).
  destruct (network w (fetched w)) as [e | response] eqn:Ha;
    [apply ensures_ret, shape_at_once|].
  destruct (ok response) eqn:Hok; cbn [negb];
    [|apply ensures_ret, shape_at_once].
  apply ensures_bind, ensures_ret.
  destruct (json response) as [e | v] eqn:Hj;
    [apply ensures_ret, shape_at_once|].
  assert (Hb : body_of (network w (fetched w)) = Some v)
    by (unfold body_of; rewrite Ha, Hok, Hj; reflexivity).
  apply ensures_bind, ensures_ret.
  destruct (get v "success") as [e | success] eqn:Hsuccess;
    [apply ensures_ret, shape_at_once|].
  destruct (truthy success) eqn:Htruthy; cbn [negb];
    [|apply ensures_ret, shape_at_once].
  apply ensures_bind, ensures_ret.
  destruct (get v "status") as [e | status] eqn:Hstatus;
    [apply ensures_ret, shape_at_once|].
  assert (Hfield : forall name, exists x, get v name = inr x).
  { intros name. destruct v; cbn [get] in *; try discriminate; eauto. }
  destruct (Hfield "data") as [data Hdata].
  destruct (Hfield "extract_id") as [extract_id Hid].
  destruct (status === "completed") eqn:Hcompleted.
  - apply ensures_bind, ensures_ret. rewrite Hdata.
    apply ensures_bind, ensures_bind, ensures_trigger, ensures_ret.
    apply ensures_bind, ensures_trigger, ensures_ret.
    apply shape_success_at_once.
  - apply ensures_bind, ensures_ret. rewrite Hid.
    destruct (truthy extract_id) eqn:Hpoll.
    + apply ensures_bind.
      eapply ensures_weaken; [apply waitForCompletion_stops_at_first|].
      intros r w2 [k [_ [Hstop ->]]].
      pose proof (shape_polled url prompt w v extract_id k Hb Hid Hpoll Hstop) as Hshape.
      destruct r as [e | finalData]; [apply ensures_ret; exact Hshape|].
      apply ensures_bind, ensures_bind, ensures_trigger, ensures_ret.
      apply ensures_bind, ensures_trigger, ensures_ret.
      apply (shape_after_success _ _ _ _ finalData Hshape).
    + apply ensures_bind, ensures_ret. rewrite Hdata.
      apply ensures_bind, ensures_bind, ensures_trigger, ensures_ret.
      apply ensures_bind, ensures_trigger, ensures_ret.
      apply shape_success_at_once.
Qed.

(** X8.  Every complete run of [handleExtract] that passed the guards,
    whatever the webhook answered and however the run ended, sent the
    submission first and after it nothing but status checks: either none,
    or [k + 1] of them, all to the same URL with the [extract_id] of the
    first answer, with [k] pauses of 2000 ms. *)
Theorem handleExtract_requests_of_a_run (url prompt : string) (w w' : World)
    (fuel spare : nat) :
  validated url prompt w ->
  run fuel (handleExtract url prompt) w = Done tt w' spare ->
  submission_then_polls url prompt w w'.
Proof.
  intros Hv Hrun.
  destruct (handleExtract_inv _ _ _ _ _ _ Hv Hrun) as [outcome [w1 [[n [s Htry]] [_ ->]]]].
  pose proof (ensures_try_shape url prompt (started url w) _ _ _ _ Htry) as Hshape.
  destruct (finished_observed outcome w1) as [Hfr [Hfp _]].
  destruct (started_observed url w) as [Hr [Hp _]].
  assert (Hff : fetched (finished outcome w1) = fetched w1)
    by (destruct outcome as [e | []]; reflexivity).
  destruct Hshape as [[Hreq [Hpause Hf]] | [v [eid [k [Hb [Hid [Ht [Hreq [Hpause Hf]]]]]]]]].
  - left. rewrite Hfr, Hfp, Hff, Hreq, Hpause, Hr, Hp. auto.
  - right. exists v, eid, k. rewrite Hfr, Hfp, Hff, Hreq, Hpause, Hr, Hp. auto 10.
Qed.

(* ===================================================================== *)
(** * One toast for every attempt                                         *)
(* ===================================================================== *)

Ltac guard_toast :=
  rewrite toasts_show; rewrite ?toasts_handle by reflexivity; reflexivity.

(** X9.  Every complete run of [handleExtract] shows exactly one toast:
    one of the two reports of the guards, [Extraction Complete] with no
    error left on the page, or [Extraction Failed] whose description is
    the message the error card shows after its fixed prefix. *)
Theorem handleExtract_shows_one_toast (url prompt : string) (w w' : World)
    (fuel spare : nat) :
  run fuel (handleExtract url prompt) w = Done tt w' spare ->
  exists t,
    toasts (trace w') = (toasts (trace w) ++ [t])%list
    /\ ((InvalidInputError t /\ ui w' = ui w)
        \/ (t = toast_extraction_complete /\ error (ui w') = EmptyString)
        \/ (exists e, t = toast_extraction_failed (message e)
                      /\ error (ui w') = failure_text e)).
Proof.
  intros Hrun.
  destruct (string_dec url EmptyString) as [Hu | Hu];
    [|destruct (string_dec prompt EmptyString) as [Hp | Hp]].
  - destruct (run_handleExtract_missing url prompt w 0 (or_introl Hu)) as [Hn _].
    destruct (run_deterministic _ _ _ _ _ _ _ _ _ _ Hn Hrun) as [_ <-].
    exists toast_missing_information. split; [guard_toast|].
    left. split; [left|]; reflexivity.
  - destruct (run_handleExtract_missing url prompt w 0 (or_intror Hp)) as [Hn _].
    destruct (run_deterministic _ _ _ _ _ _ _ _ _ _ Hn Hrun) as [_ <-].
    exists toast_missing_information. split; [guard_toast|].
    left. split; [left|]; reflexivity.
  - destruct (url_parser w url) as [e | []] eqn:He.
    + destruct (run_handleExtract_invalid_url url prompt w e 0 Hu Hp He) as [Hn _].
      destruct (run_deterministic _ _ _ _ _ _ _ _ _ _ Hn Hrun) as [_ <-].
      exists toast_invalid_url. split; [guard_toast|].
      left. split; [right|]; reflexivity.
    + assert (Hv : validated url prompt w) by (repeat split; assumption).
      destruct (handleExtract_inv _ _ _ _ _ _ Hv Hrun)
        as [outcome [w1 [_ [[_ [_ [_ [Herr [added [Htr Hout]]]]]] ->]]]].
      destruct (finished_observed outcome w1) as [_ [_ Hft]].
      destruct (started_observed url w) as [_ [_ Hst]].
      rewrite Hft, Htr, toasts_app, Hst. cbn [toasts act].
      rewrite finished_ui. cbn [error].
      destruct outcome as [e | []].
      * destruct Hout as [_ [_ Hnone]]. rewrite Hnone, app_nil_r.
        exists (toast_extraction_failed (message e)). split; [reflexivity|].
        right. right. exists e. split; reflexivity.
      * destruct Hout as [_ [_ Hone]]. rewrite Hone, app_nil_r.
        exists toast_extraction_complete. split; [reflexivity|].
        right. left. split; [reflexivity|]. rewrite Herr. reflexivity.
Qed.

(* ===================================================================== *)
(** * The page after an attempt                                           *)
(* ===================================================================== *)

Lemma error_display_failure (u : UiState) (e : JsError) :
  error u = failure_text e -> error_display u = Some (failure_text e).
Proof. unfold error_display. intros ->. reflexivity. Qed.

Lemma error_display_none (u : UiState) :
  error u = EmptyString -> error_display u = None.
Proof. unfold error_display. intros ->. reflexivity. Qed.

Lemma results_display_null (u : UiState) :
  extractedData u = null -> results_display u = Nothing.
Proof. unfold results_display. intros ->. reflexivity. Qed.

(** X10.  After every complete run of [handleExtract] that passed the
    guards the loading card is gone and the submit button is enabled again
    and reads [Extract Data]; the page shows no error card, or it shows
    the error card with the failure text and then no results card: never
    both. *)
Theorem page_after_handleExtract (url prompt : string) (w w' : World)
    (fuel spare : nat) :
  validated url prompt w ->
  run fuel (handleExtract url prompt) w = Done tt w' spare ->
  loading_display (ui w') = None
  /\ submit_button (ui w') url prompt = {| disabled := false; label := "Extract Data" |}
  /\ (error_display (ui w') = None
      \/ (exists e, error_display (ui w') = Some (failure_text e))
         /\ results_display (ui w') = Nothing).
Proof.
  intros Hv Hrun.
  destruct (handleExtract_inv _ _ _ _ _ _ Hv Hrun)
    as [outcome [w1 [_ [[_ [_ [_ [Herr [added [_ Hout]]]]]] ->]]]].
  destruct Hv as [Hu [Hp _]].
  unfold loading_display, submit_button. rewrite finished_ui. cbn [isLoading orb].
  rewrite (proj2 (truthy_string url)), (proj2 (truthy_string prompt)) by assumption.
  split; [reflexivity|]. split; [reflexivity|].
  destruct outcome as [e | []].
  - right. split.
    + exists e. apply error_display_failure. reflexivity.
    + apply results_display_null. cbn [extractedData].
      destruct Hout as [-> _]. reflexivity.
  - left. apply error_display_none. cbn [error]. rewrite Herr. reflexivity.
Qed.

(* ===================================================================== *)
(** * Rules for runs in progress                                          *)
(* ===================================================================== *)

Lemma throughout_ret {R : Type} (r : R) (w : World) (P : World -> Prop)
    (Q : R -> World -> Prop) :
  Q r w -> throughout (Ret r) w P Q.
Proof. intros HQ fuel. rewrite run_ret. exact HQ. Qed.

Lemma throughout_trigger {X : Type} (e : effectE X) (w : World) (P : World -> Prop)
    (Q : X -> World -> Prop) :
  P w -> Q (fst (handle e w)) (snd (handle e w)) -> throughout (ITree.trigger e) w P Q.
Proof.
  intros HP HQ [|fuel]; [exact HP|]. rewrite run_trigger. exact HQ.
Qed.

Lemma throughout_bind {A B : Type} (t : itree effectE A) (k : A -> itree effectE B)
    (w : World) (P : World -> Prop) (Q : B -> World -> Prop) :
  throughout t w P (fun a w1 => throughout (k a) w1 P Q) ->
  throughout (ITree.bind t k) w P Q.
Proof.
  intros H fuel. rewrite run_bind. specialize (H fuel).
  destruct (run fuel t w) as [a w1 s | w1]; [apply H | exact H].
Qed.

Lemma throughout_weaken {R : Type} (t : itree effectE R) (w : World)
    (P P' : World -> Prop) (Q Q' : R -> World -> Prop) :
  throughout t w P Q ->
  (forall w', P w' -> P' w') -> (forall r w', Q r w' -> Q' r w') ->
  throughout t w P' Q'.
Proof.
  intros H HP HQ fuel. specialize (H fuel).
  destruct (run fuel t w) as [r w1 s | w1]; auto.
Qed.

(** The invariant rule of a loop: the invariant holds whenever the body is
    entered, and [P] also when the body has asked for another pass. *)
Lemma throughout_iter {I R : Type} (step : I -> itree effectE (I + R))
    (Inv : I -> World -> Prop) (P : World -> Prop) (Q : R -> World -> Prop) :
  (forall i w, Inv i w ->
     throughout (step i) w P
       (fun lr w' => match lr with inl i' => Inv i' w' /\ P w' | inr r => Q r w' end)) ->
  forall i w, Inv i w -> throughout (ITree.iter step i) w P Q.
Proof.
  intros Hstep i w Hinv fuel. revert i w Hinv.
  induction fuel as [fuel IH] using lt_wf_ind.
  intros i w Hinv. rewrite run_iter, run_bind.
  pose proof (Hstep i w Hinv fuel) as Hpass.
  destruct (run fuel (step i) w) as [lr w1 s1 | w1] eqn:Hrun; [|exact Hpass].
  apply run_left_le in Hrun.
  destruct lr as [i' | r].
  - destruct Hpass as [Hinv' HP].
    destruct s1 as [|s1]; [exact HP|].
    rewrite run_tau. apply IH; [lia | exact Hinv'].
  - rewrite run_ret. exact Hpass.
Qed.

Lemma throughout_running {R : Type} (t : itree effectE R) (w w' : World)
    (P : World -> Prop) (Q : R -> World -> Prop) (fuel : nat) :
  throughout t w P Q -> run fuel t w = Running w' -> P w'.
Proof. intros H Hrun. specialize (H fuel). rewrite Hrun in H. exact H. Qed.

(* ===================================================================== *)
(** * The page while the handler waits                                    *)
(* ===================================================================== *)

Lemma awaiting_snoc (tr : list Action) (a : Action) :
  awaiting (tr ++ [a]) = is_await a.
Proof.
  induction tr as [|b tr IH]; [reflexivity|].
  cbn [app awaiting]. destruct (tr ++ [a])%list eqn:Heq; [|exact IH].
  destruct tr; discriminate.
Qed.

Lemma awaiting_app (tr added : list Action) :
  awaiting added = true -> awaiting (tr ++ added) = true.
Proof.
  intros H. destruct added as [|a added] using rev_ind; [discriminate|].
  rewrite awaiting_snoc in H. rewrite app_assoc, awaiting_snoc. exact H.
Qed.

Lemma waiting_inv_not_await (S : UiState -> Prop) {T : Type} (e : effectE T)
    (w : World) :
  is_await (act e) = false -> waiting_inv S (snd (handle e w)).
Proof.
  intros H. right. destruct e; world_simpl; rewrite awaiting_snoc; exact H.
Qed.

Lemma waits_with_of_inv (S : UiState -> Prop) (w w' : World) :
  waiting_inv S w' -> waits_with S w w'.
Proof.
  intros [H | H] added Htr Hadded; [exact H|].
  rewrite Htr, (awaiting_app _ _ Hadded) in H. discriminate.
Qed.

(** After a result was stored: the assignment and the toast. *)
Lemma store_result_waiting_inv (S : UiState -> Prop) (v : JsValue) (w : World) :
  waiting_inv S w ->
  throughout
    (ITree.bind (perform (SetExtractedData v))
       (fun r : JsError + unit =>
          match r with
          | inl e => Ret (inl e)
          | inr _ => perform (ShowToast toast_extraction_complete)
          end))
    w (waiting_inv S) (fun _ w' => waiting_inv S w').
Proof.
  intros Hw. unfold perform.
  apply throughout_bind, throughout_bind, throughout_trigger; [exact Hw|].
  apply throughout_ret, throughout_bind, throughout_trigger;
    [apply waiting_inv_not_await; reflexivity|].
  apply throughout_ret. apply waiting_inv_not_await. reflexivity.
Qed.

Lemma in_flight_try_inv (w : World) : in_flight (ui w) -> try_inv w.
Proof. left. assumption. Qed.

Lemma try_inv_not_await {T : Type} (e : effectE T) (w : World) :
  is_await (act e) = false -> try_inv (snd (handle e w)).
Proof. apply waiting_inv_not_await. Qed.

Ltac in_progress :=
  repeat (first [ apply throughout_bind
                | apply throughout_ret
                | apply throughout_trigger ];
          cbv beta; world_simpl).

Lemma in_flight_status (st : JsValue) (w : World) :
  in_flight (ui w) ->
  (st === "completed") = false -> (st === "failed") = false ->
  (st === "cancelled") = false ->
  in_flight (ui (snd (handle (SetJobStatus st) w))).
Proof.
  intros [Hl [He [Hd _]]] H1 H2 H3. repeat split; try assumption.
  cbn [fst snd handle ui with_ui record_action jobStatus]. unfold terminal_status.
  rewrite H1, H2, H3. reflexivity.
Qed.

Lemma try_inv_status (st : JsValue) (w : World) :
  try_inv (snd (handle (SetJobStatus st) w)).
Proof. apply try_inv_not_await. reflexivity. Qed.

(** While it polls, [waitForCompletion] leaves the state as the reset of
    [handleExtract] left it and shows no status that ends the polling, at
    every step; when it ends, that still holds or the last thing it did was
    to show the status. *)
Lemma waitForCompletion_in_flight (extractId : JsValue) (w : World) :
  in_flight (ui w) ->
  throughout (waitForCompletion extractId) w
    (fun w' => in_flight (ui w')) (fun _ w' => try_inv w').
Proof.
  intros Hw. unfold waitForCompletion, while_true.
  apply (throughout_iter _ (fun _ w1 => in_flight (ui w1))); [|exact Hw].
  clear w Hw. intros _ w Hw.
  pose proof (in_flight_try_inv _ Hw) as Hinv.
  unfold waitForCompletion_pass, pollJobStatus. unfold_js.
  repeat apply throughout_bind. apply throughout_trigger; [exact Hw|].
  set (w1 := snd (handle (Fetch webhookUrl (status_check_request extractId)) w)).
  assert (Hw1 : in_flight (ui w1)) by exact Hw.
  assert (Hinv1 : try_inv w1) by (left; exact Hw1).
  replace (fst (handle (Fetch webhookUrl (status_check_request extractId)) w))
    with (network w (fetched w)) by reflexivity.
  destruct (network w (fetched w)) as [e | response];
    [in_progress; exact Hinv1|].
  destruct (ok response); cbn [negb]; [|in_progress; exact Hinv1].
  apply throughout_ret.
  destruct (json response) as [e | v]; [in_progress; exact Hinv1|].
  apply throughout_bind, throughout_ret.
  destruct (get v "status") as [e | st]; [in_progress; exact Hinv1|].
  apply throughout_bind, throughout_bind, throughout_trigger; [exact Hw1|].
  pose proof (try_inv_status st w1) as Hinv2.
  apply throughout_ret.
  destruct (st === "completed") eqn:H1.
  { apply throughout_bind, throughout_ret.
    destruct (get v "data") as [e | data]; in_progress; exact Hinv2. }
  destruct (st === "failed") eqn:H2; [in_progress; exact Hinv2|].
  destruct (st === "cancelled") eqn:H3; [in_progress; exact Hinv2|].
  pose proof (in_flight_status st w1 Hw1 H1 H2 H3) as Hw2.
  set (w2 := snd (handle (SetJobStatus st) w1)) in *.
  apply throughout_bind, throughout_bind, throughout_trigger; [exact Hw2|].
  in_progress. split; exact Hw2.
Qed.

Lemma store_result_try_inv (v : JsValue) (w : World) :
  try_inv w ->
  throughout
    (ITree.bind (perform (SetExtractedData v))
       (fun r : JsError + unit =>
          match r with
          | inl e => Ret (inl e)
          | inr _ => perform (ShowToast toast_extraction_complete)
          end))
    w try_inv (fun _ w' => try_inv w').
Proof. apply store_result_waiting_inv. Qed.

Lemma handleExtract_try_in_flight (url prompt : string) (w : World) :
  in_flight (ui w) ->
  throughout (handleExtract_try url prompt) w try_inv (fun _ w' => try_inv w').
Proof.
  intros Hw. pose proof (in_flight_try_inv w Hw) as Hinv.
  unfold handleExtract_try. unfold_js. fold (@perform unit).
  apply throughout_bind, throughout_trigger; [exact Hinv|].
  assert (Hinv1 : try_inv (snd (handle (Fetch webhookUrl (submit_request url prompt)) w)))
    by (left; exact Hw).
  set (w1 := snd (handle (Fetch webhookUrl (submit_request url prompt)) w)) in *.
  assert (Hw1 : in_flight (ui w1)) by exact Hw.
  replace (fst (handle (Fetch webhookUrl (submit_request url prompt)) w))
    with (network w (fetched w)) by reflexivity.
  destruct (network w (fetched w)) as [e | response]; [apply throughout_ret; exact Hinv1|].
  destruct (ok response); cbn [negb]; [|apply throughout_ret; exact Hinv1].
  apply throughout_bind, throughout_ret.
  destruct (json response) as [e | v]; [apply throughout_ret; exact Hinv1|].
  apply throughout_bind, throughout_ret.
  destruct (get v "success") as [e | success]; [apply throughout_ret; exact Hinv1|].
  destruct (truthy success); cbn [negb]; [|apply throughout_ret; exact Hinv1].
  apply throughout_bind, throughout_ret.
  destruct (get v "status") as [e | status]; [apply throughout_ret; exact Hinv1|].
  destruct (status === "completed").
  - apply throughout_bind, throughout_ret.
    destruct (get v "data") as [e | data]; [apply throughout_ret; exact Hinv1|].
    apply store_result_try_inv. exact Hinv1.
  - apply throughout_bind, throughout_ret.
    destruct (get v "extract_id") as [e | extract_id]; [apply throughout_ret; exact Hinv1|].
    destruct (truthy extract_id).
    + apply throughout_bind.
      eapply throughout_weaken; [apply waitForCompletion_in_flight; exact Hw1| |].
      * intros w' H. left. exact H.
      * intros r w2 H. cbv beta.
        destruct r as [e | finalData]; [apply throughout_ret; exact H|].
        apply store_result_try_inv. exact H.
    + apply throughout_bind, throughout_ret.
      destruct (get v "data") as [e | data]; [apply throughout_ret; exact Hinv1|].
      apply store_result_try_inv. exact Hinv1.
Qed.

Lemma waits_in_flight_of_inv (w w' : World) : try_inv w' -> waits_in_flight w w'.
Proof. apply waits_with_of_inv. Qed.

Lemma app_nothing_added {A : Type} (l added : list A) :
  l = (l ++ added)%list -> added = [].
Proof.
  intros H. rewrite <- (app_nil_r l) in H at 1. apply app_inv_head in H.
  symmetry. exact H.
Qed.

Ltac not_waiting :=
  let added := fresh "added" in
  let Htr := fresh "Htr" in
  let Hadded := fresh "Hadded" in
  intros added Htr Hadded;
  cbn [fst snd handle ui trace record_action next_request with_ui act] in Htr;
  rewrite <- ?app_assoc in Htr;
  first [ apply app_inv_head in Htr | apply app_nothing_added in Htr ];
  subst added; discriminate.

Lemma handleExtract_waits_in_flight (url prompt : string) (w : World) :
  throughout (handleExtract url prompt) w (waits_in_flight w) (fun _ _ => True).
Proof.
  unfold handleExtract.
  apply throughout_bind, throughout_trigger; [not_waiting|].
  destruct (negb (truthy (Some (JString url))) || negb (truthy (Some (JString prompt)))).
  { apply throughout_trigger; [not_waiting | exact I]. }
  apply throughout_bind, throughout_trigger; [not_waiting|].
  world_simpl.
  destruct (url_parser w url) as [e | []].
  { apply throughout_trigger; [not_waiting | exact I]. }
  apply throughout_bind, throughout_trigger; [not_waiting|].
  apply throughout_bind, throughout_trigger; [not_waiting|].
  apply throughout_bind, throughout_trigger; [not_waiting|].
  apply throughout_bind, throughout_trigger; [not_waiting|].
  apply throughout_bind, throughout_trigger; [not_waiting|].
  fold (started url w).
  assert (Hstart : in_flight (ui (started url w))) by (repeat split).
  apply throughout_bind.
  eapply throughout_weaken;
    [apply handleExtract_try_in_flight; exact Hstart
    | intros w'; apply waits_in_flight_of_inv |].
  intros outcome w1 Hinv. cbv beta.
  apply throughout_bind.
  apply (throughout_weaken _ _ (waits_in_flight w)
           (waits_in_flight w) (fun _ w2 => try_inv w2) _).
  - destruct outcome as [e | []].
    + unfold handleExtract_catch.
      apply throughout_bind, throughout_trigger;
        [apply waits_in_flight_of_inv; exact Hinv|].
      apply throughout_trigger;
        [apply waits_in_flight_of_inv, try_inv_not_await; reflexivity|].
      apply try_inv_not_await. reflexivity.
    + apply throughout_ret. exact Hinv.
  - auto.
  - intros _ w2 Hinv2. unfold handleExtract_finally.
    apply throughout_bind, throughout_trigger;
      [apply waits_in_flight_of_inv; exact Hinv2|].
    apply throughout_trigger;
      [apply waits_in_flight_of_inv, try_inv_not_await; reflexivity | exact I].
Qed.

(** X11.  At every step of a run of [handleExtract], when the last thing
    the run did is send a request or start a pause (the handler is
    waiting), [isLoading] is true, [error] is empty, [extractedData] is
    [null] and [jobStatus] is none of [completed], [failed], [cancelled]:
    the page shows the loading card, headed [Processing your request...]
    or [Extracting data...], no error card and no results card, and the
    submit button is disabled whatever the inputs hold. *)
Theorem handleExtract_page_while_waiting (url prompt : string) (w w' : World)
    (fuel : nat) (added : list Action) :
  run fuel (handleExtract url prompt) w = Running w' ->
  trace w' = (trace w ++ added)%list ->
  awaiting added = true ->
  in_flight (ui w')
  /\ (exists card,
        loading_display (ui w') = Some card
        /\ (heading card = "Processing your request..."
            \/ heading card = "Extracting data..."))
  /\ error_display (ui w') = None
  /\ results_display (ui w') = Nothing
  /\ forall url' prompt', disabled (submit_button (ui w') url' prompt') = true.
Proof.
  intros Hrun Htr Hadded.
  pose proof (throughout_running _ _ _ _ _ _ (handleExtract_waits_in_flight url prompt w)
                Hrun added Htr Hadded) as Hflight.
  split; [exact Hflight|]. destruct Hflight as [Hloading [Herror [Hdata Hstatus]]].
  split; [|split; [|split]].
  - unfold loading_display. rewrite Hloading. eexists. split; [reflexivity|].
    cbn [heading]. unfold getStatusMessage.
    destruct (terminal_status_false _ Hstatus) as [H1 [H2 H3]].
    rewrite H1, H2, H3.
    destruct (jobStatus (ui w') === "processing"); auto.
  - apply error_display_none. exact Herror.
  - apply results_display_null. exact Hdata.
  - intros url' prompt'. unfold submit_button. cbn [disabled]. rewrite Hloading.
    reflexivity.
Qed.

(* ===================================================================== *)
(** * Copying the result                                                  *)
(* ===================================================================== *)



(** X13.  [handleCopy] says [Copied!] only when the clipboard took the
    text: in every other case (nothing to copy, or the clipboard refused)
    the [copied] flag, the clipboard and the timers are as they were and
    no toast [Copied!] is added; a refusal is reported by one toast
    [Copy Failed] and one line on the console, a click with nothing to copy
    by nothing at all. *)
Theorem handleCopy_reports_success_only_when_copied (data : JsValue)
    (writeText : string -> JsError + unit) (s : CopyState) :
  let s' := handleCopy data writeText s in
  (exists v, data = Some v /\ truthy data = true
             /\ writeText (JSON_stringify_2 v) = inr tt
             /\ clipboard s' = Some (JSON_stringify_2 v) /\ copied s' = true)
  \/ (truthy data = false /\ s' = s)
  \/ (exists v e, data = Some v /\ writeText (JSON_stringify_2 v) = inl e
                  /\ copied s' = copied s /\ clipboard s' = clipboard s
                  /\ timers s' = timers s
                  /\ copy_toasts s' = (copy_toasts s ++ [toast_copy_failed])%list
                  /\ console_errors s' = (console_errors s ++ [("Copy failed:", e)])%list).
Proof.
  unfold handleCopy. destruct (truthy data) eqn:Ht; cbn [negb]; [|auto].
  destruct data as [v|]; [|discriminate].
  destruct (writeText (JSON_stringify_2 v)) as [e | []] eqn:Hw.
  - right. right. exists v, e. rewrite Hw. cbn. repeat split.
  - left. exists v. rewrite Hw. cbn. repeat split.
Qed.

(* ===================================================================== *)
(** * The bodies of the requests                                          *)
(* ===================================================================== *)


(* ===================================================================== *)
(** * The results card of the first revisions                             *)
(* ===================================================================== *)

Lemma single_try_cleared (url prompt : string) (w : World) :
  cleared (ui w) ->
  throughout (SingleRequest.handleExtract_try url prompt) w
    (waiting_inv cleared) (fun _ w' => waiting_inv cleared w').
Proof.
  intros Hw. assert (Hinv : waiting_inv cleared w) by (left; exact Hw).
  unfold SingleRequest.handleExtract_try. unfold_js. fold (@perform unit).
  apply throughout_bind, throughout_trigger; [exact Hinv|].
  assert (Hinv1 : waiting_inv cleared
                    (snd (handle (Fetch webhookUrl (submit_request url prompt)) w)))
    by (left; exact Hw).
  set (w1 := snd (handle (Fetch webhookUrl (submit_request url prompt)) w)) in *.
  replace (fst (handle (Fetch webhookUrl (submit_request url prompt)) w))
    with (network w (fetched w)) by reflexivity.
  destruct (network w (fetched w)) as [e | response]; [apply throughout_ret; exact Hinv1|].
  destruct (ok response); cbn [negb]; [|apply throughout_ret; exact Hinv1].
  apply throughout_bind, throughout_ret.
  destruct (json response) as [e | v]; [apply throughout_ret; exact Hinv1|].
  apply store_result_waiting_inv. exact Hinv1.
Qed.

Lemma results_display_not_loading (u : UiState) :
  isLoading u = false -> results_display_unguarded u = results_display u.
Proof.
  unfold results_display_unguarded, results_display. intros ->. reflexivity.
Qed.

Lemma results_display_cleared (u : UiState) :
  cleared u -> results_display_unguarded u = Nothing /\ results_display u = Nothing.
Proof.
  unfold results_display_unguarded, results_display.
  intros [_ [_ ->]]. split; reflexivity.
Qed.

Lemma single_request_waits_cleared (url prompt : string) (w : World) :
  throughout (SingleRequest.handleExtract url prompt) w (waits_with cleared w)
    (fun _ w' => validated url prompt w -> isLoading (ui w') = false).
Proof.
  unfold SingleRequest.handleExtract.
  apply throughout_bind, throughout_trigger; [not_waiting|].
  destruct (negb (truthy (Some (JString url))) || negb (truthy (Some (JString prompt))))
    eqn:Hguards.
  { apply throughout_trigger; [not_waiting|].
    intros [Hu [Hp _]]. rewrite (guards_pass _ _ Hu Hp) in Hguards. discriminate. }
  apply throughout_bind, throughout_trigger; [not_waiting|].
  world_simpl.
  destruct (url_parser w url) as [e | []] eqn:Hparsed.
  { apply throughout_trigger; [not_waiting|].
    intros [_ [_ Hv]]. congruence. }
  apply throughout_bind, throughout_trigger; [not_waiting|].
  apply throughout_bind, throughout_trigger; [not_waiting|].
  apply throughout_bind, throughout_trigger; [not_waiting|].
  set (w0 := snd (handle (SetExtractedData null) _)).
  assert (Hstart : cleared (ui w0)) by (repeat split).
  apply throughout_bind.
  eapply throughout_weaken;
    [apply single_try_cleared; exact Hstart
    | intros w'; apply waits_with_of_inv |].
  intros outcome w1 Hinv. cbv beta.
  apply throughout_bind.
  apply (throughout_weaken _ _ (waits_with cleared w)
           (waits_with cleared w) (fun _ w2 => waiting_inv cleared w2) _).
  - destruct outcome as [e | []].
    + unfold handleExtract_catch.
      apply throughout_bind, throughout_trigger;
        [apply waits_with_of_inv; exact Hinv|].
      apply throughout_trigger;
        [apply waits_with_of_inv, waiting_inv_not_await; reflexivity|].
      apply waiting_inv_not_await. reflexivity.
    + apply throughout_ret. exact Hinv.
  - auto.
  - intros _ w2 Hinv2.
    apply throughout_trigger; [apply waits_with_of_inv; exact Hinv2|].
    intros _. reflexivity.
Qed.

(** X15.  For the component without polling, the results card of the first
    revision ([{extractedData && (]) and the one conditioned on
    [!isLoading] show the same: while the handler waits for its request
    the state is cleared and neither shows anything, and when a run that
    passed the guards has ended [isLoading] is false and they agree. *)
Theorem single_request_results_display (url prompt : string) (w w' : World)
    (fuel : nat) :
  (forall added,
     run fuel (SingleRequest.handleExtract url prompt) w = Running w' ->
     trace w' = (trace w ++ added)%list -> awaiting added = true ->
     cleared (ui w')
     /\ results_display_unguarded (ui w') = Nothing
     /\ results_display (ui w') = Nothing)
  /\
  (forall spare,
     validated url prompt w ->
     run fuel (SingleRequest.handleExtract url prompt) w = Done tt w' spare ->
     isLoading (ui w') = false
     /\ results_display_unguarded (ui w') = results_display (ui w')).
Proof.
  pose proof (single_request_waits_cleared url prompt w fuel) as H.
  split.
  - intros added Hrun Htr Hadded. rewrite Hrun in H.
    pose proof (H added Htr Hadded) as Hc.
    split; [exact Hc|]. apply results_display_cleared. exact Hc.
  - intros spare Hv Hrun. rewrite Hrun in H.
    split; [exact (H Hv)|]. apply results_display_not_loading. exact (H Hv).
Qed.

(* ===================================================================== *)
(** * More properties on sample environments                              *)
(* ===================================================================== *)

Lemma validated_more_samples (answers : list (JsError + Response)) :
  validated Samples.url Samples.prompt (MoreSamples.world answers).
Proof. repeat split; discriminate. Defined.

Lemma run_polling_run :
  run 20 (waitForCompletion Samples.job)
    (Samples.world [Samples.processing; Samples.completed Samples.articles])
  = Done (inr (Some Samples.articles)) (world_of MoreSamples.polling_run)
      (spare_of MoreSamples.polling_run).
Proof. vm_compute. reflexivity. Defined.

Lemma run_paused_run :
  run 11 (handleExtract Samples.url Samples.prompt)
    (Samples.world [Samples.accepted; Samples.processing;
                    Samples.completed Samples.articles])
  = Running (world_of MoreSamples.paused_run).
Proof. vm_compute. reflexivity. Defined.

Lemma run_single_waiting_run :
  run 6 (SingleRequest.handleExtract Samples.url Samples.prompt)
    (Samples.world [Samples.completed Samples.articles])
  = Running (world_of MoreSamples.single_waiting_run).
Proof. vm_compute. reflexivity. Defined.

Lemma run_single_run :
  run 20 (SingleRequest.handleExtract Samples.url Samples.prompt)
    (Samples.world [Samples.completed Samples.articles])
  = Done tt (world_of MoreSamples.single_run) (spare_of MoreSamples.single_run).
Proof. vm_compute. reflexivity. Defined.

(** X1 on a sample: without polling, an answer that refuses the submission
    is stored as the result. *)
Lemma single_request_stores_the_body_witness :
  exists w',
    runs_to (SingleRequest.handleExtract Samples.url Samples.prompt)
      (Samples.world [Samples.refused]) tt w'
    /\ extractedData (ui w') = Some Samples.refused
    /\ error (ui w') = EmptyString
    /\ isLoading (ui w') = false
    /\ requests (trace w') = [submission Samples.url Samples.prompt]
    /\ toasts (trace w') = [toast_extraction_complete].
Proof.
  exact (single_request_stores_the_body Samples.url Samples.prompt
           (Samples.world [Samples.refused]) Samples.refused
           (validated_samples _) eq_refl).
Defined.

(** X2 on a sample: without polling, the webhook is down. *)
Lemma single_request_reports_the_failure_witness :
  exists w',
    runs_to (SingleRequest.handleExtract Samples.url Samples.prompt)
      (MoreSamples.world [MoreSamples.unavailable]) tt w'
    /\ extractedData (ui w') = null
    /\ error (ui w') = "Failed to extract data: HTTP error! status: 503"
    /\ isLoading (ui w') = false
    /\ requests (trace w') = [submission Samples.url Samples.prompt]
    /\ toasts (trace w') = [toast_extraction_failed "HTTP error! status: 503"].
Proof.
  exact (single_request_reports_the_failure Samples.url Samples.prompt
           (MoreSamples.world [MoreSamples.unavailable])
           (Error "HTTP error! status: 503")
           (validated_more_samples _) eq_refl).
Defined.

(** X3 on a sample: one answer [processing], then the webhook is down. *)
Lemma waitForCompletion_transport_failure_witness :
  exists w',
    runs_to (waitForCompletion Samples.job)
      (MoreSamples.world [ok_response Samples.processing; MoreSamples.unavailable])
      (inl (Error "HTTP error! status: 503")) w'
    /\ requests (trace w') = [status_check Samples.job; status_check Samples.job]
    /\ pauses (trace w') = [2000%Z]
    /\ trace w' =
       [act (Fetch webhookUrl (status_check_request Samples.job));
        act (SetJobStatus (Some (JString "processing")));
        act (SetTimeout 2000);
        act (Fetch webhookUrl (status_check_request Samples.job))].
Proof.
  refine (waitForCompletion_transport_failure Samples.job
            (MoreSamples.world [ok_response Samples.processing; MoreSamples.unavailable])
            1 (Error "HTTP error! status: 503") _ eq_refl).
  intros [|i] Hi; [reflexivity | lia].
Defined.

(** X4 on a sample: the webhook is down when the job is submitted. *)
Lemma handleExtract_submission_transport_failure_witness :
  exists w',
    runs_to (handleExtract Samples.url Samples.prompt)
      (MoreSamples.world [MoreSamples.unavailable]) tt w'
    /\ isLoading (ui w') = false
    /\ extractedData (ui w') = null
    /\ error (ui w') = "Failed to extract data: HTTP error! status: 503"
    /\ requests (trace w') = [submission Samples.url Samples.prompt]
    /\ toasts (trace w') = [toast_extraction_failed "HTTP error! status: 503"].
Proof.
  exact (handleExtract_submission_transport_failure Samples.url Samples.prompt
           (MoreSamples.world [MoreSamples.unavailable])
           (Error "HTTP error! status: 503")
           (validated_more_samples _) eq_refl).
Defined.

(** X5 on a sample: a job accepted, polled twice, completed with two
    articles. *)
Lemma handleExtract_polls_to_completion_witness :
  exists w',
    runs_to (handleExtract Samples.url Samples.prompt)
      (Samples.world [Samples.accepted; Samples.processing;
                      Samples.completed Samples.articles]) tt w'
    /\ isLoading (ui w') = false
    /\ extractedData (ui w') = Some Samples.articles
    /\ error (ui w') = EmptyString
    /\ requests (trace w') =
       [submission Samples.url Samples.prompt; status_check Samples.job;
        status_check Samples.job]
    /\ pauses (trace w') = [2000%Z]
    /\ toasts (trace w') = [toast_extraction_complete].
Proof.
  refine (handleExtract_polls_to_completion Samples.url Samples.prompt
            (Samples.world [Samples.accepted; Samples.processing;
                            Samples.completed Samples.articles])
            Samples.accepted (Samples.completed Samples.articles)
            (Some (JBool true)) (Some (JString "processing")) Samples.job
            (Some Samples.articles) 1
            (validated_samples _) eq_refl eq_refl eq_refl eq_refl eq_refl eq_refl eq_refl
            _ eq_refl eq_refl eq_refl).
  intros [|i] Hi; [reflexivity | lia].
Defined.

(** X6 on a sample: a job accepted, polled twice, failed. *)
Lemma handleExtract_job_failed_or_cancelled_witness :
  exists w',
    runs_to (handleExtract Samples.url Samples.prompt)
      (Samples.world [Samples.accepted; Samples.processing; Samples.failed]) tt w'
    /\ extractedData (ui w') = null
    /\ error (ui w') = "Failed to extract data: Extraction job failed"
    /\ requests (trace w') =
       [submission Samples.url Samples.prompt; status_check Samples.job;
        status_check Samples.job]
    /\ toasts (trace w') = [toast_extraction_failed "Extraction job failed"].
Proof.
  refine (proj1 (handleExtract_job_failed_or_cancelled Samples.url Samples.prompt
                   (Samples.world [Samples.accepted; Samples.processing; Samples.failed])
                   Samples.accepted Samples.failed
                   (Some (JBool true)) (Some (JString "processing")) Samples.job 1
                   (validated_samples _) eq_refl eq_refl eq_refl eq_refl eq_refl eq_refl
                   eq_refl _ eq_refl) eq_refl).
  intros [|i] Hi; [reflexivity | lia].
Defined.

(** X7 on a sample: one answer [processing], then [completed]. *)
Lemma waitForCompletion_requests_and_pauses_witness :
  exists k,
    (forall i, i < k ->
       keeps_polling
         (network (Samples.world [Samples.processing; Samples.completed Samples.articles])
            (0 + i)) = true)
    /\ keeps_polling
         (network (Samples.world [Samples.processing; Samples.completed Samples.articles])
            (0 + k)) = false
    /\ fetched (world_of MoreSamples.polling_run) = 0 + S k
    /\ requests (trace (world_of MoreSamples.polling_run)) =
       ([] ++ repeat (status_check Samples.job) (S k))%list
    /\ pauses (trace (world_of MoreSamples.polling_run)) = ([] ++ repeat 2000%Z k)%list.
Proof.
  exact (waitForCompletion_requests_and_pauses Samples.job _ _ _ _ _ run_polling_run).
Defined.

(** X8 on a sample: a job accepted, polled twice, completed. *)
Lemma handleExtract_requests_of_a_run_witness :
  submission_then_polls Samples.url Samples.prompt
    (Samples.world [Samples.accepted; Samples.processing;
                    Samples.completed Samples.articles])
    (world_of Samples.polled_run).
Proof.
  exact (handleExtract_requests_of_a_run Samples.url Samples.prompt _ _ _ _
           (validated_samples _) run_polled_run).
Defined.

(** X9 on a sample: a job that failed. *)
Lemma handleExtract_shows_one_toast_witness :
  exists t,
    toasts (trace (world_of Samples.failed_run)) = ([] ++ [t])%list
    /\ ((InvalidInputError t
         /\ ui (world_of Samples.failed_run)
            = ui (Samples.world [Samples.accepted; Samples.processing; Samples.failed]))
        \/ (t = toast_extraction_complete
            /\ error (ui (world_of Samples.failed_run)) = EmptyString)
        \/ (exists e, t = toast_extraction_failed (message e)
                      /\ error (ui (world_of Samples.failed_run)) = failure_text e)).
Proof.
  exact (handleExtract_shows_one_toast Samples.url Samples.prompt _ _ _ _ run_failed_run).
Defined.

(** X10 on a sample: the page after a job that failed. *)
Lemma page_after_handleExtract_witness :
  loading_display (ui (world_of Samples.failed_run)) = None
  /\ submit_button (ui (world_of Samples.failed_run)) Samples.url Samples.prompt
     = {| disabled := false; label := "Extract Data" |}
  /\ (error_display (ui (world_of Samples.failed_run)) = None
      \/ (exists e, error_display (ui (world_of Samples.failed_run))
                    = Some (failure_text e))
         /\ results_display (ui (world_of Samples.failed_run)) = Nothing).
Proof.
  exact (page_after_handleExtract Samples.url Samples.prompt _ _ _ _
           (validated_samples _) run_failed_run).
Defined.

(** X11 on a sample: the page in the pause after the first status check. *)
Lemma handleExtract_page_while_waiting_witness :
  in_flight (ui (world_of MoreSamples.paused_run))
  /\ (exists card,
        loading_display (ui (world_of MoreSamples.paused_run)) = Some card
        /\ (heading card = "Processing your request..."
            \/ heading card = "Extracting data..."))
  /\ error_display (ui (world_of MoreSamples.paused_run)) = None
  /\ results_display (ui (world_of MoreSamples.paused_run)) = Nothing
  /\ forall url' prompt',
       disabled (submit_button (ui (world_of MoreSamples.paused_run)) url' prompt') = true.
Proof.
  refine (handleExtract_page_while_waiting Samples.url Samples.prompt _ _ _
            (trace (world_of MoreSamples.paused_run)) run_paused_run _ _).
  - reflexivity.
  - vm_compute. reflexivity.
Defined.



(** X15 on a sample: the component without polling while it waits for the
    answer and when the answer has come. *)
Lemma single_request_results_display_witness :
  (cleared (ui (world_of MoreSamples.single_waiting_run))
   /\ results_display_unguarded (ui (world_of MoreSamples.single_waiting_run)) = Nothing
   /\ results_display (ui (world_of MoreSamples.single_waiting_run)) = Nothing)
  /\ (isLoading (ui (world_of MoreSamples.single_run)) = false
      /\ results_display_unguarded (ui (world_of MoreSamples.single_run))
         = results_display (ui (world_of MoreSamples.single_run))).
Proof.
  split.
  - refine (proj1 (single_request_results_display Samples.url Samples.prompt _ _ _)
              (trace (world_of MoreSamples.single_waiting_run))
              run_single_waiting_run _ _).
    + reflexivity.
    + vm_compute. reflexivity.
  - exact (proj2 (single_request_results_display Samples.url Samples.prompt _ _ _)
             _ (validated_samples _) run_single_run).
Defined.
